(** * A shallow embedding of the gpt-oss-120b-MAX gateway

    The development follows the TypeScript sources: [src/utils.ts]
    (content flattening), [src/config.ts] and [src/ollama-utils.ts] (remote
    allowlist), [src/services/model-service.ts] (model directory),
    [src/validation.ts], [src/auth.ts], [src/errors.ts], [src/chat.ts]
    (dispatcher, non-streaming and streaming handlers),
    [src/unified-server.ts] (routing of the native surface),
    [src/clients/ollama-client.ts] (the client of the two runtimes),
    [src/middleware/error-handler.ts], [src/embeddings.ts] and the [.env]
    reader of [src/config.ts].

    Conventions of the model.

    - JavaScript strings are sequences of UTF-16 code units, modelled as
      [list N]; [js "..."] is the string of an ASCII literal.
    - Values produced by [JSON.parse] are modelled by the inductive type
      [json]; a number is kept as the exact decimal of its literal, from
      which the tests that the code makes on the resulting Number (is it
      zero, is it below or above a bound) are decided exactly.
    - Request bodies of the chat surface follow the declared interfaces of
      [src/types.ts], with optional fields as [option]; the fields whose
      absence or wrong shape the validators test keep that possibility.
    - Where the code converts a parsed value to a string (concatenation,
      template literal), the conversions that throw are modelled: those of
      an object with a property [toString] of its own.
    - The network is an input: the outcome of every backend call, the reads
      of a streamed body and the moment at which the consumer of a response
      stream cancels are parameters of the handlers.
    - The identifiers and times drawn by a request are parameters as well.
      Logging ([src/logger.ts]) and response headers are not modelled. *)

From Stdlib Require Import ZArith NArith List Bool String Ascii Lia.
From Stdlib Require Import DecimalString.
From stdpp Require Import base list gmap.

Set Warnings "-register-all".

Import ListNotations.
Open Scope N_scope.

(** ** JavaScript strings *)

Abbreviation jsstr := (list N).

Definition js (s : string) : jsstr := List.map N_of_ascii (list_ascii_of_string s).

(** [s || d] on strings: the empty string is falsy. *)
Definition str_or (s d : jsstr) : jsstr :=
  match s with [] => d | _ => s end.

(** Decimal rendering of a non-negative integer, as template literals and
    string concatenation render an integral Number. *)
Definition N_to_jsstr (n : N) : jsstr := js (NilZero.string_of_uint (N.to_uint n)).

(** [String.prototype.trim]: WhiteSpace and LineTerminator code units. *)
Definition is_js_space (c : N) : bool :=
  ((9 <=? c) && (c <=? 13)) || (c =? 32) || (c =? 160) || (c =? 5760)
  || ((8192 <=? c) && (c <=? 8202)) || (c =? 8232) || (c =? 8233)
  || (c =? 8239) || (c =? 8287) || (c =? 12288) || (c =? 65279).

Fixpoint trimStart (s : jsstr) : jsstr :=
  match s with
  | c :: r => if is_js_space c then trimStart r else s
  | [] => []
  end.

Definition trim (s : jsstr) : jsstr := rev (trimStart (rev (trimStart s))).

(** [s.split('\n')] as the pair of the complete lines and the last segment
    (the array returned by [split] is never empty; [lines.pop()] removes its
    last element). *)
Fixpoint split_lines (s : jsstr) : list jsstr * jsstr :=
  match s with
  | [] => ([], [])
  | c :: r =>
    let '(ls, last) := split_lines r in
    if c =? 10 then
      ([] :: ls, last)
    else
      match ls with
      | [] => ([], c :: last)
      | l :: ls' => ((c :: l) :: ls', last)
      end
  end.

(** [Array.prototype.join(sep)] on an array of strings. *)
Fixpoint join (sep : jsstr) (l : list jsstr) : jsstr :=
  match l with
  | [] => []
  | [x] => x
  | x :: r => x ++ sep ++ join sep r
  end.

(** [a.includes(s)] on an array of strings. *)
Definition includes (l : list jsstr) (s : jsstr) : bool :=
  bool_decide (s ∈ l).

(** [haystack] contains [needle] as a contiguous substring. *)
Definition contains (needle haystack : jsstr) : Prop :=
  exists pre post, haystack = pre ++ needle ++ post.

(** ** JSON values, [JSON.parse] and [JSON.stringify] on strings *)

Module JSON.

(** A JSON number literal, kept exactly:
    the value is [(-1)^neg * mant * 10^exp10]. *)
Record number := { neg : bool; mant : N; exp10 : Z }.

Inductive json :=
| JNull
| JBool (b : bool)
| JNum (n : number)
| JStr (s : jsstr)
| JArr (l : list json)
| JObj (m : list (jsstr * json)).

(** A decimal converts to the Number zero exactly when it is at most
    2^-1075 in magnitude (round to nearest, ties to even, below the least
    subnormal 2^-1074). *)
Definition num_is_zero (n : number) : bool :=
  (mant n =? 0) ||
  ((exp10 n <? 0)%Z && (mant n * 2 ^ 1075 <=? 10 ^ Z.to_N (- exp10 n))).

(** ToBoolean on a parsed value. *)
Definition truthy (v : json) : bool :=
  match v with
  | JNull => false
  | JBool b => b
  | JNum n => negb (num_is_zero n)
  | JStr s => match s with [] => false | _ => true end
  | JArr _ | JObj _ => true
  end.

(** Own property lookup in an object literal: when a key is repeated the
    last member wins. *)
Fixpoint lookup_member (k : jsstr) (m : list (jsstr * json)) : option json :=
  match m with
  | [] => None
  | (k', v) :: r =>
    match lookup_member k r with
    | Some w => Some w
    | None => if bool_decide (k = k') then Some v else None
    end
  end.

(** [v.k] for a key that is not a property of the String, Number, Boolean or
    Array prototypes.  [None] is [undefined]; reading a property of [null]
    throws and is handled by the callers. *)
Definition get (k : jsstr) (v : json) : option json :=
  match v with
  | JObj m => lookup_member k m
  | _ => None
  end.

(** ToBoolean on a possibly undefined value. *)
Definition truthy_opt (o : option json) : bool :=
  match o with Some v => truthy v | None => false end.

(** The conversion of a value to a primitive, as string concatenation and
    template literals perform it, completes.  An object made by [JSON.parse]
    inherits [valueOf] and [toString] from [Object.prototype]; an own
    property [toString], which is never a function, hides the inherited
    method, and then neither method yields a primitive and the conversion
    throws a [TypeError].  An array is joined, and each of its elements other
    than [null] is converted in the same way. *)
Fixpoint concatenable (v : json) : bool :=
  match v with
  | JObj m => negb (bool_decide (is_Some (lookup_member (js "toString") m)))
  | JArr l => forallb concatenable l
  | _ => true
  end.

(** *** Lexical helpers *)

Definition is_json_ws (c : N) : bool :=
  (c =? 32) || (c =? 9) || (c =? 10) || (c =? 13).

Fixpoint skip_ws (s : jsstr) : jsstr :=
  match s with
  | c :: r => if is_json_ws c then skip_ws r else s
  | [] => []
  end.

Definition is_digit (c : N) : bool := (48 <=? c) && (c <=? 57).

Definition hex_val (c : N) : option N :=
  if (48 <=? c) && (c <=? 57) then Some (c - 48)
  else if (97 <=? c) && (c <=? 102) then Some (c - 87)
  else if (65 <=? c) && (c <=? 70) then Some (c - 55)
  else None.

Definition hex4 (a b c d : N) : option N :=
  match hex_val a, hex_val b, hex_val c, hex_val d with
  | Some x, Some y, Some z, Some w => Some (((x * 16 + y) * 16 + z) * 16 + w)
  | _, _, _, _ => None
  end.

Definition unescape (e : N) : option N :=
  if e =? 34 then Some 34          (* quotation mark *)
  else if e =? 92 then Some 92     (* reverse solidus *)
  else if e =? 47 then Some 47     (* solidus *)
  else if e =? 98 then Some 8      (* b: backspace *)
  else if e =? 102 then Some 12    (* f: form feed *)
  else if e =? 110 then Some 10    (* n: line feed *)
  else if e =? 114 then Some 13    (* r: carriage return *)
  else if e =? 116 then Some 9     (* t: tab *)
  else None.

(** The characters of a string literal after its opening quote, up to and
    including the closing quote. *)
Fixpoint parse_chars (s : jsstr) : option (jsstr * jsstr) :=
  match s with
  | [] => None
  | c :: r =>
    if c =? 34 then Some ([], r)
    else if c =? 92 then
      match r with
      | [] => None
      | e :: r' =>
        if e =? 117 then
          match r' with
          | h1 :: h2 :: h3 :: h4 :: r'' =>
            match hex4 h1 h2 h3 h4 with
            | Some u =>
              match parse_chars r'' with
              | Some (t, rest) => Some (u :: t, rest)
              | None => None
              end
            | None => None
            end
          | _ => None
          end
        else
          match unescape e with
          | Some x =>
            match parse_chars r' with
            | Some (t, rest) => Some (x :: t, rest)
            | None => None
            end
          | None => None
          end
      end
    else if c <? 32 then None
    else
      match parse_chars r with
      | Some (t, rest) => Some (c :: t, rest)
      | None => None
      end
  end.

(** A maximal run of decimal digits: its value continued from [acc], its
    length, and the rest of the input. *)
Fixpoint digits (acc : N) (s : jsstr) : N * nat * jsstr :=
  match s with
  | c :: r =>
    if is_digit c then
      let '(v, n, rest) := digits (acc * 10 + (c - 48)) r in (v, S n, rest)
    else (acc, O, s)
  | [] => (acc, O, [])
  end.

(** int: [0] or a non-zero digit followed by digits. *)
Definition parse_int (s : jsstr) : option (N * jsstr) :=
  match s with
  | c :: r =>
    if c =? 48 then Some (0, r)
    else if is_digit c then
      let '(v, _, rest) := digits (c - 48) r in Some (v, rest)
    else None
  | [] => None
  end.

(** frac: optional [.] followed by at least one digit. *)
Definition parse_frac (m : N) (s : jsstr) : option (N * nat * jsstr) :=
  match s with
  | c :: r =>
    if c =? 46 then
      match digits m r with
      | (_, O, _) => None
      | (v, n, rest) => Some (v, n, rest)
      end
    else Some (m, O, s)
  | [] => Some (m, O, s)
  end.

(** exp: optional [e] or [E], optional sign, at least one digit. *)
Definition parse_exp (s : jsstr) : option (Z * jsstr) :=
  match s with
  | c :: r =>
    if (c =? 101) || (c =? 69) then
      let '(sgn, r1) :=
        match r with
        | d :: r' =>
          if d =? 45 then (true, r')
          else if d =? 43 then (false, r')
          else (false, r)
        | [] => (false, r)
        end in
      match digits 0 r1 with
      | (_, O, _) => None
      | (v, _, rest) => Some (if sgn then (- Z.of_N v)%Z else Z.of_N v, rest)
      end
    else Some (0%Z, s)
  | [] => Some (0%Z, s)
  end.

Definition parse_number (s : jsstr) : option (number * jsstr) :=
  let '(sg, s1) :=
    match s with
    | c :: r => if c =? 45 then (true, r) else (false, s)
    | [] => (false, s)
    end in
  match parse_int s1 with
  | Some (i, s2) =>
    match parse_frac i s2 with
    | Some (m, k, s3) =>
      match parse_exp s3 with
      | Some (e, s4) =>
        Some ({| neg := sg; mant := m; exp10 := (e - Z.of_nat k)%Z |}, s4)
      | None => None
      end
    | None => None
    end
  | None => None
  end.

(** [strip_prefix p s] is the rest of [s] after the literal [p]. *)
Fixpoint strip_prefix (p s : jsstr) : option jsstr :=
  match p, s with
  | [], _ => Some s
  | a :: p', b :: s' => if a =? b then strip_prefix p' s' else None
  | _ :: _, [] => None
  end.

(** *** Recursive descent *)

Section Descent.
(** The parser of nested values, one level of fuel below. *)
Variable parse_value : jsstr -> option (json * jsstr).

(** Elements after the opening bracket of a non-empty array. *)
Fixpoint parse_elements (n : nat) (s : jsstr) : option (list json * jsstr) :=
  match n with
  | O => None
  | S n' =>
    match parse_value s with
    | Some (v, r) =>
      match skip_ws r with
      | c :: r' =>
        if c =? 93 then Some ([v], r')
        else if c =? 44 then
          match parse_elements n' r' with
          | Some (vs, rest) => Some (v :: vs, rest)
          | None => None
          end
        else None
      | [] => None
      end
    | None => None
    end
  end.

(** Members after the opening brace of a non-empty object. *)
Fixpoint parse_members (n : nat) (s : jsstr) : option (list (jsstr * json) * jsstr) :=
  match n with
  | O => None
  | S n' =>
    match skip_ws s with
    | q :: r0 =>
      if q =? 34 then
        match parse_chars r0 with
        | Some (k, r1) =>
          match skip_ws r1 with
          | c :: r2 =>
            if c =? 58 then
              match parse_value r2 with
              | Some (v, r3) =>
                match skip_ws r3 with
                | d :: r4 =>
                  if d =? 125 then Some ([(k, v)], r4)
                  else if d =? 44 then
                    match parse_members n' r4 with
                    | Some (ms, rest) => Some ((k, v) :: ms, rest)
                    | None => None
                    end
                  else None
                | [] => None
                end
              | None => None
              end
            else None
          | [] => None
          end
        | None => None
        end
      else None
    | [] => None
    end
  end.
End Descent.

Fixpoint parse_value (fuel : nat) (s : jsstr) : option (json * jsstr) :=
  match fuel with
  | O => None
  | S fuel' =>
    match skip_ws s with
    | [] => None
    | c :: r =>
      if c =? 123 then                      (* { *)
        match skip_ws r with
        | d :: r' =>
          if d =? 125 then Some (JObj [], r')
          else
            match parse_members (parse_value fuel') fuel' r with
            | Some (ms, rest) => Some (JObj ms, rest)
            | None => None
            end
        | [] => None
        end
      else if c =? 91 then                  (* [ *)
        match skip_ws r with
        | d :: r' =>
          if d =? 93 then Some (JArr [], r')
          else
            match parse_elements (parse_value fuel') fuel' r with
            | Some (vs, rest) => Some (JArr vs, rest)
            | None => None
            end
        | [] => None
        end
      else if c =? 34 then                  (* string *)
        match parse_chars r with
        | Some (t, rest) => Some (JStr t, rest)
        | None => None
        end
      else if c =? 116 then                 (* true *)
        match strip_prefix (js "rue") r with
        | Some rest => Some (JBool true, rest)
        | None => None
        end
      else if c =? 102 then                 (* false *)
        match strip_prefix (js "alse") r with
        | Some rest => Some (JBool false, rest)
        | None => None
        end
      else if c =? 110 then                 (* null *)
        match strip_prefix (js "ull") r with
        | Some rest => Some (JNull, rest)
        | None => None
        end
      else
        match parse_number (c :: r) with
        | Some (n, rest) => Some (JNum n, rest)
        | None => None
        end
    end
  end.

(** [JSON.parse(text)]: [None] stands for the SyntaxError.  Every nested
    value and every array element or object member consumes at least one
    code unit, so the length of the text bounds the recursion. *)
Definition parse (s : jsstr) : option json :=
  match parse_value (S (length s)) s with
  | Some (v, r) =>
    match skip_ws r with
    | [] => Some v
    | _ :: _ => None
    end
  | None => None
  end.

(** *** [JSON.stringify] of a string (QuoteJSONString) *)

Definition hex_digit (d : N) : N := if d <? 10 then 48 + d else 87 + d.

Definition unicode_escape (c : N) : jsstr :=
  [92; 117; hex_digit (c / 4096 mod 16); hex_digit (c / 256 mod 16);
   hex_digit (c / 16 mod 16); hex_digit (c mod 16)].

Definition is_high_surrogate (c : N) : bool := (55296 <=? c) && (c <=? 56319).
Definition is_low_surrogate (c : N) : bool := (56320 <=? c) && (c <=? 57343).

Definition quote_unit (c : N) : jsstr :=
  if c =? 8 then [92; 98]
  else if c =? 9 then [92; 116]
  else if c =? 10 then [92; 110]
  else if c =? 12 then [92; 102]
  else if c =? 13 then [92; 114]
  else if c =? 34 then [92; 34]
  else if c =? 92 then [92; 92]
  else if c <? 32 then unicode_escape c
  else [c].

Fixpoint quote_chars (s : jsstr) : jsstr :=
  match s with
  | [] => []
  | c :: r =>
    if is_high_surrogate c then
      match r with
      | d :: r' =>
        if is_low_surrogate d then c :: d :: quote_chars r'
        else unicode_escape c ++ quote_chars r
      | [] => unicode_escape c
      end
    else if is_low_surrogate c then unicode_escape c ++ quote_chars r
    else quote_unit c ++ quote_chars r
  end.

Definition stringify_string (s : jsstr) : jsstr := 34 :: quote_chars s ++ [34].

End JSON.

Import JSON.

(** ** [src/utils.ts]: flattening of message content *)

(** One element of a multi-part content array:
    [{ type: string; text?: string; image_url?: unknown }]. *)
Record ContentPart := {
  part_type : jsstr;
  part_text : option jsstr;
  part_image_url : option json
}.

(** [string | Array<part | undefined> | null | undefined] *)
Inductive MessageContent :=
| ContentString (s : jsstr)
| ContentParts (parts : list (option ContentPart))
| ContentNull
| ContentUndefined.

(** [!!p.text] *)
Definition has_text (p : ContentPart) : bool :=
  match part_text p with
  | Some (_ :: _) => true
  | _ => false
  end.

Definition is_text_part (p : ContentPart) : bool :=
  bool_decide (part_type p = js "text") && has_text p.

(** [p.text as string] *)
Definition text_of (p : ContentPart) : jsstr := default [] (part_text p).

Definition convertContentToString (content : MessageContent) : jsstr :=
  match content with
  | ContentString s => s
  | ContentParts l =>
    let parts := omap id l in                       (* content.filter(Boolean) *)
    join (js " ") (List.map text_of (List.filter is_text_part parts))
  | ContentNull | ContentUndefined => []
  end.

Record OpenAIMessage := {
  role : option jsstr;
  content : MessageContent;
  tool_call_id : option jsstr
}.

Record OllamaChatMessage := {
  ollama_role : option jsstr;
  ollama_content : jsstr
}.

Definition convertToOllamaMessages (messages : list OpenAIMessage) : list OllamaChatMessage :=
  List.map (fun msg => {| ollama_role := role msg;
                          ollama_content := convertContentToString (content msg) |})
           messages.

(** ** [src/config.ts] *)

(** Models available only on the remote runtime. *)
Definition REMOTE_MODELS : list jsstr := [js "gpt-oss:120b"; js "gpt-oss:20b"].

(** ** [src/services/model-service.ts] *)

Module ModelService.

Record OllamaModel := {
  name : jsstr;
  modified_at : option jsstr;
  size : option N;
  digest : option jsstr
}.

(** Outcome of [getLocalTags] / [getRemoteTags]: the call throws (network
    failure, non-2xx status, missing credential) or yields a tags response
    whose [models] field may be missing. *)
Inductive TagsResult :=
| TagsFailed
| TagsOk (models : option (list OllamaModel)).

Definition isRemoteModel (modelName : jsstr) : bool := includes REMOTE_MODELS modelName.

(** [response.models || []], and [[]] when the call throws. *)
Definition getLocalModels (localTags : TagsResult) : list OllamaModel :=
  match localTags with
  | TagsOk (Some ms) => ms
  | TagsOk None | TagsFailed => []
  end.

Definition getRemoteModels (remoteTags : TagsResult) : list OllamaModel :=
  match remoteTags with
  | TagsOk (Some allRemoteModels) =>
    List.filter (fun model => includes REMOTE_MODELS (name model)) allRemoteModels
  | TagsOk None | TagsFailed => []
  end.

(** One iteration of the [for] loop of [deduplicateModels] on the pair of the
    [seen] set and the [uniqueModels] array. *)
Definition dedup_step (acc : gset jsstr * list OllamaModel) (model : OllamaModel)
  : gset jsstr * list OllamaModel :=
  let '(seen, uniqueModels) := acc in
  if bool_decide (name model ∈ seen) then (seen, uniqueModels)
  else ({[ name model ]} ∪ seen, uniqueModels ++ [model]).

Definition deduplicateModels (models : list OllamaModel) : list OllamaModel :=
  let localModels := List.filter (fun model => negb (isRemoteModel (name model))) models in
  let remoteModels := List.filter (fun model => isRemoteModel (name model)) models in
  snd (fold_left dedup_step (localModels ++ remoteModels) (∅, [])).

Definition getUnifiedModels (localTags remoteTags : TagsResult) : list OllamaModel :=
  let models := getLocalModels localTags ++ getRemoteModels remoteTags in
  deduplicateModels models.

(** The part of [getOpenAIModels] that the dispatcher reads: the [id] and
    [owned_by] of every listed model. *)
Record ModelData := { id : jsstr; owned_by : jsstr }.

Definition getOpenAIModels (localTags remoteTags : TagsResult) : list ModelData :=
  List.map (fun model =>
              {| id := name model;
                 owned_by := if isRemoteModel (name model)
                             then js "ollama-turbo" else js "local" |})
           (getUnifiedModels localTags remoteTags).

(** The listing of the specification: local-first concatenation with the
    remote list filtered to the allowlist, keeping the first entry of every
    name. *)
Fixpoint dedup_by_name (ms : list OllamaModel) : list OllamaModel :=
  match ms with
  | [] => []
  | m :: r =>
    m :: List.filter (fun m' => negb (bool_decide (name m' = name m))) (dedup_by_name r)
  end.

Definition spec_listUnified (localModels remoteModels : list OllamaModel) : list OllamaModel :=
  dedup_by_name
    (localModels ++ List.filter (fun m => includes REMOTE_MODELS (name m)) remoteModels).

(** First entry with a given name. *)
Definition find_by_name (n : jsstr) (ms : list OllamaModel) : option OllamaModel :=
  List.find (fun m => bool_decide (name m = n)) ms.

(** [models.some(model => model.name === modelName)] on the unified list. *)
Definition isModelAvailable (localTags remoteTags : TagsResult) (modelName : jsstr) : bool :=
  existsb (fun model => bool_decide (name model = modelName))
          (getUnifiedModels localTags remoteTags).

End ModelService.

(** ** [src/errors.ts], [src/types.ts]: responses *)

Record OpenAIError := {
  err_message : jsstr;
  err_type : jsstr;
  err_param : option jsstr;
  err_code : option jsstr
}.

Record ChatMessage := { msg_role : jsstr; msg_content : jsstr }.

Record OpenAIChoice := {
  choice_index : N;
  choice_message : ChatMessage;
  choice_finish_reason : option jsstr
}.

Record Usage := { prompt_tokens : N; completion_tokens : N; total_tokens : N }.

Record OpenAIChatResponse := {
  resp_id : jsstr;
  resp_object : jsstr;
  resp_created : N;
  resp_model : jsstr;
  resp_system_fingerprint : jsstr;
  resp_choices : list OpenAIChoice;
  resp_usage : Usage
}.

(** [delta: { role?, content? }]; the content of a translated frame is the
    value found in the upstream frame. *)
Record Delta := { delta_role : option jsstr; delta_content : option json }.

Record OpenAIStreamChoice := {
  sc_index : N;
  sc_delta : Delta;
  sc_finish_reason : option jsstr
}.

Record OpenAIStreamChunk := {
  chunk_id : jsstr;
  chunk_object : jsstr;
  chunk_created : N;
  chunk_model : jsstr;
  chunk_system_fingerprint : jsstr;
  chunk_choices : list OpenAIStreamChoice
}.

(** What the pipeline hands to [controller.enqueue]: [DataChunk d] is the
    text [data: ${JSON.stringify(d)}\n\n] and [DoneSentinel] is the text
    [data: [DONE]\n\n]. *)
Inductive SSE :=
| DataChunk (data : OpenAIStreamChunk)
| DoneSentinel.

(** The text enqueued for an event, given [JSON.stringify] on chunks. *)
Definition wire (stringify : OpenAIStreamChunk -> jsstr) (e : SSE) : jsstr :=
  match e with
  | DataChunk data => js "data: " ++ stringify data ++ [10; 10]
  | DoneSentinel => js "data: [DONE]" ++ [10; 10]
  end.

(** The body of an event stream as the client receives it. *)
Definition body_text (stringify : OpenAIStreamChunk -> jsstr) (events : list SSE) : jsstr :=
  concat (List.map (wire stringify) events).

(** The responses of the gateway.  [EventStream q ended] is the
    [text/event-stream] response whose body received the events [q], oldest
    first; [ended] records that [controller.close()] was called. *)
Inductive Response :=
| ErrorResponse (status : N) (error : OpenAIError)
| ChatCompletion (body : OpenAIChatResponse)
| EventStream (events : list SSE) (ended : bool).

(** [...(param && { param })]: a missing or empty [param] is left out. *)
Definition truthy_str (o : option jsstr) : option jsstr :=
  match o with
  | Some (c :: r) => Some (c :: r)
  | _ => None
  end.

Definition createErrorResponse (message type : jsstr) (status : N)
           (param code : option jsstr) : Response :=
  ErrorResponse status
    {| err_message := message; err_type := type;
       err_param := truthy_str param; err_code := truthy_str code |}.

(** ** [src/auth.ts] *)

Definition startsWith (p s : jsstr) : bool :=
  match strip_prefix p s with Some _ => true | None => false end.

Definition auth_error : Response :=
  createErrorResponse
    (js "Incorrect API key provided. You can find your API key at https://platform.openai.com/account/api-keys.")
    (js "invalid_request_error") 401 None None.

(** [None] when the request is accepted ([{ valid: true }]). *)
Definition validateAuth (authHeader : option jsstr) : option Response :=
  match authHeader with
  | None | Some [] => None
  | Some h =>
    if negb (startsWith (js "Bearer ") h) then Some auth_error
    else
      let token := drop 7 h in
      if (length token =? 0)%nat then Some auth_error else None
  end.

(** ** [src/validation.ts] *)

(** [body.messages]: missing ([undefined] or [null]), present but not an
    array, or an array. *)
Inductive MessagesField :=
| MessagesMissing
| MessagesNotArray
| MessagesArray (l : list OpenAIMessage).

Inductive StopField :=
| StopString (s : jsstr)
| StopArray (l : list jsstr).

Record ResponseFormat := { format_type : jsstr }.

Record OpenAIChatRequest := {
  req_model : option jsstr;
  req_messages : MessagesField;
  req_temperature : option number;
  req_max_tokens : option number;
  req_top_p : option number;
  req_frequency_penalty : option number;
  req_presence_penalty : option number;
  req_stream : option bool;
  req_stop : option StopField;
  req_n : option number;
  req_tools : option (list json);
  req_response_format : option ResponseFormat
}.

Definition validateModel (model : jsstr) (availableModels : list jsstr) : bool :=
  includes availableModels model.

Definition invalid_request (message : jsstr) (param : jsstr) : Response :=
  createErrorResponse message (js "invalid_request_error") 400 (Some param) None.

(** [`messages[${i}]` + suffix] *)
Definition messages_path (i : N) (suffix : jsstr) : jsstr :=
  js "messages[" ++ N_to_jsstr i ++ js "]" ++ suffix.

(** [if (message.content)]: every array is truthy. *)
Definition content_truthy (c : MessageContent) : bool :=
  match c with
  | ContentString (_ :: _) => true
  | ContentParts _ => true
  | _ => false
  end.

(** The body of the [for] loop of [validateRequest] at index [i]. *)
Definition validateMessage (i : N) (message : OpenAIMessage) : option Response :=
  match truthy_str (role message) with
  | None =>
    Some (invalid_request (js "Missing required parameter: " ++ messages_path i (js ".role"))
                          (messages_path i (js ".role")))
  | Some r =>
    if negb (includes [js "system"; js "user"; js "assistant"; js "tool"] r) then
      Some (invalid_request (js "Invalid value for " ++ messages_path i (js ".role") ++ js ": " ++ r)
                            (messages_path i (js ".role")))
    else if bool_decide (r = js "tool") && negb (bool_decide (is_Some (truthy_str (tool_call_id message)))) then
      Some (invalid_request (js "Missing required parameter: " ++ messages_path i (js ".tool_call_id"))
                            (messages_path i (js ".tool_call_id")))
    else if content_truthy (content message)
            && (200000 <? N.of_nat (length (convertContentToString (content message)))) then
      Some (invalid_request (js "Message content too large (max 200000 characters)")
                            (messages_path i (js ".content")))
    else None
  end.

Fixpoint validateMessages (i : N) (messages : list OpenAIMessage) : option Response :=
  match messages with
  | [] => None
  | message :: rest =>
    match validateMessage i message with
    | Some e => Some e
    | None => validateMessages (i + 1) rest
    end
  end.

(** [None] is the [null] returned for an acceptable body. *)
Definition validateRequest (body : OpenAIChatRequest) : option Response :=
  match truthy_str (req_model body) with
  | None => Some (invalid_request (js "Missing required parameter: model") (js "model"))
  | Some _ =>
    match req_messages body with
    | MessagesMissing | MessagesNotArray | MessagesArray [] =>
      Some (invalid_request (js "Missing required parameter: messages") (js "messages"))
    | MessagesArray messages => validateMessages 0 messages
    end
  end.

(** Comparison of the Number denoted by a decimal with a bound, through the
    exact rational [a / b] ([b > 0]) that separates the decimals rounding
    below the bound from those rounding to it or above (binary64, round to
    nearest, ties to even). *)
Definition signed_num (x : number) : Z :=
  ((if neg x then - Z.of_N (mant x) else Z.of_N (mant x)) * 10 ^ Z.max (exp10 x) 0)%Z.

Definition num_den (x : number) : Z := (10 ^ Z.max (- exp10 x) 0)%Z.

Definition below (x : number) (a b : Z) : bool := (signed_num x * b <? a * num_den x)%Z.
Definition above (x : number) (a b : Z) : bool := (a * num_den x <? signed_num x * b)%Z.

(** [x < 0]: below minus half the least subnormal. *)
Definition num_lt_0 (x : number) : bool := below x (-1) (2 ^ 1075).
(** [x > 1]: above the midpoint of 1 and its successor. *)
Definition num_gt_1 (x : number) : bool := above x (2 ^ 53 + 1) (2 ^ 53).
(** [x > 2]: above the midpoint of 2 and its successor. *)
Definition num_gt_2 (x : number) : bool := above x (2 ^ 53 + 1) (2 ^ 52).
(** [x < 1]: below the midpoint of 1 and its predecessor. *)
Definition num_lt_1 (x : number) : bool := below x (2 ^ 54 - 1) (2 ^ 54).

(** [if (cond) return error;] followed by the rest of the function. *)
Definition reject_if (cond : bool) (error : Response) (rest : option Response)
  : option Response :=
  if cond then Some error else rest.

(** [field !== undefined && test(field)] *)
Definition defined_and {A} (field : option A) (test : A -> bool) : bool :=
  match field with Some x => test x | None => false end.

Definition validateParameters (body : OpenAIChatRequest) : option Response :=
  reject_if (defined_and (req_temperature body) (fun t => num_lt_0 t || num_gt_2 t))
    (invalid_request (js "Temperature must be between 0 and 2") (js "temperature"))
  (reject_if (defined_and (req_top_p body) (fun p => num_lt_0 p || num_gt_1 p))
    (invalid_request (js "Top_p must be between 0 and 1") (js "top_p"))
  (reject_if (defined_and (req_max_tokens body) num_lt_1)
    (invalid_request (js "Max_tokens must be greater than 0") (js "max_tokens"))
  (reject_if (defined_and (req_n body) (fun k => num_lt_1 k || num_gt_1 k))
    (invalid_request (js "Only n=1 is supported") (js "n"))
  None))).

(** ** [src/chat.ts] *)

Module Chat.

(** Values drawn by a request from the clock and the random generator:
    [generateId()] and [Math.floor(Date.now() / 1000)]. *)
Record Fresh := { completionId : jsstr; timestamp : N }.

Record OllamaOptions := {
  opt_temperature : option number;
  opt_num_predict : option number;
  opt_top_p : option number;
  opt_frequency_penalty : option number;
  opt_presence_penalty : option number;
  opt_stop : option (list jsstr)
}.

Record OllamaChatRequest := {
  oreq_model : jsstr;
  oreq_messages : list OllamaChatMessage;
  oreq_stream : bool;
  oreq_options : option OllamaOptions;
  oreq_format : option jsstr
}.

(** *** Non-streaming handler *)

(** The body of a completed backend call as [handleNonStreamingChat] reads
    it: [message?.content], [prompt_eval_count], [eval_count]. *)
Record OllamaMessage := { om_content : option jsstr }.

Record OllamaChatResponse := {
  or_message : option OllamaMessage;
  or_prompt_eval_count : option N;
  or_eval_count : option N
}.

(** What [ollamaClient.chatCompletion] followed by [response.json()] can do:
    the call rejects; the status is not 2xx (and reading the error text may
    itself reject); the body cannot be read as an object (invalid JSON, or
    [null], whose property read throws); or a response object is obtained.
    The strings are the [message] of the thrown error. *)
Inductive ChatResult :=
| CallFailed (message : jsstr)
| HttpError (status : N) (statusText : jsstr) (textFailure : option jsstr)
| BodyUnreadable (message : jsstr)
| Completed (ollamaResponse : OllamaChatResponse).

Definition internal_error (message : jsstr) : Response :=
  createErrorResponse (str_or message (js "Internal server error"))
                      (js "internal_server_error") 500 None None.

Definition placeholder : jsstr := js "Response received from model.".

(** [JSON.stringify({ response: content })] *)
Definition stringify_response (content : jsstr) : jsstr :=
  js "{" ++ stringify_string (js "response") ++ js ":" ++ stringify_string content ++ js "}".

Definition is_json_object (f : option ResponseFormat) : bool :=
  match f with
  | Some rf => bool_decide (format_type rf = js "json_object")
  | None => false
  end.

(** [ollamaResponse.message?.content || ''] *)
Definition backendContent (ollamaResponse : OllamaChatResponse) : jsstr :=
  match or_message ollamaResponse with
  | Some m => default [] (om_content m)
  | None => []
  end.

(** The three assignments to [content] of [handleNonStreamingChat]. *)
Definition normalizeContent (originalRequest : OpenAIChatRequest)
           (ollamaResponse : OllamaChatResponse) : jsstr :=
  let content := backendContent ollamaResponse in
  let content :=
    if is_json_object (req_response_format originalRequest) then
      match JSON.parse content with
      | Some _ => content
      | None => stringify_response content
      end
    else content in
  (* if (!content && !originalRequest.tools) *)
  match content, req_tools originalRequest with
  | [], None => placeholder
  | _, _ => content
  end.

Definition handleNonStreamingChat (fresh : Fresh) (result : ChatResult)
           (model : jsstr) (originalRequest : OpenAIChatRequest) : Response :=
  match result with
  | CallFailed message => internal_error message
  | HttpError status statusText (Some message) => internal_error message
  | HttpError status statusText None =>
    internal_error (js "Ollama request failed: " ++ N_to_jsstr status ++ js " " ++ statusText)
  | BodyUnreadable message => internal_error message
  | Completed ollamaResponse =>
    let content := normalizeContent originalRequest ollamaResponse in
    let prompt := default 0 (or_prompt_eval_count ollamaResponse) in
    let completion := default 0 (or_eval_count ollamaResponse) in
    ChatCompletion
      {| resp_id := completionId fresh;
         resp_object := js "chat.completion";
         resp_created := timestamp fresh;
         resp_model := model;
         resp_system_fingerprint := js "fp_ollama_proxy";
         resp_choices :=
           [ {| choice_index := 0;
                choice_message := {| msg_role := js "assistant"; msg_content := content |};
                choice_finish_reason := Some (js "stop") |} ];
         resp_usage := {| prompt_tokens := prompt; completion_tokens := completion;
                          total_tokens := prompt + completion |} |}
  end.

(** *** Streaming handler *)

Inductive ReadEnd :=
| EndOfStream                      (* read() resolves with done *)
| ReadError (message : jsstr).     (* read() rejects *)

(** What the upstream call of [handleStreamingChat] can do: the call
    rejects; the status is not 2xx; the response has no body; or the body
    delivers decoded text chunks and then ends or fails. *)
Inductive StreamResult :=
| StreamCallFailed (message : jsstr)
| StreamHttpError (status : N) (textFailure : option jsstr)
| StreamNoBody
| StreamBody (chunks : list jsstr) (ending : ReadEnd).

(** The consumer may cancel the response stream while the pipeline is
    suspended: [cancelAt = Some k] cancels during the [k]-th [await]
    (counted from 0); afterwards [controller.enqueue] throws. *)
Record Consumer := { cancelAt : option nat }.

(** The variables closed over by [start(controller)]. *)
Record Pipeline := {
  queue : list SSE;              (* accepted by controller.enqueue, oldest first *)
  ended : bool;                  (* controller.close() was called *)
  cancelled : bool;              (* the consumer cancelled the stream *)
  awaits : nat;                  (* suspension points passed so far *)
  controllerClosed : bool;
  buffer : jsstr;
  hasFinished : bool;
  hasContentBeenSent : bool
}.

Definition initial : Pipeline :=
  {| queue := []; ended := false; cancelled := false; awaits := 0;
     controllerClosed := false; buffer := [];
     hasFinished := false; hasContentBeenSent := false |}.

Definition set_queue (q : list SSE) (p : Pipeline) : Pipeline :=
  {| queue := q; ended := ended p; cancelled := cancelled p; awaits := awaits p;
     controllerClosed := controllerClosed p; buffer := buffer p;
     hasFinished := hasFinished p; hasContentBeenSent := hasContentBeenSent p |}.

Definition set_ended (p : Pipeline) : Pipeline :=
  {| queue := queue p; ended := true; cancelled := cancelled p; awaits := awaits p;
     controllerClosed := controllerClosed p; buffer := buffer p;
     hasFinished := hasFinished p; hasContentBeenSent := hasContentBeenSent p |}.

Definition set_controllerClosed (p : Pipeline) : Pipeline :=
  {| queue := queue p; ended := ended p; cancelled := cancelled p; awaits := awaits p;
     controllerClosed := true; buffer := buffer p;
     hasFinished := hasFinished p; hasContentBeenSent := hasContentBeenSent p |}.

Definition set_buffer (b : jsstr) (p : Pipeline) : Pipeline :=
  {| queue := queue p; ended := ended p; cancelled := cancelled p; awaits := awaits p;
     controllerClosed := controllerClosed p; buffer := b;
     hasFinished := hasFinished p; hasContentBeenSent := hasContentBeenSent p |}.

Definition set_hasFinished (p : Pipeline) : Pipeline :=
  {| queue := queue p; ended := ended p; cancelled := cancelled p; awaits := awaits p;
     controllerClosed := controllerClosed p; buffer := buffer p;
     hasFinished := true; hasContentBeenSent := hasContentBeenSent p |}.

Definition set_hasContentBeenSent (p : Pipeline) : Pipeline :=
  {| queue := queue p; ended := ended p; cancelled := cancelled p; awaits := awaits p;
     controllerClosed := controllerClosed p; buffer := buffer p;
     hasFinished := hasFinished p; hasContentBeenSent := true |}.

Section Streaming.
Variable fresh : Fresh.
Variable model : jsstr.
Variable consumer : Consumer.

(** An [await]: the consumer may cancel while the pipeline is suspended. *)
Definition await (p : Pipeline) : Pipeline :=
  {| queue := queue p; ended := ended p;
     cancelled := cancelled p || bool_decide (cancelAt consumer = Some (awaits p));
     awaits := S (awaits p);
     controllerClosed := controllerClosed p; buffer := buffer p;
     hasFinished := hasFinished p; hasContentBeenSent := hasContentBeenSent p |}.

(** [controller.enqueue] throws once the stream was cancelled or closed. *)
Definition accepting (p : Pipeline) : bool := negb (cancelled p) && negb (ended p).

Definition mkChunk (delta : Delta) (finish_reason : option jsstr) : OpenAIStreamChunk :=
  {| chunk_id := completionId fresh;
     chunk_object := js "chat.completion.chunk";
     chunk_created := timestamp fresh;
     chunk_model := model;
     chunk_system_fingerprint := js "fp_ollama_proxy";
     chunk_choices :=
       [ {| sc_index := 0; sc_delta := delta; sc_finish_reason := finish_reason |} ] |}.

Definition assistantRoleChunk : OpenAIStreamChunk :=
  mkChunk {| delta_role := Some (js "assistant"); delta_content := None |} None.

Definition contentChunk (c : json) : OpenAIStreamChunk :=
  mkChunk {| delta_role := None; delta_content := Some c |} None.

Definition finalChunk : OpenAIStreamChunk :=
  mkChunk {| delta_role := None; delta_content := None |} (Some (js "stop")).

(** [if (data.choices?.[0]?.delta?.content) streamingContent += ...]: the
    statement throws when the content is truthy and cannot be converted to a
    primitive. *)
Definition chunk_throws (data : OpenAIStreamChunk) : bool :=
  match chunk_choices data with
  | choice :: _ =>
    match delta_content (sc_delta choice) with
    | Some c => truthy c && negb (concatenable c)
    | None => false
    end
  | [] => false
  end.

Definition writeChunk (data : OpenAIStreamChunk) (p : Pipeline) : Pipeline :=
  if controllerClosed p then p
  else if chunk_throws data then set_controllerClosed p     (* the tracking threw *)
  else if accepting p then set_queue (queue p ++ [DataChunk data]) p
  else set_controllerClosed p.            (* enqueue threw *)

Definition safeClose (p : Pipeline) : Pipeline :=
  if controllerClosed p then p
  else if accepting p then
    set_controllerClosed (set_ended (set_queue (queue p ++ [DoneSentinel]) p))
  else set_controllerClosed p.            (* enqueue threw *)

Definition writeError (message : jsstr) (p : Pipeline) : Pipeline :=
  if controllerClosed p then p
  else
    let p := writeChunk assistantRoleChunk p in
    let p := writeChunk (contentChunk (JStr (js "Error: " ++ message))) p in
    let p := writeChunk finalChunk p in
    safeClose p.

Definition ensureMinimalResponse (p : Pipeline) : Pipeline :=
  if negb (controllerClosed p) && negb (hasFinished p) then
    let p :=
      if negb (hasContentBeenSent p) && negb (controllerClosed p) then
        set_hasContentBeenSent (writeChunk (contentChunk (JStr placeholder)) p)
      else p in
    if negb (controllerClosed p) then
      safeClose (set_hasFinished (writeChunk finalChunk p))
    else p
  else p.

(** [ollamaData.message?.content] *)
Definition frame_content (ollamaData : json) : option json :=
  match get (js "message") ollamaData with
  | None | Some JNull => None
  | Some message => get (js "content") message
  end.

(** The first [if] of a frame, shared by the loop and by the handling of
    the residual buffer. *)
Definition forwardContent (ollamaData : json) (p : Pipeline) : Pipeline :=
  match frame_content ollamaData with
  | Some c =>
    if truthy c && negb (controllerClosed p) then
      set_hasContentBeenSent (writeChunk (contentChunk c) p)
    else p
  | None => p
  end.

(** The [try] block for one complete line; the boolean tells that the
    block executed [return].  Both a syntax error and the property read on
    [null] throw before any write and are caught by the [catch]. *)
Definition processLine (line : jsstr) (p : Pipeline) : Pipeline * bool :=
  match JSON.parse line with
  | None | Some JNull => (p, false)
  | Some ollamaData =>
    let p := forwardContent ollamaData p in
    if truthy_opt (get (js "done") ollamaData) && negb (controllerClosed p) then
      (safeClose (set_hasFinished (writeChunk finalChunk p)), true)
    else (p, false)
  end.

(** [for (const line of lines)] *)
Fixpoint processLines (lines : list jsstr) (p : Pipeline) : Pipeline * bool :=
  match lines with
  | [] => (p, false)
  | line :: rest =>
    let '(p, returned) :=
      match trim line with
      | _ :: _ =>
        if negb (hasFinished p) && negb (controllerClosed p) then processLine line p
        else (p, false)
      | [] => (p, false)
      end in
    if returned then (p, true)
    else if controllerClosed p then (p, false)       (* break *)
    else processLines rest p
  end.

Inductive LoopExit :=
| Returned                       (* return after the completion flag *)
| LoopDone                       (* the while loop was left *)
| Threw (message : jsstr).       (* read() rejected *)

(** [while (!hasFinished && !controllerClosed)] over the reads that the
    upstream body still has to deliver. *)
Fixpoint readLoop (chunks : list jsstr) (ending : ReadEnd) (p : Pipeline)
  : Pipeline * LoopExit :=
  if negb (hasFinished p) && negb (controllerClosed p) then
    let p := await p in
    match chunks with
    | [] =>
      match ending with
      | EndOfStream => (p, LoopDone)
      | ReadError message => (p, Threw message)
      end
    | value :: rest =>
      if controllerClosed p then (p, LoopDone)
      else
        let '(lines, last) := split_lines (buffer p ++ value) in
        let p := set_buffer last p in
        let '(p, returned) := processLines lines p in
        if returned then (p, Returned) else readLoop rest ending p
    end
  else (p, LoopDone).

(** The statements after the while loop: the residual buffer, then the
    fallback or the close. *)
Definition finishStream (p : Pipeline) : Pipeline :=
  let p :=
    match trim (buffer p) with
    | _ :: _ =>
      if negb (hasFinished p) && negb (controllerClosed p) then
        match JSON.parse (trim (buffer p)) with
        | None | Some JNull => p
        | Some ollamaData =>
          let p := forwardContent ollamaData p in
          if truthy_opt (get (js "done") ollamaData) then set_hasFinished p else p
        end
      else p
    | [] => p
    end in
  if negb (hasFinished p) && negb (controllerClosed p) then ensureMinimalResponse p
  else if negb (controllerClosed p) then safeClose p
  else p.

(** The outer [catch]. *)
Definition onError (message : jsstr) (p : Pipeline) : Pipeline :=
  if negb (controllerClosed p) then
    writeError (str_or message (js "Internal streaming error")) p
  else p.

(** [start(controller)] *)
Definition start (result : StreamResult) : Pipeline :=
  let p := await initial in                    (* await chatCompletion(...) *)
  match result with
  | StreamCallFailed message => onError message p
  | StreamHttpError status textFailure =>
    let p := await p in                        (* await response.text() *)
    match textFailure with
    | Some message => onError message p
    | None => writeError (js "Ollama request failed: " ++ N_to_jsstr status) p
    end
  | StreamNoBody => writeError (js "No response body from Ollama") p
  | StreamBody chunks ending =>
    let p := writeChunk assistantRoleChunk p in
    match readLoop chunks ending p with
    | (p, Returned) => p
    | (p, LoopDone) => finishStream p
    | (p, Threw message) => onError message p
    end
  end.

Definition handleStreamingChat (result : StreamResult) : Response :=
  let p := start result in
  EventStream (queue p) (ended p).
End Streaming.

(** *** Dispatcher *)

(** [OLLAMA_STREAM] is imported from [./config]; it is a parameter of the
    dispatcher. *)
Record Config := { OLLAMA_STREAM : bool }.

(** The backend as the dispatcher meets it. *)
Record Backend := {
  localTags : ModelService.TagsResult;
  remoteTags : ModelService.TagsResult;
  chat : OllamaChatRequest -> ChatResult;
  chatStream : OllamaChatRequest -> StreamResult
}.

(** [await req.json()]: rejects with an error, or yields the body. *)
Inductive JsonBody :=
| BodyRejects (message : jsstr)
| BodyValue (body : OpenAIChatRequest).

Record Request := {
  authorization : option jsstr;
  json_body : JsonBody
}.

Definition buildOptions (body : OpenAIChatRequest) : OllamaOptions :=
  {| opt_temperature := req_temperature body;
     opt_num_predict := req_max_tokens body;
     opt_top_p := req_top_p body;
     opt_frequency_penalty := req_frequency_penalty body;
     opt_presence_penalty := req_presence_penalty body;
     opt_stop :=
       match req_stop body with
       | Some (StopArray l) => Some l
       | Some (StopString s) => Some [s]
       | None => None
       end |}.

(** [Object.keys(options).length > 0] *)
Definition has_keys (o : OllamaOptions) : bool :=
  bool_decide (is_Some (opt_temperature o)) || bool_decide (is_Some (opt_num_predict o))
  || bool_decide (is_Some (opt_top_p o)) || bool_decide (is_Some (opt_frequency_penalty o))
  || bool_decide (is_Some (opt_presence_penalty o)) || bool_decide (is_Some (opt_stop o)).

(** [const effectiveStream = stream && OLLAMA_STREAM], with [stream]
    defaulting to [false]. *)
Definition effectiveStream (cfg : Config) (body : OpenAIChatRequest) : bool :=
  default false (req_stream body) && OLLAMA_STREAM cfg.

Definition buildOllamaRequest (cfg : Config) (model : jsstr) (messages : list OpenAIMessage)
           (body : OpenAIChatRequest) : OllamaChatRequest :=
  let options := buildOptions body in
  {| oreq_model := model;
     oreq_messages := convertToOllamaMessages messages;
     oreq_stream := effectiveStream cfg body;
     oreq_options := if has_keys options then Some options else None;
     oreq_format :=
       if is_json_object (req_response_format body) then Some (js "json") else None |}.

Definition model_not_found (model : jsstr) : Response :=
  createErrorResponse (js "The model '" ++ model ++ js "' does not exist")
                      (js "invalid_request_error") 404 (Some (js "model")) None.

Definition handleChatCompletions (cfg : Config) (backend : Backend) (fresh : Fresh)
           (consumer : Consumer) (req : Request) : Response :=
  match validateAuth (authorization req) with
  | Some error => error
  | None =>
    match json_body req with
    | BodyRejects message => internal_error message
    | BodyValue body =>
      match validateRequest body with
      | Some error => error
      | None =>
        let availableModels :=
          List.map ModelService.id
                   (ModelService.getOpenAIModels (localTags backend) (remoteTags backend)) in
        let model := default [] (req_model body) in
        if negb (validateModel model availableModels) then model_not_found model
        else
          match validateParameters body with
          | Some error => error
          | None =>
            let messages :=
              match req_messages body with MessagesArray l => l | _ => [] end in
            let ollamaRequest := buildOllamaRequest cfg model messages body in
            if effectiveStream cfg body then
              handleStreamingChat fresh model consumer (chatStream backend ollamaRequest)
            else
              handleNonStreamingChat fresh (chat backend ollamaRequest) model body
          end
      end
    end
  end.

End Chat.

(** ** [src/ollama-utils.ts] and the [fetch] handler of [src/unified-server.ts] *)

Module Server.

Definition isRemoteModel (model : jsstr) : bool := includes REMOTE_MODELS model.

(** [REMOTE_MODELS.includes(model)] on the value read from a parsed body:
    only a string can be equal to an entry of the allowlist. *)
Definition isRemoteModelValue (model : json) : bool :=
  match model with
  | JStr s => isRemoteModel s
  | _ => false
  end.

(** [req.json()] on the cloned request: [None] when it rejects. *)
Record Request := {
  method : jsstr;
  pathname : jsstr;
  body : option json
}.

(** [body.model || null]; a body that is not valid JSON, and the body [null]
    whose property read throws, are caught and give [null]. *)
Definition extractModelFromRequest (req : Request) : option json :=
  if negb (includes [js "POST"; js "DELETE"] (method req)) then None
  else
    match body req with
    | None | Some JNull => None
    | Some b =>
      match get (js "model") b with
      | Some v => if truthy v then Some v else None
      | None => None
      end
    end.

(** [.] of a regular expression without the [s] flag. *)
Definition is_line_terminator (c : N) : bool :=
  (c =? 10) || (c =? 13) || (c =? 8232) || (c =? 8233).

(** [pathname.match(/^\/api\/blobs\/(.+)$/)] *)
Definition extractDigestFromPath (pathname : jsstr) : option jsstr :=
  match strip_prefix (js "/api/blobs/") pathname with
  | Some (c :: r) =>
    if forallb (fun x => negb (is_line_terminator x)) (c :: r) then Some (c :: r) else None
  | _ => None
  end.

Inductive Host := LOCAL_OLLAMA_HOST | OLLAMA_HOST.

(** The branch taken by [fetch(req)], named after the handler it returns. *)
Inductive Route :=
| CorsPreflight
| handleChatCompletions
| handleModels
| CompletionsDeprecated
| handleEmbeddings
| OpenAIRoot
| OpenAINotFound
| handleUnifiedTags
| handleMergedPs
| handleOllamaVersion
| InvalidBlobDigest
| forwardOllamaRequest (targetHost : Host) (useAuth : bool)
| ServerRoot
| NotFound.

(** [x === 'literal'] *)
Definition equals (s : string) (x : jsstr) : bool := bool_decide (x = js s).

Definition fetch (req : Request) : Route :=
  let m := method req in
  let path := pathname req in
  if equals "OPTIONS" m then CorsPreflight
  else if startsWith (js "/v1/") path then
    if equals "/v1/chat/completions" path && equals "POST" m then handleChatCompletions
    else if equals "/v1/models" path && equals "GET" m then handleModels
    else if equals "/v1/completions" path && equals "POST" m then CompletionsDeprecated
    else if equals "/v1/embeddings" path && equals "POST" m then handleEmbeddings
    else if equals "/v1/" path && equals "GET" m then OpenAIRoot
    else OpenAINotFound
  else if startsWith (js "/api/") path then
    if equals "/api/tags" path && equals "GET" m then handleUnifiedTags
    else if equals "/api/ps" path && equals "GET" m then handleMergedPs
    else if equals "/api/version" path && equals "GET" m then handleOllamaVersion
    else if startsWith (js "/api/blobs/") path && includes [js "HEAD"; js "POST"] m then
      match extractDigestFromPath path with
      | Some _ => forwardOllamaRequest LOCAL_OLLAMA_HOST false
      | None => InvalidBlobDigest
      end
    else if includes [js "POST"] m
            && includes [js "/api/generate"; js "/api/chat"; js "/api/embed";
                         js "/api/embeddings"; js "/api/show"] path then
      match extractModelFromRequest req with
      | Some model =>
        if isRemoteModelValue model then forwardOllamaRequest OLLAMA_HOST true
        else forwardOllamaRequest LOCAL_OLLAMA_HOST false
      | None => forwardOllamaRequest LOCAL_OLLAMA_HOST false
      end
    else if includes [js "POST"; js "DELETE"] m
            && includes [js "/api/pull"; js "/api/push"; js "/api/create";
                         js "/api/delete"; js "/api/copy"] path then
      forwardOllamaRequest LOCAL_OLLAMA_HOST false
    else forwardOllamaRequest LOCAL_OLLAMA_HOST false
  else if equals "/" path && equals "GET" m then ServerRoot
  else NotFound.

End Server.

(** ** More of the string library *)

(** [haystack.includes(needle)] on strings. *)
Fixpoint str_includes (needle haystack : jsstr) : bool :=
  startsWith needle haystack
  || match haystack with
     | [] => false
     | _ :: rest => str_includes needle rest
     end.

(** [s.split(sep)] for a separator of one code unit; the array is never
    empty. *)
Fixpoint split_on (sep : N) (s : jsstr) : list jsstr :=
  match s with
  | [] => [[]]
  | c :: r =>
    if c =? sep then [] :: split_on sep r
    else
      match split_on sep r with
      | [] => [[c]]
      | part :: parts => (c :: part) :: parts
      end
  end.

(** ** [src/config.ts]: the [.env] file *)

Module EnvFile.

(** The callback of [reduce]: [const [key, value] = line.split('=')], then
    [if (key && value) acc[key.trim()] = value.trim()].  An assignment to
    the key [__proto__] of an object literal does not create a property
    when the value is a string. *)
Definition env_step (acc : gmap jsstr jsstr) (line : jsstr) : gmap jsstr jsstr :=
  match split_on 61 line with
  | (k :: key) :: (v :: value) :: _ =>
    if bool_decide (trim (k :: key) = js "__proto__") then acc
    else <[ trim (k :: key) := trim (v :: value) ]> acc
  | _ => acc
  end.

(** [envVars] of [loadEnvFile], from the text of the file. *)
Definition envVars (envContent : jsstr) : gmap jsstr jsstr :=
  fold_left env_step (split_on 10 envContent) ∅.

End EnvFile.

(** ** [src/clients/ollama-client.ts] *)

Module OllamaClient.

(** [OLLAMA_API_KEY] as [config.ts] exports it: [process.env.OLLAMA_API_KEY]. *)
Record Env := { OLLAMA_API_KEY : option jsstr }.

(** The body that the client serialises into a request. *)
Inductive Body :=
| NoBody
| ChatBody (requestBody : Chat.OllamaChatRequest)
| EmbeddingsBody (model : json) (prompt : jsstr) (keep_alive : jsstr).

(** A call of the global [fetch]: the host and the endpoint that make the
    URL, the method, the [Authorization] header and the body. *)
Record FetchCall := {
  host : Server.Host;
  endpoint : jsstr;
  call_method : jsstr;
  authorization : option jsstr;
  call_body : Body
}.

(** The promise of a call rejects with an error or resolves with a
    response. *)
Inductive Fetched (R : Type) :=
| Rejects (message : jsstr)
| Resolves (response : R).

Arguments Rejects {R} message.
Arguments Resolves {R} response.

Section Client.
Context {R : Type}.
Variable env : Env.
Variable fetch : FetchCall -> Fetched R.

Definition fetchLocal (endpoint method : jsstr) (body : Body) : Fetched R :=
  match fetch {| host := Server.LOCAL_OLLAMA_HOST; endpoint := endpoint;
                 call_method := method; authorization := None; call_body := body |} with
  | Rejects message => Rejects (js "Local Ollama connection failed: " ++ message)
  | Resolves response => Resolves response
  end.

Definition fetchRemote (endpoint method : jsstr) (body : Body) : Fetched R :=
  match truthy_str (OLLAMA_API_KEY env) with
  | None => Rejects (js "OLLAMA_API_KEY required for remote requests")
  | Some key =>
    match fetch {| host := Server.OLLAMA_HOST; endpoint := endpoint;
                   call_method := method;
                   authorization := Some (js "Bearer " ++ key);
                   call_body := body |} with
    | Rejects message => Rejects (js "Remote Ollama connection failed: " ++ message)
    | Resolves response => Resolves response
    end
  end.

(** [chatCompletion(model, messages, options)]: at both call sites the
    options spread the request of the dispatcher, so that the body
    [{ model, messages, ...options }] is that request. *)
Definition chatCompletion (model : jsstr) (requestBody : Chat.OllamaChatRequest)
  : Fetched R :=
  let isRemoteModel := includes [js "gpt-oss:120b"; js "gpt-oss:20b"] model in
  if isRemoteModel then fetchRemote (js "/api/chat") (js "POST") (ChatBody requestBody)
  else fetchLocal (js "/api/chat") (js "POST") (ChatBody requestBody).

Definition proxy (endpoint method : jsstr) (body : Body) (useRemote : bool) : Fetched R :=
  if useRemote then fetchRemote endpoint method body
  else fetchLocal endpoint method body.

End Client.

(** What [getLocalTags] and [getRemoteTags] read from a response: [ok] and
    the outcome of [json()], [TagsFailed] when it rejects. *)
Record TagsResponse := { tags_ok : bool; tags_json : ModelService.TagsResult }.

Definition getLocalTags (fetch : FetchCall -> Fetched TagsResponse)
  : ModelService.TagsResult :=
  match fetchLocal fetch (js "/api/tags") (js "GET") NoBody with
  | Rejects _ => ModelService.TagsFailed
  | Resolves response =>
    if tags_ok response then tags_json response else ModelService.TagsFailed
  end.

Definition getRemoteTags (env : Env) (fetch : FetchCall -> Fetched TagsResponse)
  : ModelService.TagsResult :=
  match fetchRemote env fetch (js "/api/tags") (js "GET") NoBody with
  | Rejects _ => ModelService.TagsFailed
  | Resolves response =>
    if tags_ok response then tags_json response else ModelService.TagsFailed
  end.

(** What [generateEmbeddings] reads from a response. *)
Record EmbedResponse := {
  embed_ok : bool;
  embed_status : N;
  embed_statusText : jsstr;
  embed_json : Fetched json
}.

(** [generateEmbeddings(model, prompt)]: always the local runtime. *)
Definition generateEmbeddings (fetch : FetchCall -> Fetched EmbedResponse)
           (model : json) (prompt : jsstr) : Fetched json :=
  match fetchLocal fetch (js "/api/embeddings") (js "POST")
                   (EmbeddingsBody model prompt (js "5m")) with
  | Rejects message => Rejects message
  | Resolves response =>
    if embed_ok response then embed_json response
    else Rejects (js "Embeddings failed: " ++ N_to_jsstr (embed_status response)
                     ++ js " " ++ embed_statusText response)
  end.

End OllamaClient.

(** ** [src/middleware/error-handler.ts] *)

Module ErrorHandler.

(** What a handler can throw: a [Response], an [Error] with its message, or
    any other value. *)
Inductive Thrown :=
| ThrownResponse (r : Response)
| ThrownError (message : jsstr)
| ThrownValue.

Definition handleError (error : Thrown) (requestId : option jsstr) : Response :=
  match error with
  | ThrownResponse r => r
  | ThrownError message =>
    if str_includes (js "OLLAMA_API_KEY") message then
      createErrorResponse (js "OLLAMA_API_KEY environment variable is required")
                          (js "auth_error") 401 requestId None
    else if str_includes (js "Model") message && str_includes (js "not found") message then
      createErrorResponse (js "Model not found. Make sure it's pulled in Ollama.")
                          (js "invalid_request_error") 404 requestId None
    else if str_includes (js "Failed to fetch") message
            || str_includes (js "connection") message then
      createErrorResponse (js "Failed to fetch from upstream") (js "api_error") 502
                          requestId None
    else
      createErrorResponse (str_or message (js "Internal server error"))
                          (js "internal_server_error") 500 requestId None
  | ThrownValue =>
    createErrorResponse (js "Internal server error") (js "internal_server_error") 500
                        requestId None
  end.

End ErrorHandler.

(** ** [src/embeddings.ts] *)

Module Embeddings.
Import OllamaClient.

(** [Math.ceil(text.length / 4)] *)
Definition estimateTokens (text : jsstr) : N := (N.of_nat (length text) + 3) / 4.

Record EmbeddingItem := { item_embedding : list json; item_index : N }.

Record OpenAIEmbeddingResponse := {
  emb_data : list EmbeddingItem;
  emb_model : json;
  emb_prompt_tokens : N;
  emb_total_tokens : N
}.

(** The reply of the endpoint: an error envelope or the embeddings. *)
Inductive Reply :=
| Failure (r : Response)
| Success (body : OpenAIEmbeddingResponse).

Section Handler.
(** [crypto.randomUUID()]; the network met by the [i]-th call of the
    request; and the rendering inside a template literal of a value that is
    not a string and can be converted to one. *)
Variable requestId : jsstr.
Variable fetch : nat -> FetchCall -> Fetched EmbedResponse.
Variable template : json -> jsstr.

Definition failure (message type : jsstr) (status : N) : Reply :=
  Failure (createErrorResponse message type status (Some requestId) None).

(** The [for] loop from index [i] on.  Reading [embedding] off [null] throws
    a [TypeError], whose message does not contain [Model], into the inner
    [catch]. *)
Fixpoint embedLoop (model : json) (i : nat) (inputs : list json)
         (embeddings : list EmbeddingItem) (totalTokens : N) : Reply :=
  match inputs with
  | [] =>
    Success {| emb_data := embeddings; emb_model := model;
               emb_prompt_tokens := totalTokens; emb_total_tokens := totalTokens |}
  | JStr text :: rest =>
    match generateEmbeddings (fetch i) model text with
    | Resolves JNull => failure (js "Failed to generate embeddings") (js "api_error") 500
    | Resolves ollamaResult =>
      match get (js "embedding") ollamaResult with
      | Some (JArr embedding) =>
        embedLoop model (S i) rest
                  (embeddings ++ [ {| item_embedding := embedding;
                                      item_index := N.of_nat i |} ])
                  (totalTokens + estimateTokens text)
      | _ => failure (js "Invalid embedding response from Ollama") (js "api_error") 500
      end
    | Rejects message =>
      if str_includes (js "Model") message then
        if concatenable model then
          failure (js "Model '" ++ match model with JStr name => name | _ => template model end
                     ++ js "' not found. Make sure it's pulled in Ollama.")
                  (js "invalid_request_error") 404
        else
          (* the template literal throws into the outer catch *)
          failure (js "Failed to process embeddings request") (js "api_error") 500
      else failure (js "Failed to generate embeddings") (js "api_error") 500
    end
  | _ :: _ => failure (js "All input items must be strings") (js "invalid_request_error") 400
  end.

(** [body] is the outcome of [req.json()]. *)
Definition handleEmbeddings (body : Fetched json) : Reply :=
  match body with
  | Rejects _ | Resolves JNull =>
    failure (js "Failed to process embeddings request") (js "api_error") 500
  | Resolves body =>
    match get (js "model") body, get (js "input") body with
    | Some model, Some input =>
      if truthy model && truthy input then
        let inputs := match input with JArr l => l | _ => [input] end in
        match inputs with
        | [] => failure (js "Input cannot be empty") (js "invalid_request_error") 400
        | _ :: _ => embedLoop model 0 inputs [] 0
        end
      else failure (js "Missing required fields: model and input")
                   (js "invalid_request_error") 400
    | _, _ => failure (js "Missing required fields: model and input")
                      (js "invalid_request_error") 400
    end
  end.

End Handler.

End Embeddings.

(** ** Vocabulary of the specification *)

(** JSON text written with apostrophes in place of quotation marks. *)
Definition json_text (s : string) : jsstr :=
  List.map (fun c => if c =? 39 then 34 else c) (js s).

(** The texts kept by the translation, in the words of the specification:
    text parts are kept, everything else is dropped. *)
Fixpoint kept_texts (parts : list (option ContentPart)) : list jsstr :=
  match parts with
  | [] => []
  | Some p :: rest =>
    match part_text p with
    | Some (c :: t) =>
      if bool_decide (part_type p = js "text") then (c :: t) :: kept_texts rest
      else kept_texts rest
    | _ => kept_texts rest
    end
  | None :: rest => kept_texts rest
  end.

Definition text_part (s : string) : option ContentPart :=
  Some {| part_type := js "text"; part_text := Some (js s); part_image_url := None |}.

Definition image_part (url : string) : option ContentPart :=
  Some {| part_type := js "image_url"; part_text := None;
          part_image_url := Some (JObj [(js "url", JStr (js url))]) |}.

(** The loop of [deduplicateModels] as a recursion on the models still to be
    visited. *)
Fixpoint dedup_from (seen : gset jsstr) (ms : list ModelService.OllamaModel)
  : list ModelService.OllamaModel :=
  match ms with
  | [] => []
  | m :: r =>
    if bool_decide (ModelService.name m ∈ seen) then dedup_from seen r
    else m :: dedup_from ({[ ModelService.name m ]} ∪ seen) r
  end.

Definition tagged_model (n d : string) : ModelService.OllamaModel :=
  {| ModelService.name := js n; ModelService.modified_at := None;
     ModelService.size := None; ModelService.digest := Some (js d) |}.

(** A response that is a single JSON document, not an event stream. *)
Definition single_json_body (r : Response) : bool :=
  match r with
  | ErrorResponse _ _ | ChatCompletion _ => true
  | EventStream _ _ => false
  end.

(** The content of the only choice of a chat completion. *)
Definition envelope_content (r : OpenAIChatResponse) : option jsstr :=
  match resp_choices r with
  | [c] => Some (msg_content (choice_message c))
  | _ => None
  end.

Definition fresh0 : Chat.Fresh :=
  {| Chat.completionId := js "chatcmpl-0"; Chat.timestamp := 1700000000 |}.

Definition user_message (s : string) : OpenAIMessage :=
  {| role := Some (js "user"); content := ContentString (js s); tool_call_id := None |}.

(** A plain chat turn: no tools, no response format, no sampling parameter. *)
Definition plain_request (model : string) (messages : MessagesField) (stream : option bool)
  : OpenAIChatRequest :=
  {| req_model := Some (js model); req_messages := messages;
     req_temperature := None; req_max_tokens := None; req_top_p := None;
     req_frequency_penalty := None; req_presence_penalty := None;
     req_stream := stream; req_stop := None; req_n := None;
     req_tools := None; req_response_format := None |}.

Definition reply (text : jsstr) : Chat.OllamaChatResponse :=
  {| Chat.or_message := Some {| Chat.om_content := Some text |};
     Chat.or_prompt_eval_count := Some 3; Chat.or_eval_count := Some 5 |}.

Definition never_cancels : Chat.Consumer := {| Chat.cancelAt := None |}.

(** A backend that lists one local model and answers every chat call with
    the same reply. *)
Definition backend0 : Chat.Backend :=
  {| Chat.localTags := ModelService.TagsOk (Some [tagged_model "llama3" "local"]);
     Chat.remoteTags := ModelService.TagsFailed;
     Chat.chat := fun _ => Chat.Completed (reply (js "hello"));
     Chat.chatStream := fun _ =>
       Chat.StreamBody [json_text "{'message':{'content':'hello'},'done':true}" ++ [10]]
                       Chat.EndOfStream |}.

(** The names that [handleChatCompletions] accepts as models. *)
Definition availableModels (backend : Chat.Backend) : list jsstr :=
  List.map ModelService.name
           (ModelService.getUnifiedModels (Chat.localTags backend) (Chat.remoteTags backend)).

(** A request that passes every check made before the dispatch. *)
Definition accepted (backend : Chat.Backend) (req : Chat.Request) (body : OpenAIChatRequest)
           (model : jsstr) (messages : list OpenAIMessage) : Prop :=
  validateAuth (Chat.authorization req) = None
  /\ Chat.json_body req = Chat.BodyValue body
  /\ validateRequest body = None
  /\ req_model body = Some model
  /\ req_messages body = MessagesArray messages
  /\ model ∈ availableModels backend
  /\ validateParameters body = None.

Definition chat_request (authorization : option jsstr) (body : OpenAIChatRequest)
  : Chat.Request :=
  {| Chat.authorization := authorization; Chat.json_body := Chat.BodyValue body |}.

(** *** The stream as a function of the upstream text

    The upstream text is the concatenation of the decoded chunks; its
    complete lines are its segments before each line feed and its residual
    is what follows the last one.  The definitions below read the events of
    a stream off that text as a whole, independently of how the text is cut
    into chunks; the pipeline is shown to produce exactly these events. *)

(** The frame of a complete line, as the loop reads it: [None] for a blank
    line, for a line that is not JSON and for [null]. *)
Definition line_frame (line : jsstr) : option json :=
  match trim line with
  | [] => None
  | _ :: _ =>
    match JSON.parse line with
    | None | Some JNull => None
    | Some d => Some d
    end
  end.

(** The frame of the residual buffer, which is parsed after trimming. *)
Definition residual_frame (residual : jsstr) : option json :=
  match trim residual with
  | [] => None
  | _ :: _ =>
    match JSON.parse (trim residual) with
    | None | Some JNull => None
    | Some d => Some d
    end
  end.

(** The frame carries message content. *)
Definition frame_has_content (f : option json) : bool :=
  match f with
  | Some d => truthy_opt (Chat.frame_content d)
  | None => false
  end.

(** The frame carries the completion flag. *)
Definition frame_done (f : option json) : bool :=
  match f with
  | Some d => truthy_opt (get (js "done") d)
  | None => false
  end.

(** The content chunk into which a frame is translated, if any. *)
Definition frame_output (fresh : Chat.Fresh) (model : jsstr) (f : option json) : list SSE :=
  match f with
  | Some d =>
    match Chat.frame_content d with
    | Some c => if truthy c then [DataChunk (Chat.contentChunk fresh model c)] else []
    | None => []
    end
  | None => []
  end.

(** The frame carries content whose chunk cannot be written: the content is
    truthy and cannot be converted to a primitive. *)
Definition frame_throws (f : option json) : bool :=
  match f with
  | Some d =>
    match Chat.frame_content d with
    | Some c => truthy c && negb (concatenable c)
    | None => false
    end
  | None => false
  end.

(** How the reading of a sequence of frames ends: no frame stops it; a frame
    carries the completion flag; or the chunk of a frame cannot be written,
    after which the pipeline writes nothing more. *)
Inductive Outcome := Running | Finished | Aborted.

Fixpoint outcome (frames : list (option json)) : Outcome :=
  match frames with
  | [] => Running
  | f :: rest =>
    if frame_throws f then Aborted
    else if frame_done f then Finished
    else outcome rest
  end.

(** Translation of the frames up to the first one that stops the reading,
    with the way in which it stops. *)
Fixpoint translate (fresh : Chat.Fresh) (model : jsstr) (frames : list (option json))
  : list SSE * Outcome :=
  match frames with
  | [] => ([], Running)
  | f :: rest =>
    if frame_throws f then ([], Aborted)
    else if frame_done f then (frame_output fresh model f, Finished)
    else
      let '(out, o) := translate fresh model rest in
      (frame_output fresh model f ++ out, o)
  end.

Definition errorChunk (fresh : Chat.Fresh) (model : jsstr) (message : jsstr) : SSE :=
  DataChunk (Chat.contentChunk fresh model (JStr (js "Error: " ++ message))).

Definition roleEvent (fresh : Chat.Fresh) (model : jsstr) : SSE :=
  DataChunk (Chat.assistantRoleChunk fresh model).

Definition finalEvent (fresh : Chat.Fresh) (model : jsstr) : SSE :=
  DataChunk (Chat.finalChunk fresh model).

Definition placeholderEvent (fresh : Chat.Fresh) (model : jsstr) : SSE :=
  DataChunk (Chat.contentChunk fresh model (JStr Chat.placeholder)).

(** What [writeError] appends. *)
Definition error_events (fresh : Chat.Fresh) (model : jsstr) (message : jsstr) : list SSE :=
  [roleEvent fresh model; errorChunk fresh model message; finalEvent fresh model; DoneSentinel].

(** The stream of a consumer that does not cancel.  After the role chunk
    come the content chunks of the frames; a completion flag in a complete
    line ends the stream with the final chunk and the sentinel; a failed
    read ends it with the events of [writeError]; at the end of the body the
    residual frame is translated too, and the stream is closed by the
    sentinel alone when that frame carries the completion flag, and
    otherwise by the placeholder (if nothing was sent), the final chunk and
    the sentinel.  A frame whose chunk cannot be written stops everything:
    the stream keeps the events written so far and is never closed. *)
Definition expected_stream (fresh : Chat.Fresh) (model : jsstr) (result : Chat.StreamResult)
  : Response :=
  match result with
  | Chat.StreamCallFailed message =>
    EventStream (error_events fresh model (str_or message (js "Internal streaming error")))
                true
  | Chat.StreamHttpError status (Some message) =>
    EventStream (error_events fresh model (str_or message (js "Internal streaming error")))
                true
  | Chat.StreamHttpError status None =>
    EventStream (error_events fresh model (js "Ollama request failed: " ++ N_to_jsstr status))
                true
  | Chat.StreamNoBody =>
    EventStream (error_events fresh model (js "No response body from Ollama")) true
  | Chat.StreamBody chunks ending =>
    let '(lines, residual) := split_lines (concat chunks) in
    let '(out, o) := translate fresh model (List.map line_frame lines) in
    match o with
    | Finished =>
      EventStream (roleEvent fresh model :: out ++ [finalEvent fresh model; DoneSentinel])
                  true
    | Aborted => EventStream (roleEvent fresh model :: out) false
    | Running =>
      match ending with
      | Chat.ReadError message =>
        EventStream
          (roleEvent fresh model :: out
             ++ error_events fresh model (str_or message (js "Internal streaming error")))
          true
      | Chat.EndOfStream =>
        let f := residual_frame residual in
        if frame_throws f then EventStream (roleEvent fresh model :: out) false
        else
          let out := out ++ frame_output fresh model f in
          if frame_done f then
            EventStream (roleEvent fresh model :: out ++ [DoneSentinel]) true
          else
            EventStream
              (roleEvent fresh model :: out
                 ++ match out with [] => [placeholderEvent fresh model] | _ :: _ => [] end
                 ++ [finalEvent fresh model; DoneSentinel])
              true
      end
    end
  end.

(** Classification of the events of a stream. *)
Definition the_choice (e : SSE) : option OpenAIStreamChoice :=
  match e with
  | DataChunk d => match chunk_choices d with [c] => Some c | _ => None end
  | DoneSentinel => None
  end.

Definition is_role_chunk (e : SSE) : bool :=
  match the_choice e with
  | Some c => bool_decide (delta_role (sc_delta c) = Some (js "assistant"))
  | None => false
  end.

(** A chunk with content that is not empty. *)
Definition is_content_chunk (e : SSE) : bool :=
  match the_choice e with
  | Some c => truthy_opt (delta_content (sc_delta c))
  | None => false
  end.

(** A chunk whose finish reason is not [null]. *)
Definition is_final_chunk (e : SSE) : bool :=
  match the_choice e with
  | Some c => bool_decide (is_Some (sc_finish_reason c))
  | None => false
  end.

Definition is_sentinel (e : SSE) : bool :=
  match e with DoneSentinel => true | DataChunk _ => false end.

(** The body is read to its end, no complete line stops the reading, and
    the residual of the text, after the last line feed, carries the
    completion flag in a frame whose chunk can be written. *)
Definition done_in_residual (result : Chat.StreamResult) : bool :=
  match result with
  | Chat.StreamBody chunks Chat.EndOfStream =>
    let '(lines, residual) := split_lines (concat chunks) in
    match outcome (List.map line_frame lines) with
    | Running =>
      negb (frame_throws (residual_frame residual)) && frame_done (residual_frame residual)
    | _ => false
    end
  | _ => false
  end.

(** The upstream body fails while it is read, before any frame stopped the
    reading. *)
Definition fails_mid_stream (result : Chat.StreamResult) : bool :=
  match result with
  | Chat.StreamBody chunks (Chat.ReadError _) =>
    match outcome (List.map line_frame (fst (split_lines (concat chunks)))) with
    | Running => true
    | _ => false
    end
  | _ => false
  end.

(** A frame whose chunk cannot be written is met before the stream is
    complete: in a complete line before any completion flag, or in the
    residual at the end of the body. *)
Definition stream_aborts (result : Chat.StreamResult) : bool :=
  match result with
  | Chat.StreamBody chunks ending =>
    let '(lines, residual) := split_lines (concat chunks) in
    match outcome (List.map line_frame lines) with
    | Aborted => true
    | Finished => false
    | Running =>
      match ending with
      | Chat.EndOfStream => frame_throws (residual_frame residual)
      | Chat.ReadError _ => false
      end
    end
  | _ => false
  end.

(** Pipeline states met while the consumer has not cancelled: streaming, and
    closed after the sentinel. *)
Definition streaming (q : list SSE) (a : nat) (b : jsstr) (sent : bool) : Chat.Pipeline :=
  {| Chat.queue := q; Chat.ended := false; Chat.cancelled := false; Chat.awaits := a;
     Chat.controllerClosed := false; Chat.buffer := b;
     Chat.hasFinished := false; Chat.hasContentBeenSent := sent |}.

Definition closed (q : list SSE) (a : nat) (b : jsstr) (finished sent : bool) : Chat.Pipeline :=
  {| Chat.queue := q; Chat.ended := true; Chat.cancelled := false; Chat.awaits := a;
     Chat.controllerClosed := true; Chat.buffer := b;
     Chat.hasFinished := finished; Chat.hasContentBeenSent := sent |}.

(** The state after a write threw: nothing more is written and the stream
    stays open. *)
Definition aborted (q : list SSE) (a : nat) (b : jsstr) (finished sent : bool) : Chat.Pipeline :=
  {| Chat.queue := q; Chat.ended := false; Chat.cancelled := false; Chat.awaits := a;
     Chat.controllerClosed := true; Chat.buffer := b;
     Chat.hasFinished := finished; Chat.hasContentBeenSent := sent |}.

Definition nonempty {A} (l : list A) : bool :=
  match l with [] => false | _ :: _ => true end.

Definition exit_of (ending : Chat.ReadEnd) : Chat.LoopExit :=
  match ending with
  | Chat.EndOfStream => Chat.LoopDone
  | Chat.ReadError message => Chat.Threw message
  end.

(** A content chunk: content that is not empty, no role, no finish reason. *)
Definition is_plain_content (e : SSE) : bool :=
  is_content_chunk e && negb (is_role_chunk e) && negb (is_final_chunk e)
  && negb (is_sentinel e).

(** Neither a chunk with a finish reason nor the sentinel. *)
Definition is_not_terminal (e : SSE) : bool :=
  negb (is_final_chunk e) && negb (is_sentinel e).

Definition count_role (events : list SSE) : nat :=
  length (List.filter is_role_chunk events).

(** ** Vocabulary of the further properties *)

(** *** Acceptable requests *)

(** A message that [validateRequest] lets through: a known role, a tool call
    id on a tool message, and a flattened content of at most 200000 code
    units. *)
Definition acceptable_message (m : OpenAIMessage) : Prop :=
  (exists r, role m = Some r
             /\ r ∈ [js "system"; js "user"; js "assistant"; js "tool"]
             /\ (r = js "tool" -> exists t, tool_call_id m = Some t /\ t <> []))
  /\ N.of_nat (length (convertContentToString (content m))) <= 200000.

(** *** Pipeline states under cancellation *)

(** No event of the list is the sentinel. *)
Definition no_sentinel (q : list SSE) : bool :=
  forallb (fun e => negb (is_sentinel e)) q.

(** The sentinel is in the queue exactly when the controller was closed by
    the pipeline, and then it is the last event. *)
Definition sealed (p : Chat.Pipeline) : Prop :=
  if Chat.ended p then
    Chat.controllerClosed p = true
    /\ exists pre, Chat.queue p = pre ++ [DoneSentinel] /\ no_sentinel pre = true
  else no_sentinel (Chat.queue p) = true.

(** The consumer has cancelled an open stream that holds the events [q]. *)
Definition cancelled_with (q : list SSE) (p : Chat.Pipeline) : Prop :=
  Chat.cancelled p = true /\ Chat.ended p = false /\ Chat.queue p = q.

(** The stream holds the events [q] and possibly more. *)
Definition extends (q : list SSE) (p : Chat.Pipeline) : Prop :=
  q `prefix_of` Chat.queue p.

(** A pipeline whose consumer may cancel, against the pipeline of the same
    upstream whose consumer does not: the two are in the same state, or the
    first was cancelled and holds a prefix of the events of the second. *)
Definition trails (pc pu : Chat.Pipeline) : Prop :=
  (pc = pu /\ Chat.cancelled pc = false /\ sealed pc)
  \/ (exists q, cancelled_with q pc /\ extends q pu).

(** *** The client and the handlers built on it *)

(** The backend of the dispatcher, built on the client.  A response is
    described by what the handler goes on to read from it. *)
Definition client_backend (env : OllamaClient.Env)
           (fetchTags : OllamaClient.FetchCall -> OllamaClient.Fetched OllamaClient.TagsResponse)
           (fetchChat : OllamaClient.FetchCall -> OllamaClient.Fetched Chat.ChatResult)
           (fetchStream : OllamaClient.FetchCall -> OllamaClient.Fetched Chat.StreamResult)
  : Chat.Backend :=
  {| Chat.localTags := OllamaClient.getLocalTags fetchTags;
     Chat.remoteTags := OllamaClient.getRemoteTags env fetchTags;
     Chat.chat := fun ollamaRequest =>
       match OllamaClient.chatCompletion env fetchChat
               (Chat.oreq_model ollamaRequest) ollamaRequest with
       | OllamaClient.Rejects message => Chat.CallFailed message
       | OllamaClient.Resolves result => result
       end;
     Chat.chatStream := fun ollamaRequest =>
       match OllamaClient.chatCompletion env fetchStream
               (Chat.oreq_model ollamaRequest) ollamaRequest with
       | OllamaClient.Rejects message => Chat.StreamCallFailed message
       | OllamaClient.Resolves result => result
       end |}.

(** The message of the error thrown when the credential is missing. *)
Definition missing_key : jsstr := js "OLLAMA_API_KEY required for remote requests".

(** A call that carries no credential and goes to the local runtime. *)
Definition local_call (call : OllamaClient.FetchCall) : Prop :=
  OllamaClient.host call = Server.LOCAL_OLLAMA_HOST
  /\ OllamaClient.authorization call = None.

(** The items of a successful embeddings reply, numbered from [i]. *)
Fixpoint embedding_items (i : nat) (vectors : list (list json))
  : list Embeddings.EmbeddingItem :=
  match vectors with
  | [] => []
  | v :: rest =>
    {| Embeddings.item_embedding := v; Embeddings.item_index := N.of_nat i |}
      :: embedding_items (S i) rest
  end.

(** The sum of the token estimates of the texts. *)
Definition estimated_tokens (texts : list jsstr) : N :=
  fold_right (fun text total => Embeddings.estimateTokens text + total) 0 texts.

(** * Properties *)

(** ** Content flattening *)

Section ContentFacts.

Lemma convert_parts_kept_texts (parts : list (option ContentPart)) :
  List.map text_of (List.filter is_text_part (omap id parts)) = kept_texts parts.
Proof.
  induction parts as [|[p|] rest IH]; simpl; auto.
  unfold is_text_part, has_text, text_of.
  destruct p as [ty [[|c t]|] img]; simpl in *;
    try (rewrite andb_false_r; exact IH).
  case_bool_decide; simpl; [f_equal; exact IH | exact IH].
Qed.

Lemma kept_texts_app (l1 l2 : list (option ContentPart)) :
  kept_texts (l1 ++ l2) = kept_texts l1 ++ kept_texts l2.
Proof.
  induction l1 as [|[p|] rest IH]; simpl; auto.
  destruct (part_text p) as [[|c t]|]; auto.
  case_bool_decide; simpl; congruence.
Qed.

Lemma kept_texts_non_text (p : ContentPart) :
  part_type p <> js "text" -> kept_texts [Some p] = [].
Proof.
  intros H. simpl. destruct (part_text p) as [[|c t]|]; auto.
  case_bool_decide; [contradiction | reflexivity].
Qed.

End ContentFacts.

(** C8. [convertContentToString] returns a plain string unchanged; on a
    multi-part array it yields the texts of the text parts joined by single
    spaces, so that a part that is not a text part can be removed without
    changing the result; the array [text a, image, text b] becomes [a b];
    [convertToOllamaMessages] maps the messages one to one, in order, keeping
    each role and flattening each content. *)
Theorem convertContentToString_text_parts :
  (forall s, convertContentToString (ContentString s) = s)
  /\ (forall parts,
        convertContentToString (ContentParts parts) = join [32] (kept_texts parts))
  /\ (forall before p after,
        part_type p <> js "text" ->
        convertContentToString (ContentParts (before ++ Some p :: after))
        = convertContentToString (ContentParts (before ++ after)))
  /\ (forall a b c t,
        kept_texts [a; b] = [c; t] ->
        convertContentToString (ContentParts [a; b]) = c ++ [32] ++ t)
  /\ convertContentToString
       (ContentParts [text_part "a"; image_part "http://x/y.png"; text_part "b"])
     = js "a b"
  /\ (forall messages (i : nat),
        convertToOllamaMessages messages !! i
        = (fun m => {| ollama_role := role m;
                       ollama_content := convertContentToString (content m) |})
            <$> messages !! i).
Proof.
  assert (Hparts : forall parts,
             convertContentToString (ContentParts parts) = join [32] (kept_texts parts)).
  { intros parts. unfold convertContentToString.
    rewrite convert_parts_kept_texts. reflexivity. }
  repeat split.
  - exact Hparts.
  - intros before p after Hp. rewrite !Hparts.
    change (Some p :: after) with ([Some p] ++ after).
    rewrite !kept_texts_app, (kept_texts_non_text p Hp). reflexivity.
  - intros a b c t H. rewrite Hparts, H. reflexivity.
  - intros messages i. unfold convertToOllamaMessages.
    apply (list_lookup_fmap _ messages i).
Qed.

Lemma convertContentToString_text_parts_witness :
  convertContentToString
    (ContentParts ([text_part "a"] ++ Some {| part_type := js "image_url"; part_text := Some (js "zz");
                                              part_image_url := None |} :: [text_part "b"]))
  = convertContentToString (ContentParts ([text_part "a"] ++ [text_part "b"]))
  /\ convertContentToString (ContentParts [text_part "a"; text_part "b"]) = js "a" ++ [32] ++ js "b".
Proof.
  split.
  - apply (proj1 (proj2 (proj2 convertContentToString_text_parts))).
    vm_compute. discriminate.
  - apply (proj1 (proj2 (proj2 (proj2 convertContentToString_text_parts)))).
    vm_compute. reflexivity.
Defined.

(** ** Remote allowlist and routing of the native surface *)

Section RoutingFacts.
Import Server.

Lemma includes_spec (l : list jsstr) (s : jsstr) : includes l s = true <-> s ∈ l.
Proof. unfold includes. apply bool_decide_eq_true. Qed.

Lemma isRemoteModel_spec (n : jsstr) :
  isRemoteModel n = true <-> n = js "gpt-oss:120b" \/ n = js "gpt-oss:20b".
Proof.
  unfold isRemoteModel, REMOTE_MODELS. rewrite includes_spec.
  rewrite !elem_of_cons, elem_of_nil. tauto.
Qed.

(** The model-bearing endpoints. *)
Lemma model_route (req : Request) :
  method req = js "POST" ->
  pathname req ∈ [js "/api/generate"; js "/api/chat"; js "/api/embed";
                  js "/api/embeddings"; js "/api/show"] ->
  fetch req =
    match extractModelFromRequest req with
    | Some model =>
      if isRemoteModelValue model then forwardOllamaRequest OLLAMA_HOST true
      else forwardOllamaRequest LOCAL_OLLAMA_HOST false
    | None => forwardOllamaRequest LOCAL_OLLAMA_HOST false
    end.
Proof.
  intros Hm Hp. unfold fetch. rewrite Hm.
  rewrite !elem_of_cons, elem_of_nil in Hp.
  destruct Hp as [Hp|[Hp|[Hp|[Hp|[Hp|[]]]]]]; rewrite Hp; reflexivity.
Qed.

Lemma extract_model_string (req : Request) (s : jsstr) :
  method req = js "POST" ->
  (extractModelFromRequest req = Some (JStr s)
   <-> exists b, body req = Some b /\ get (js "model") b = Some (JStr s) /\ s <> []).
Proof.
  intros Hm. unfold extractModelFromRequest. rewrite Hm.
  change (negb (includes [js "POST"; js "DELETE"] (js "POST"))) with false. cbv iota.
  split.
  - destruct (body req) as [b|]; [|discriminate].
    destruct b; try discriminate.
    all: match goal with
         | |- context [get ?k ?v] => destruct (get k v) as [w|] eqn:Hg; [|discriminate]
         end.
    all: destruct (truthy w) eqn:Ht; [|discriminate].
    all: intros [= ->]; eexists; repeat split; eauto.
    all: intros ->; discriminate.
  - intros (b & -> & Hg & Hs).
    destruct b; try discriminate; rewrite Hg; destruct s; simpl; congruence.
Qed.

End RoutingFacts.

(** C7. [isRemoteModel] is membership in the allowlist of the two remote
    model names, in the model service and in the server alike; a POST to one
    of the five model-bearing endpoints is forwarded to the remote host, with
    the credential, exactly when its body parses to an object whose [model]
    is an allowlisted name, and to the local host otherwise, in particular
    when no model can be read from the body. *)
Theorem isRemoteModel_routes :
  (forall n, Server.isRemoteModel n = true <-> n ∈ [js "gpt-oss:120b"; js "gpt-oss:20b"])
  /\ (forall n, ModelService.isRemoteModel n = Server.isRemoteModel n)
  /\ Server.isRemoteModel (js "gpt-oss:120b") = true
  /\ Server.isRemoteModel (js "llama3") = false
  /\ (forall req,
        Server.method req = js "POST" ->
        Server.pathname req ∈ [js "/api/generate"; js "/api/chat"; js "/api/embed";
                               js "/api/embeddings"; js "/api/show"] ->
        (Server.fetch req = Server.forwardOllamaRequest Server.OLLAMA_HOST true
         <-> exists b s, Server.body req = Some b /\ get (js "model") b = Some (JStr s)
                         /\ s ∈ REMOTE_MODELS)
        /\ (Server.fetch req = Server.forwardOllamaRequest Server.OLLAMA_HOST true
            \/ Server.fetch req = Server.forwardOllamaRequest Server.LOCAL_OLLAMA_HOST false)
        /\ (Server.extractModelFromRequest req = None ->
            Server.fetch req = Server.forwardOllamaRequest Server.LOCAL_OLLAMA_HOST false)).
Proof.
  split; [|split; [|split; [|split]]].
  - intros n. unfold Server.isRemoteModel. apply includes_spec.
  - reflexivity.
  - reflexivity.
  - reflexivity.
  - intros req Hm Hp. rewrite (model_route req Hm Hp).
    split; [|split].
    + split.
      * destruct (Server.extractModelFromRequest req) as [v|] eqn:He; [|discriminate].
        destruct v; simpl; try discriminate.
        destruct (Server.isRemoteModel s) eqn:Hr; [|discriminate].
        intros _. apply (extract_model_string req s Hm) in He.
        destruct He as (b & Hb & Hg & _).
        exists b, s. repeat split; auto.
        apply includes_spec. exact Hr.
      * intros (b & s & Hb & Hg & Hs).
        assert (Hne : s <> []).
        { intros ->. revert Hs. unfold REMOTE_MODELS.
          rewrite !elem_of_cons, elem_of_nil. intros [H|[H|[]]]; discriminate. }
        assert (He : Server.extractModelFromRequest req = Some (JStr s)).
        { apply (extract_model_string req s Hm). eauto. }
        rewrite He. simpl. unfold Server.isRemoteModel.
        apply includes_spec in Hs. rewrite Hs. reflexivity.
    + destruct (Server.extractModelFromRequest req) as [v|]; auto.
      destruct (Server.isRemoteModelValue v); auto.
    + intros ->. reflexivity.
Qed.

Lemma isRemoteModel_routes_witness :
  let req := {| Server.method := js "POST"; Server.pathname := js "/api/chat";
                Server.body := JSON.parse (json_text "{'model':'gpt-oss:20b','stream':false}") |} in
  Server.fetch req = Server.forwardOllamaRequest Server.OLLAMA_HOST true
  \/ Server.fetch req = Server.forwardOllamaRequest Server.LOCAL_OLLAMA_HOST false.
Proof.
  intros req.
  apply (proj1 (proj2 (proj2 (proj2 (proj2 (proj2 isRemoteModel_routes))) req
                         eq_refl ltac:(apply (bool_decide_unpack _); vm_compute; exact I)))).
Defined.

(** ** Model directory *)

Section ModelDirectoryFacts.
Import ModelService.

Lemma fold_dedup_step (ms : list OllamaModel) (seen : gset jsstr) (acc : list OllamaModel) :
  snd (fold_left dedup_step ms (seen, acc)) = acc ++ dedup_from seen ms.
Proof.
  revert seen acc. induction ms as [|m r IH]; intros seen acc; simpl.
  - rewrite app_nil_r. reflexivity.
  - case_bool_decide.
    + apply IH.
    + rewrite IH, <- app_assoc. reflexivity.
Qed.

Lemma filter_filter_and {A} (f g : A -> bool) (l : list A) :
  List.filter f (List.filter g l) = List.filter (fun x => g x && f x) l.
Proof.
  induction l as [|x l IH]; simpl; auto.
  destruct (g x); simpl; [destruct (f x)|]; rewrite ?IH; auto.
Qed.

Lemma dedup_from_filter (ms : list OllamaModel) (seen : gset jsstr) :
  dedup_from seen ms
  = List.filter (fun m => negb (bool_decide (name m ∈ seen))) (dedup_by_name ms).
Proof.
  revert seen. induction ms as [|m r IH]; intros seen; simpl; auto.
  case_bool_decide as Hm; simpl.
  - rewrite IH, filter_filter_and. apply List.filter_ext. intros x.
    destruct (bool_decide (name x = name m)) eqn:E; simpl; auto.
    apply bool_decide_eq_true in E. rewrite E.
    rewrite bool_decide_eq_true_2; auto.
  - f_equal. rewrite IH, filter_filter_and. apply List.filter_ext. intros x.
    destruct (bool_decide (name x = name m)) eqn:E; simpl.
    + apply bool_decide_eq_true in E. rewrite bool_decide_eq_true_2; auto. set_solver.
    + apply bool_decide_eq_false in E.
      destruct (bool_decide (name x ∈ seen)) eqn:F.
      * apply bool_decide_eq_true in F. rewrite bool_decide_eq_true_2; auto. set_solver.
      * apply bool_decide_eq_false in F. rewrite bool_decide_eq_false_2; auto.
        rewrite elem_of_union, elem_of_singleton. tauto.
Qed.

Lemma deduplicateModels_spec (models : list OllamaModel) :
  deduplicateModels models
  = dedup_by_name (List.filter (fun m => negb (isRemoteModel (name m))) models
                   ++ List.filter (fun m => isRemoteModel (name m)) models).
Proof.
  unfold deduplicateModels. rewrite fold_dedup_step, dedup_from_filter. simpl.
  rewrite <- (List.filter_ext (fun _ => true)).
  - induction (dedup_by_name _) as [|x l IH]; simpl; congruence.
  - intros x. rewrite bool_decide_eq_false_2; auto. set_solver.
Qed.

Lemma find_filter_other {A} (p q : A -> bool) (l : list A) :
  (forall x, p x = true -> q x = false) -> List.find p (List.filter q l) = None.
Proof.
  intros H. induction l as [|x l IH]; simpl; auto.
  destruct (q x) eqn:Q; simpl; auto.
  destruct (p x) eqn:P; auto. rewrite (H x P) in Q. discriminate.
Qed.

Lemma find_filter_same {A} (p q : A -> bool) (l : list A) :
  (forall x, p x = true -> q x = true) -> List.find p (List.filter q l) = List.find p l.
Proof.
  intros H. induction l as [|x l IH]; simpl; auto.
  destruct (q x) eqn:Q; simpl.
  - destruct (p x); auto.
  - destruct (p x) eqn:P; auto. rewrite (H x P) in Q. discriminate.
Qed.

Lemma find_app_first {A} (p : A -> bool) (l1 l2 : list A) :
  List.find p (l1 ++ l2)
  = match List.find p l1 with Some x => Some x | None => List.find p l2 end.
Proof. induction l1 as [|x l IH]; simpl; auto. destruct (p x); auto. Qed.

Lemma find_dedup_by_name (n : jsstr) (ms : list OllamaModel) :
  find_by_name n (dedup_by_name ms) = find_by_name n ms.
Proof.
  unfold find_by_name. induction ms as [|m r IH]; simpl; auto.
  case_bool_decide as E; auto.
  rewrite find_filter_same; auto.
  intros x Hx. apply bool_decide_eq_true in Hx.
  rewrite bool_decide_eq_false_2; auto. congruence.
Qed.

Lemma find_partition (n : jsstr) (ms : list OllamaModel) :
  find_by_name n (List.filter (fun m => negb (isRemoteModel (name m))) ms
                  ++ List.filter (fun m => isRemoteModel (name m)) ms)
  = find_by_name n ms.
Proof.
  unfold find_by_name. rewrite find_app_first.
  destruct (isRemoteModel n) eqn:R.
  - rewrite find_filter_other, find_filter_same; auto.
    + intros x Hx. apply bool_decide_eq_true in Hx. congruence.
    + intros x Hx. apply bool_decide_eq_true in Hx. rewrite Hx, R. reflexivity.
  - rewrite find_filter_same.
    + destruct (List.find _ ms) eqn:F; auto.
      apply find_filter_other. intros x Hx.
      apply bool_decide_eq_true in Hx. congruence.
    + intros x Hx. apply bool_decide_eq_true in Hx. rewrite Hx, R. reflexivity.
Qed.

Lemma filter_all {A} (p : A -> bool) (l : list A) :
  (forall x, x ∈ l -> p x = true) -> List.filter p l = l.
Proof.
  induction l as [|x l IH]; intros H; simpl; auto.
  rewrite (H x) by set_solver. f_equal. apply IH. intros y Hy. apply H. set_solver.
Qed.

Lemma filter_none {A} (p : A -> bool) (l : list A) :
  (forall x, x ∈ l -> p x = false) -> List.filter p l = [].
Proof.
  induction l as [|x l IH]; intros H; simpl; auto.
  rewrite (H x) by set_solver. apply IH. intros y Hy. apply H. set_solver.
Qed.

Lemma elem_of_filter_true {A} (p : A -> bool) (l : list A) (x : A) :
  x ∈ List.filter p l -> p x = true.
Proof.
  induction l as [|y l IH]; simpl.
  - intros H. inversion H.
  - destruct (p y) eqn:P; auto. intros H. apply elem_of_cons in H as [->|H]; auto.
Qed.

End ModelDirectoryFacts.

(** C6, as stated, fails: a local model that carries an allowlisted name is
    listed after the local models that do not, whatever its position in the
    local list. *)
Lemma getUnifiedModels_order_counterexample :
  let localModels := [tagged_model "gpt-oss:120b" "local"; tagged_model "llama3" "local"] in
  ModelService.getUnifiedModels (ModelService.TagsOk (Some localModels))
                                (ModelService.TagsOk (Some []))
  = [tagged_model "llama3" "local"; tagged_model "gpt-oss:120b" "local"]
  /\ ModelService.spec_listUnified localModels []
     = [tagged_model "gpt-oss:120b" "local"; tagged_model "llama3" "local"]
  /\ ModelService.getUnifiedModels (ModelService.TagsOk (Some localModels))
                                   (ModelService.TagsOk (Some []))
     <> ModelService.spec_listUnified localModels [].
Proof. vm_compute. repeat split; discriminate. Qed.

(** C6, amended. [getUnifiedModels] keeps the first entry of every name of
    the local list followed by the allowlist-filtered remote list, so that a
    name present in both sources resolves to the local entry; the entries
    whose name is not allowlisted come first and those whose name is
    allowlisted follow, each group in concatenation order; this is the
    local-first concatenation order whenever no local model carries an
    allowlisted name.  The two examples of the specification hold. *)
Theorem getUnifiedModels_first_wins :
  forall localModels remoteModels,
    let filtered :=
      List.filter (fun m => includes REMOTE_MODELS (ModelService.name m)) remoteModels in
    let all := localModels ++ filtered in
    let result := ModelService.getUnifiedModels (ModelService.TagsOk (Some localModels))
                                                (ModelService.TagsOk (Some remoteModels)) in
    result = ModelService.dedup_by_name
               (List.filter (fun m => negb (ModelService.isRemoteModel (ModelService.name m))) all
                ++ List.filter (fun m => ModelService.isRemoteModel (ModelService.name m)) all)
    /\ (forall n, ModelService.find_by_name n result = ModelService.find_by_name n all)
    /\ ((forall m, m ∈ localModels -> ModelService.isRemoteModel (ModelService.name m) = false) ->
        result = ModelService.spec_listUnified localModels remoteModels)
    /\ ModelService.getUnifiedModels
         (ModelService.TagsOk (Some [tagged_model "dup" "local"]))
         (ModelService.TagsOk (Some [tagged_model "dup" "remote"]))
       = [tagged_model "dup" "local"]
    /\ ModelService.getUnifiedModels
         (ModelService.TagsOk (Some [tagged_model "llama3" "local"]))
         (ModelService.TagsOk (Some [tagged_model "gpt-oss:120b" "remote"]))
       = [tagged_model "llama3" "local"; tagged_model "gpt-oss:120b" "remote"].
Proof.
  intros localModels remoteModels filtered all result.
  assert (Hres : result = ModelService.dedup_by_name
               (List.filter (fun m => negb (ModelService.isRemoteModel (ModelService.name m))) all
                ++ List.filter (fun m => ModelService.isRemoteModel (ModelService.name m)) all)).
  { subst result. unfold ModelService.getUnifiedModels. simpl.
    apply deduplicateModels_spec. }
  split; [exact Hres|]. split; [|split; [|split]].
  - intros n. rewrite Hres, find_dedup_by_name. apply find_partition.
  - intros Hloc. rewrite Hres. unfold ModelService.spec_listUnified. fold filtered.
    f_equal. subst all. rewrite !List.filter_app.
    rewrite (filter_all _ localModels), (filter_none _ filtered),
            (filter_none _ localModels), (filter_all _ filtered).
    + rewrite app_nil_r. reflexivity.
    + intros x Hx. apply elem_of_filter_true in Hx. exact Hx.
    + intros x Hx. apply Hloc. exact Hx.
    + intros x Hx. apply elem_of_filter_true in Hx.
      unfold ModelService.isRemoteModel. rewrite Hx. reflexivity.
    + intros x Hx. rewrite (Hloc x Hx). reflexivity.
  - vm_compute. reflexivity.
  - vm_compute. reflexivity.
Qed.

Lemma getUnifiedModels_first_wins_witness :
  ModelService.getUnifiedModels
    (ModelService.TagsOk (Some [tagged_model "llama3" "local"; tagged_model "qwen3" "local"]))
    (ModelService.TagsOk (Some [tagged_model "gpt-oss:20b" "remote"; tagged_model "other" "remote"]))
  = ModelService.spec_listUnified
      [tagged_model "llama3" "local"; tagged_model "qwen3" "local"]
      [tagged_model "gpt-oss:20b" "remote"; tagged_model "other" "remote"].
Proof.
  apply (proj1 (proj2 (proj2 (getUnifiedModels_first_wins
           [tagged_model "llama3" "local"; tagged_model "qwen3" "local"]
           [tagged_model "gpt-oss:20b" "remote"; tagged_model "other" "remote"])))).
  intros m Hm. apply elem_of_cons in Hm as [->|Hm]; [reflexivity|].
  apply elem_of_cons in Hm as [->|Hm]; [reflexivity|]. inversion Hm.
Defined.

(** ** Non-streaming completions *)

Section NonStreamingFacts.
Import Chat.

Lemma stringify_response_nonempty (s : jsstr) : stringify_response s <> [].
Proof. unfold stringify_response. simpl. discriminate. Qed.

Lemma placeholder_nonempty : placeholder <> [].
Proof. discriminate. Qed.

Lemma parse_empty : JSON.parse [] = None.
Proof. reflexivity. Qed.

Lemma normalizeContent_nonempty (req : OpenAIChatRequest) (o : OllamaChatResponse) :
  req_tools req = None -> normalizeContent req o <> [].
Proof.
  intros Ht. unfold normalizeContent. rewrite Ht.
  destruct (is_json_object _).
  - destruct (JSON.parse (backendContent o)) eqn:P.
    + destruct (backendContent o); [discriminate P | discriminate].
    + pose proof (stringify_response_nonempty (backendContent o)).
      destruct (stringify_response _); [contradiction | discriminate].
  - destruct (backendContent o); discriminate.
Qed.

End NonStreamingFacts.

(** C4, as stated, fails: whitespace-only content of a plain chat turn is
    returned as it is, not replaced by the placeholder. *)
Lemma nonstreaming_whitespace_counterexample :
  let req := plain_request "llama3" (MessagesArray [user_message "hi"]) (Some false) in
  trim [32; 32] = []
  /\ req_tools req = None
  /\ exists r,
       Chat.handleNonStreamingChat fresh0 (Chat.Completed (reply [32; 32])) (js "llama3") req
       = ChatCompletion r
       /\ envelope_content r = Some [32; 32]
       /\ envelope_content r <> Some Chat.placeholder.
Proof.
  split; [reflexivity|]. split; [reflexivity|].
  eexists. split; [reflexivity|]. split; [reflexivity|]. discriminate.
Qed.

(** C4, amended. When the backend call completes, [handleNonStreamingChat]
    returns an envelope with a single choice whose message has role
    [assistant] and whose finish reason is [stop].  If the backend content is
    missing or the empty string, the request has no [tools] and did not ask
    for [json_object], the content is the fixed placeholder; content that is
    not empty, whitespace-only content included, is returned unchanged
    unless [json_object] was requested; the content is never empty when
    [tools] is absent. *)
Theorem nonstreaming_envelope :
  forall fresh model req o,
  exists r c,
    Chat.handleNonStreamingChat fresh (Chat.Completed o) model req = ChatCompletion r
    /\ resp_choices r =
         [ {| choice_index := 0;
              choice_message := {| msg_role := js "assistant"; msg_content := c |};
              choice_finish_reason := Some (js "stop") |} ]
    /\ resp_model r = model
    /\ (req_tools req = None -> c <> [])
    /\ (Chat.backendContent o = [] -> req_tools req = None ->
        Chat.is_json_object (req_response_format req) = false ->
        c = Chat.placeholder /\ Chat.placeholder <> [])
    /\ (Chat.backendContent o <> [] ->
        Chat.is_json_object (req_response_format req) = false ->
        c = Chat.backendContent o).
Proof.
  intros fresh model req o.
  eexists. exists (Chat.normalizeContent req o).
  split; [reflexivity|]. split; [reflexivity|]. split; [reflexivity|].
  split; [apply normalizeContent_nonempty|]. split.
  - intros Hc Ht Hj. unfold Chat.normalizeContent. rewrite Hc, Ht, Hj.
    split; [reflexivity | discriminate].
  - intros Hc Hj. unfold Chat.normalizeContent. rewrite Hj.
    destruct (Chat.backendContent o); [contradiction | reflexivity].
Qed.

Lemma nonstreaming_envelope_witness :
  let req := plain_request "llama3" (MessagesArray [user_message "hi"]) None in
  exists r c,
    Chat.handleNonStreamingChat fresh0 (Chat.Completed (reply [])) (js "llama3") req
    = ChatCompletion r
    /\ envelope_content r = Some c /\ c = Chat.placeholder /\ c <> [].
Proof.
  intros req.
  destruct (nonstreaming_envelope fresh0 (js "llama3") req (reply []))
    as (r & c & Hr & Hc & _ & Hne & Hp & _).
  exists r, c. split; [exact Hr|]. split.
  - unfold envelope_content. rewrite Hc. reflexivity.
  - split; [apply Hp; reflexivity | apply Hne; reflexivity].
Defined.

(** ** Dispatcher *)

Section DispatcherFacts.
Import Chat.

Lemma openai_model_ids (l r : ModelService.TagsResult) :
  List.map ModelService.id (ModelService.getOpenAIModels l r)
  = List.map ModelService.name (ModelService.getUnifiedModels l r).
Proof.
  unfold ModelService.getOpenAIModels. rewrite List.map_map. reflexivity.
Qed.

(** The dispatch of an accepted request. *)
Lemma dispatch_accepted cfg backend fresh consumer req body model messages :
  accepted backend req body model messages ->
  handleChatCompletions cfg backend fresh consumer req
  = let ollamaRequest := buildOllamaRequest cfg model messages body in
    if default false (req_stream body) && OLLAMA_STREAM cfg then
      handleStreamingChat fresh model consumer (chatStream backend ollamaRequest)
    else
      handleNonStreamingChat fresh (chat backend ollamaRequest) model body.
Proof.
  intros (Ha & Hb & Hv & Hm & Hms & Hav & Hp).
  unfold handleChatCompletions. rewrite Ha, Hb, Hv, Hp, Hm, Hms, openai_model_ids.
  simpl. unfold validateModel.
  replace (includes _ model) with true
    by (symmetry; apply includes_spec; exact Hav).
  reflexivity.
Qed.

Lemma nonstreaming_single_json fresh result model body :
  single_json_body (handleNonStreamingChat fresh result model body) = true.
Proof. destruct result as [| ? ? [|] | |]; reflexivity. Qed.

Lemma validateMessages_single_json i messages e :
  validateMessages i messages = Some e -> single_json_body e = true.
Proof.
  revert i. induction messages as [|m r IH]; intros i; simpl; [discriminate|].
  destruct (validateMessage i m) eqn:V.
  - intros [= <-]. unfold validateMessage in V.
    destruct (truthy_str (role m)); [|injection V as <-; reflexivity].
    repeat match type of V with
           | (if ?c then _ else _) = _ => destruct c; [injection V as <-; reflexivity|]
           end.
    discriminate.
  - apply IH.
Qed.

Lemma validateRequest_single_json body e :
  validateRequest body = Some e -> single_json_body e = true.
Proof.
  unfold validateRequest.
  destruct (truthy_str (req_model body)); [|intros [= <-]; reflexivity].
  destruct (req_messages body) as [| |[|m r]]; try (intros [= <-]; reflexivity).
  apply validateMessages_single_json.
Qed.

Lemma validateParameters_single_json body e :
  validateParameters body = Some e -> single_json_body e = true.
Proof.
  unfold validateParameters, reject_if.
  repeat match goal with
         | |- (if ?c then _ else _) = _ -> _ => destruct c; [intros [= <-]; reflexivity|]
         end.
  discriminate.
Qed.

Lemma validateAuth_single_json h e :
  validateAuth h = Some e -> single_json_body e = true.
Proof.
  unfold validateAuth. destruct h as [[|c t]|]; try discriminate.
  destruct (negb _); [intros [= <-]; reflexivity|].
  destruct (_ =? _)%nat; [intros [= <-]; reflexivity | discriminate].
Qed.

End DispatcherFacts.

(** C10. A request that passes the checks of [handleChatCompletions] is
    handed to the streaming handler exactly when both its [stream] field and
    [OLLAMA_STREAM] are true, and the flag sent to the backend is that
    conjunction; with [OLLAMA_STREAM] false every request, [stream: true]
    included, gets a single JSON body, which for an accepted request is the
    result of the non-streaming handler. *)
Theorem effective_stream_is_conjunction :
  forall cfg backend fresh consumer req,
    (forall body model messages,
        accepted backend req body model messages ->
        let ollamaRequest := Chat.buildOllamaRequest cfg model messages body in
        Chat.oreq_stream ollamaRequest
        = default false (req_stream body) && Chat.OLLAMA_STREAM cfg
        /\ Chat.handleChatCompletions cfg backend fresh consumer req
           = if default false (req_stream body) && Chat.OLLAMA_STREAM cfg then
               Chat.handleStreamingChat fresh model consumer
                                        (Chat.chatStream backend ollamaRequest)
             else
               Chat.handleNonStreamingChat fresh (Chat.chat backend ollamaRequest) model body)
    /\ (Chat.OLLAMA_STREAM cfg = false ->
        single_json_body (Chat.handleChatCompletions cfg backend fresh consumer req) = true
        /\ forall body model messages,
            accepted backend req body model messages ->
            Chat.handleChatCompletions cfg backend fresh consumer req
            = Chat.handleNonStreamingChat
                fresh (Chat.chat backend (Chat.buildOllamaRequest cfg model messages body))
                model body
            /\ Chat.oreq_stream (Chat.buildOllamaRequest cfg model messages body) = false
            /\ (forall o,
                  Chat.chat backend (Chat.buildOllamaRequest cfg model messages body)
                  = Chat.Completed o ->
                  exists r, Chat.handleChatCompletions cfg backend fresh consumer req
                            = ChatCompletion r)).
Proof.
  intros cfg backend fresh consumer req. split.
  - intros body model messages Hacc ollamaRequest. split; [reflexivity|].
    apply (dispatch_accepted cfg backend fresh consumer req body model messages Hacc).
  - intros Hoff. split.
    + unfold Chat.handleChatCompletions.
      destruct (validateAuth _) eqn:Ha; [eapply validateAuth_single_json; eauto|].
      destruct (Chat.json_body req) as [msg|body]; [reflexivity|].
      destruct (validateRequest body) eqn:Hv; [eapply validateRequest_single_json; eauto|].
      destruct (negb _); [reflexivity|].
      destruct (validateParameters body) eqn:Hp;
        [eapply validateParameters_single_json; eauto|].
      unfold Chat.effectiveStream. rewrite Hoff, andb_false_r.
      apply nonstreaming_single_json.
    + intros body model messages Hacc.
      rewrite (dispatch_accepted cfg backend fresh consumer req body model messages Hacc).
      simpl. unfold Chat.effectiveStream. rewrite Hoff, andb_false_r.
      split; [reflexivity|]. split; [reflexivity|].
      intros o Ho.
      change (default false (req_stream body) && false)
        with (Chat.oreq_stream
                (Chat.buildOllamaRequest {| Chat.OLLAMA_STREAM := false |} model messages body)).
      destruct cfg as [flag]. simpl in Hoff. subst flag. rewrite Ho.
      eexists. reflexivity.
Qed.

Lemma effective_stream_is_conjunction_witness :
  let cfg := {| Chat.OLLAMA_STREAM := false |} in
  let body := plain_request "llama3" (MessagesArray [user_message "hi"]) (Some true) in
  let req := chat_request (Some (js "Bearer sk-test")) body in
  single_json_body (Chat.handleChatCompletions cfg backend0 fresh0 never_cancels req) = true
  /\ Chat.handleChatCompletions cfg backend0 fresh0 never_cancels req
     = Chat.handleNonStreamingChat
         fresh0
         (Chat.chat backend0 (Chat.buildOllamaRequest cfg (js "llama3") [user_message "hi"] body))
         (js "llama3") body.
Proof.
  intros cfg body req.
  destruct (effective_stream_is_conjunction cfg backend0 fresh0 never_cancels req)
    as [_ Hoff].
  destruct (Hoff eq_refl) as [Hjson Hns]. split; [exact Hjson|].
  apply (Hns body (js "llama3") [user_message "hi"]).
  repeat split; try reflexivity.
  apply (bool_decide_unpack _). vm_compute. exact I.
Defined.

(** C9, as stated, fails: [validateRequest] tests [model] before
    [messages], so a body that lacks both is answered with
    [error.param = model]; and the credential is checked before the body is
    read, so a request with an [Authorization] header that is not a bearer
    token is answered with status 401 whatever its body. *)
Lemma invalid_requests_param_counterexample :
  Chat.handleChatCompletions {| Chat.OLLAMA_STREAM := true |} backend0 fresh0 never_cancels
    (chat_request None
       {| req_model := None; req_messages := MessagesMissing;
          req_temperature := None; req_max_tokens := None; req_top_p := None;
          req_frequency_penalty := None; req_presence_penalty := None;
          req_stream := None; req_stop := None; req_n := None;
          req_tools := None; req_response_format := None |})
  = ErrorResponse 400
      {| err_message := js "Missing required parameter: model";
         err_type := js "invalid_request_error";
         err_param := Some (js "model"); err_code := None |}
  /\ Chat.handleChatCompletions {| Chat.OLLAMA_STREAM := true |} backend0 fresh0 never_cancels
       (chat_request (Some (js "Basic dXNlcjpwdw"))
                     (plain_request "llama3" MessagesMissing None))
     = auth_error
  /\ (exists e, auth_error = ErrorResponse 401 e).
Proof.
  split; [vm_compute; reflexivity|]. split; [vm_compute; reflexivity|].
  eexists. reflexivity.
Qed.

(** C9, amended. A request whose [Authorization] header is rejected is
    answered with status 401.  Once the credential is accepted and the body
    is read, a body whose [messages] is missing, is not an array or is the
    empty array is answered with status 400 and an
    [invalid_request_error], with [error.param = messages] when it names a
    model and [error.param = model] when it does not (the check of [model]
    comes first); a body that passes [validateRequest] but names a model that
    is not in the unified model list is answered with status 404 and a
    message that contains the model name. *)
Theorem invalid_requests_rejected :
  forall cfg backend fresh consumer req,
    (forall error,
        validateAuth (Chat.authorization req) = Some error ->
        Chat.handleChatCompletions cfg backend fresh consumer req = error
        /\ exists e, error = ErrorResponse 401 e)
    /\ (forall body,
          validateAuth (Chat.authorization req) = None ->
          Chat.json_body req = Chat.BodyValue body ->
          ((req_messages body = MessagesMissing \/ req_messages body = MessagesNotArray
            \/ req_messages body = MessagesArray []) ->
           exists e,
             Chat.handleChatCompletions cfg backend fresh consumer req = ErrorResponse 400 e
             /\ validateRequest body = Some (ErrorResponse 400 e)
             /\ err_type e = js "invalid_request_error"
             /\ (forall model, req_model body = Some model -> model <> [] ->
                               err_param e = Some (js "messages"))
             /\ (req_model body = None \/ req_model body = Some [] ->
                 err_param e = Some (js "model")))
          /\ (forall model,
                 req_model body = Some model ->
                 validateRequest body = None ->
                 model ∉ availableModels backend ->
                 exists e, Chat.handleChatCompletions cfg backend fresh consumer req
                           = ErrorResponse 404 e
                           /\ contains model (err_message e)
                           /\ err_message e
                              = js "The model '" ++ model ++ js "' does not exist")).
Proof.
  intros cfg backend fresh consumer req. split.
  - intros error Ha. unfold Chat.handleChatCompletions. rewrite Ha.
    split; [reflexivity|].
    unfold validateAuth in Ha. destruct (Chat.authorization req) as [[|c r]|]; try discriminate.
    repeat match type of Ha with
           | context [if ?c then _ else _] => destruct c
           end; try discriminate; injection Ha as <-; eexists; reflexivity.
  - intros body Ha Hb. split.
    + intros Hmsg. unfold Chat.handleChatCompletions. rewrite Ha, Hb.
      unfold validateRequest.
      destruct (truthy_str (req_model body)) as [m|] eqn:Ht.
      * eexists. split; [|split; [|split; [|split]]].
        -- destruct Hmsg as [-> | [-> | ->]]; reflexivity.
        -- destruct Hmsg as [-> | [-> | ->]]; reflexivity.
        -- reflexivity.
        -- intros model Hm Hne. reflexivity.
        -- intros [Hm | Hm]; rewrite Hm in Ht; discriminate.
      * eexists. split; [reflexivity|]. split; [reflexivity|]. split; [reflexivity|].
        split; [|reflexivity].
        intros model Hm Hne. rewrite Hm in Ht. destruct model; [contradiction | discriminate].
    + intros model Hm Hv Hav. eexists.
      unfold Chat.handleChatCompletions.
      rewrite Ha, Hb, Hv, Hm, openai_model_ids. simpl. unfold validateModel.
      replace (includes _ model) with false.
      * split; [reflexivity|]. split; [|reflexivity].
        exists (js "The model '"), (js "' does not exist"). reflexivity.
      * symmetry. apply not_true_is_false. rewrite includes_spec. exact Hav.
Qed.

Lemma invalid_requests_rejected_witness :
  (exists e,
      Chat.handleChatCompletions {| Chat.OLLAMA_STREAM := true |} backend0 fresh0 never_cancels
        (chat_request None (plain_request "llama3" MessagesMissing None))
      = ErrorResponse 400 e
      /\ err_param e = Some (js "messages"))
  /\ (exists e,
         Chat.handleChatCompletions {| Chat.OLLAMA_STREAM := true |} backend0 fresh0 never_cancels
           (chat_request None (plain_request "mistral" (MessagesArray [user_message "hi"]) None))
         = ErrorResponse 404 e
         /\ contains (js "mistral") (err_message e))
  /\ (exists e,
         Chat.handleChatCompletions {| Chat.OLLAMA_STREAM := true |} backend0 fresh0 never_cancels
           (chat_request (Some (js "Basic dXNlcjpwdw"))
                         (plain_request "llama3" MessagesMissing None))
         = ErrorResponse 401 e).
Proof.
  split; [|split].
  - destruct (invalid_requests_rejected {| Chat.OLLAMA_STREAM := true |} backend0 fresh0
                never_cancels (chat_request None (plain_request "llama3" MessagesMissing None)))
      as [_ H].
    destruct (H (plain_request "llama3" MessagesMissing None) eq_refl eq_refl) as [H1 _].
    destruct (H1 (or_introl eq_refl)) as (e & He & _ & _ & Hp & _). exists e.
    split; [exact He|]. apply (Hp (js "llama3") eq_refl). discriminate.
  - destruct (invalid_requests_rejected {| Chat.OLLAMA_STREAM := true |} backend0 fresh0
                never_cancels
                (chat_request None
                   (plain_request "mistral" (MessagesArray [user_message "hi"]) None)))
      as [_ H].
    destruct (H (plain_request "mistral" (MessagesArray [user_message "hi"]) None)
                eq_refl eq_refl) as [_ H2].
    assert (Hout : js "mistral" ∉ availableModels backend0)
      by (apply (bool_decide_unpack _); vm_compute; exact I).
    destruct (H2 (js "mistral") eq_refl eq_refl Hout) as (e & He & Hc & _). exists e. auto.
  - destruct (invalid_requests_rejected {| Chat.OLLAMA_STREAM := true |} backend0 fresh0
                never_cancels
                (chat_request (Some (js "Basic dXNlcjpwdw"))
                              (plain_request "llama3" MessagesMissing None)))
      as [H _].
    destruct (H auth_error eq_refl) as [He (e & Hs)]. exists e. rewrite He. exact Hs.
Defined.

(** ** The recursion bound of [JSON.parse] *)

Section Fuel.

Lemma skip_ws_length (s : jsstr) : (length (skip_ws s) <= length s)%nat.
Proof.
  induction s as [|c s IH]; simpl; auto.
  destruct (is_json_ws c); simpl; lia.
Qed.

Lemma parse_chars_length_bounded (n : nat) :
  forall (s t rest : jsstr),
    (length s <= n)%nat -> parse_chars s = Some (t, rest) -> (length rest < length s)%nat.
Proof.
  induction n as [|n IH]; intros s t rest Hn.
  - destruct s; [discriminate | simpl in Hn; lia].
  - destruct s as [|c r]; [discriminate|]. cbn [parse_chars]. simpl in Hn.
    destruct (c =? 34); [intros [= <- <-]; simpl; lia|].
    destruct (c =? 92).
    + destruct r as [|e r']; [discriminate|].
      destruct (e =? 117).
      * destruct r' as [|h1 [|h2 [|h3 [|h4 r'']]]]; try discriminate.
        destruct (hex4 h1 h2 h3 h4); [|discriminate].
        destruct (parse_chars r'') as [[t' rest']|] eqn:P; [|discriminate].
        intros [= <- <-]. apply IH in P; simpl in *; lia.
      * destruct (unescape e); [|discriminate].
        destruct (parse_chars r') as [[t' rest']|] eqn:P; [|discriminate].
        intros [= <- <-]. apply IH in P; simpl in *; lia.
    + destruct (c <? 32); [discriminate|].
      destruct (parse_chars r) as [[t' rest']|] eqn:P; [|discriminate].
      intros [= <- <-]. apply IH in P; simpl in *; lia.
Qed.

Lemma parse_chars_length (s t rest : jsstr) :
  parse_chars s = Some (t, rest) -> (length rest < length s)%nat.
Proof. apply (parse_chars_length_bounded (length s)). lia. Qed.

Lemma digits_length (acc : N) (s : jsstr) :
  (length (snd (digits acc s)) <= length s)%nat.
Proof.
  revert acc. induction s as [|c s IH]; intros acc; simpl; auto.
  destruct (is_digit c); simpl; auto.
  specialize (IH (acc * 10 + (c - 48))).
  destruct (digits (acc * 10 + (c - 48)) s) as [[v n] rest]. simpl in *. lia.
Qed.

Lemma strip_prefix_length (p s rest : jsstr) :
  strip_prefix p s = Some rest -> (length rest <= length s)%nat.
Proof.
  revert s. induction p as [|a p IH]; intros s; simpl.
  - intros [= <-]. lia.
  - destruct s as [|b s]; [discriminate|]. destruct (a =? b); [|discriminate].
    intros H. apply IH in H. simpl. lia.
Qed.

Lemma parse_number_length (s rest : jsstr) (x : number) :
  parse_number s = Some (x, rest) -> (length rest < length s)%nat.
Proof.
  unfold parse_number.
  set (p := match s with
            | c :: r => if c =? 45 then (true, r) else (false, s)
            | [] => (false, s)
            end).
  assert (Hp : (length (snd p) <= length s)%nat).
  { subst p. destruct s as [|c r]; simpl; auto. destruct (c =? 45); simpl; lia. }
  destruct p as [sg s1]. simpl in Hp.
  destruct (parse_int s1) as [[i s2]|] eqn:Pi; [|discriminate].
  assert (H2 : (length s2 < length s1)%nat).
  { unfold parse_int in Pi. destruct s1 as [|c r]; [discriminate|].
    destruct (c =? 48); [injection Pi as <- <-; simpl; lia|].
    destruct (is_digit c); [|discriminate].
    pose proof (digits_length (c - 48) r) as D.
    destruct (digits (c - 48) r) as [[v n] rest']. injection Pi as <- <-.
    simpl in *. lia. }
  destruct (parse_frac i s2) as [[[m k] s3]|] eqn:Pf; [|discriminate].
  assert (H3 : (length s3 <= length s2)%nat).
  { unfold parse_frac in Pf. destruct s2 as [|c r]; [injection Pf as <- <- <-; lia|].
    destruct (c =? 46).
    - pose proof (digits_length i r) as D.
      destruct (digits i r) as [[v n] rest']. destruct n; [discriminate|].
      injection Pf as <- <- <-. simpl in *. lia.
    - injection Pf as <- <- <-. lia. }
  destruct (parse_exp s3) as [[e s4]|] eqn:Pe; [|discriminate].
  assert (H4 : (length s4 <= length s3)%nat).
  { unfold parse_exp in Pe. destruct s3 as [|c r]; [injection Pe as <- <-; lia|].
    destruct ((c =? 101) || (c =? 69)).
    - set (q := match r with
                | d :: r' => if d =? 45 then (true, r')
                             else if d =? 43 then (false, r') else (false, r)
                | [] => (false, r)
                end) in *.
      assert (Hq : (length (snd q) <= length r)%nat).
      { subst q. destruct r as [|d r']; simpl; auto.
        destruct (d =? 45); simpl; [lia|]. destruct (d =? 43); simpl; lia. }
      destruct q as [sgn r1]. simpl in Hq.
      pose proof (digits_length 0 r1) as D.
      destruct (digits 0 r1) as [[v n] rest']. destruct n; [discriminate|].
      injection Pe as <- <-. simpl in *. lia.
    - injection Pe as <- <-. lia. }
  intros [= <- <-]. lia.
Qed.


Lemma parse_elements_fuel (f : nat) :
  (forall (s : jsstr) v (r : jsstr),
      parse_value f s = Some (v, r) ->
      (length r < length s)%nat
      /\ forall f', (length s - length r <= f')%nat -> parse_value f' s = Some (v, r)) ->
  forall (n : nat) (s : jsstr) vs (r : jsstr),
    parse_elements (parse_value f) n s = Some (vs, r) ->
    (length r < length s)%nat
    /\ forall f' n', (length s - length r <= f')%nat -> (length s - length r <= n')%nat ->
                     parse_elements (parse_value f') n' s = Some (vs, r).
Proof.
  intros Hpv. induction n as [|n IH]; intros s vs r; [discriminate|].
  cbn [parse_elements].
  destruct (parse_value f s) as [[v r1]|] eqn:Pv; [|discriminate].
  destruct (Hpv s v r1 Pv) as [L1 S1].
  pose proof (skip_ws_length r1) as Lw.
  destruct (skip_ws r1) as [|c r'] eqn:Hw; [discriminate|]. simpl in Lw.
  destruct (c =? 93) eqn:C93.
  - intros [= <- <-]. split; [lia|].
    intros f' n' Hf' Hn'. destruct n' as [|n']; [lia|].
    cbn [parse_elements]. rewrite (S1 f') by lia. rewrite Hw, C93. reflexivity.
  - destruct (c =? 44) eqn:C44; [|discriminate].
    destruct (parse_elements (parse_value f) n r') as [[vs' rest]|] eqn:Pe; [|discriminate].
    destruct (IH r' vs' rest Pe) as [L2 S2].
    intros [= <- <-]. split; [lia|].
    intros f' n' Hf' Hn'. destruct n' as [|n']; [lia|].
    cbn [parse_elements]. rewrite (S1 f') by lia. rewrite Hw, C93, C44.
    rewrite (S2 f' n') by lia. reflexivity.
Qed.

Lemma parse_members_fuel (f : nat) :
  (forall (s : jsstr) v (r : jsstr),
      parse_value f s = Some (v, r) ->
      (length r < length s)%nat
      /\ forall f', (length s - length r <= f')%nat -> parse_value f' s = Some (v, r)) ->
  forall (n : nat) (s : jsstr) ms (r : jsstr),
    parse_members (parse_value f) n s = Some (ms, r) ->
    (length r < length s)%nat
    /\ forall f' n', (length s - length r <= f')%nat -> (length s - length r <= n')%nat ->
                     parse_members (parse_value f') n' s = Some (ms, r).
Proof.
  intros Hpv. induction n as [|n IH]; intros s ms r; [discriminate|].
  cbn [parse_members].
  pose proof (skip_ws_length s) as L0.
  destruct (skip_ws s) as [|q r0] eqn:H0; [discriminate|]. simpl in L0.
  destruct (q =? 34) eqn:Q; [|discriminate].
  destruct (parse_chars r0) as [[k r1]|] eqn:Pk; [|discriminate].
  pose proof (parse_chars_length _ _ _ Pk) as L1.
  pose proof (skip_ws_length r1) as L2.
  destruct (skip_ws r1) as [|c r2] eqn:H1; [discriminate|]. simpl in L2.
  destruct (c =? 58) eqn:C; [|discriminate].
  destruct (parse_value f r2) as [[v r3]|] eqn:Pv; [|discriminate].
  destruct (Hpv r2 v r3 Pv) as [L3 S3].
  pose proof (skip_ws_length r3) as L4.
  destruct (skip_ws r3) as [|d r4] eqn:H3; [discriminate|]. simpl in L4.
  destruct (d =? 125) eqn:D125.
  - intros [= <- <-]. split; [lia|].
    intros f' n' Hf' Hn'. destruct n' as [|n']; [lia|].
    cbn [parse_members]. rewrite H0, Q, Pk, H1, C. rewrite (S3 f') by lia.
    rewrite H3, D125. reflexivity.
  - destruct (d =? 44) eqn:D44; [|discriminate].
    destruct (parse_members (parse_value f) n r4) as [[ms' rest]|] eqn:Pm; [|discriminate].
    destruct (IH r4 ms' rest Pm) as [L5 S5].
    intros [= <- <-]. split; [lia|].
    intros f' n' Hf' Hn'. destruct n' as [|n']; [lia|].
    cbn [parse_members]. rewrite H0, Q, Pk, H1, C. rewrite (S3 f') by lia.
    rewrite H3, D125, D44. rewrite (S5 f' n') by lia. reflexivity.
Qed.

(** A successful parse consumes input, and every amount of fuel that is at
    least the number of code units consumed gives the same result. *)
Lemma parse_value_fuel (f : nat) :
  forall (s : jsstr) v (r : jsstr),
    parse_value f s = Some (v, r) ->
    (length r < length s)%nat
    /\ forall f', (length s - length r <= f')%nat -> parse_value f' s = Some (v, r).
Proof.
  induction f as [|f IH]; intros s v r; [discriminate|].
  cbn [parse_value].
  pose proof (skip_ws_length s) as L0.
  destruct (skip_ws s) as [|c r0] eqn:H0; [discriminate|]. simpl in L0.
  destruct (c =? 123) eqn:C123.
  { pose proof (skip_ws_length r0) as L1.
    destruct (skip_ws r0) as [|d r'] eqn:H1; [discriminate|]. simpl in L1.
    destruct (d =? 125) eqn:D.
    - intros [= <- <-]. split; [lia|].
      intros f' Hf'. destruct f' as [|f']; [lia|].
      cbn [parse_value]. rewrite H0, C123, H1, D. reflexivity.
    - destruct (parse_members (parse_value f) f r0) as [[ms rest]|] eqn:Pm; [|discriminate].
      destruct (parse_members_fuel f IH f r0 ms rest Pm) as [L2 S2].
      intros [= <- <-]. split; [lia|].
      intros f' Hf'. destruct f' as [|f']; [lia|].
      cbn [parse_value]. rewrite H0, C123, H1, D. rewrite (S2 f' f') by lia. reflexivity. }
  destruct (c =? 91) eqn:C91.
  { pose proof (skip_ws_length r0) as L1.
    destruct (skip_ws r0) as [|d r'] eqn:H1; [discriminate|]. simpl in L1.
    destruct (d =? 93) eqn:D.
    - intros [= <- <-]. split; [lia|].
      intros f' Hf'. destruct f' as [|f']; [lia|].
      cbn [parse_value]. rewrite H0, C123, C91, H1, D. reflexivity.
    - destruct (parse_elements (parse_value f) f r0) as [[vs rest]|] eqn:Pe; [|discriminate].
      destruct (parse_elements_fuel f IH f r0 vs rest Pe) as [L2 S2].
      intros [= <- <-]. split; [lia|].
      intros f' Hf'. destruct f' as [|f']; [lia|].
      cbn [parse_value]. rewrite H0, C123, C91, H1, D. rewrite (S2 f' f') by lia.
      reflexivity. }
  assert (Hflat : forall (body : option (json * jsstr)),
             (forall v' (r' : jsstr), body = Some (v', r') -> (length r' <= length r0)%nat) ->
             (forall f', parse_value (S f') s = body) ->
             body = Some (v, r) ->
             (length r < length s)%nat
             /\ forall f', (length s - length r <= f')%nat -> parse_value f' s = Some (v, r)).
  { intros body Hlen Hfuel Hb. pose proof (Hlen v r Hb) as L. split; [lia|].
    intros f' Hf'. destruct f' as [|f']; [lia|]. rewrite Hfuel. exact Hb. }
  destruct (c =? 34) eqn:C34.
  { apply Hflat.
    - intros v' r'. destruct (parse_chars r0) as [[t rest]|] eqn:P; [|discriminate].
      intros [= <- <-]. apply parse_chars_length in P. lia.
    - intros f'. cbn [parse_value]. rewrite H0, C123, C91, C34. reflexivity. }
  destruct (c =? 116) eqn:C116.
  { apply Hflat.
    - intros v' r'. destruct (strip_prefix (js "rue") r0) as [rest|] eqn:P; [|discriminate].
      intros [= <- <-]. apply strip_prefix_length in P. lia.
    - intros f'. cbn [parse_value]. rewrite H0, C123, C91, C34, C116. reflexivity. }
  destruct (c =? 102) eqn:C102.
  { apply Hflat.
    - intros v' r'. destruct (strip_prefix (js "alse") r0) as [rest|] eqn:P; [|discriminate].
      intros [= <- <-]. apply strip_prefix_length in P. lia.
    - intros f'. cbn [parse_value]. rewrite H0, C123, C91, C34, C116, C102. reflexivity. }
  destruct (c =? 110) eqn:C110.
  { apply Hflat.
    - intros v' r'. destruct (strip_prefix (js "ull") r0) as [rest|] eqn:P; [|discriminate].
      intros [= <- <-]. apply strip_prefix_length in P. lia.
    - intros f'. cbn [parse_value]. rewrite H0, C123, C91, C34, C116, C102, C110.
      reflexivity. }
  apply Hflat.
  - intros v' r'. destruct (parse_number (c :: r0)) as [[x rest]|] eqn:P; [|discriminate].
    intros [= <- <-]. apply parse_number_length in P. simpl in P. lia.
  - intros f'. cbn [parse_value]. rewrite H0, C123, C91, C34, C116, C102, C110.
    reflexivity.
Qed.

(** [JSON.parse] gives what the descent gives with any amount of fuel: its
    bound on the recursion never cuts a parse short. *)
Theorem parse_fuel_adequate (s : jsstr) (v : json) :
  JSON.parse s = Some v
  <-> exists fuel r, parse_value fuel s = Some (v, r) /\ skip_ws r = [].
Proof.
  unfold JSON.parse. split.
  - destruct (parse_value (S (length s)) s) as [[v' r]|] eqn:P; [|discriminate].
    destruct (skip_ws r) eqn:W; [|discriminate].
    intros [= <-]. exists (S (length s)), r. auto.
  - intros (fuel & r & P & W).
    destruct (parse_value_fuel fuel s v r P) as [_ Hs].
    rewrite (Hs (S (length s))) by lia. rewrite W. reflexivity.
Qed.

End Fuel.

(** ** [JSON.stringify] followed by [JSON.parse] *)

Lemma hex_val_digit (d : N) : d < 16 -> hex_val (hex_digit d) = Some d.
Proof.
  intros H. unfold hex_val, hex_digit.
  destruct (N.ltb_spec d 10).
  - replace ((48 <=? 48 + d) && (48 + d <=? 57)) with true.
    + f_equal. lia.
    + symmetry. apply andb_true_iff. split; apply N.leb_le; lia.
  - replace ((48 <=? 87 + d) && (87 + d <=? 57)) with false.
    + replace ((97 <=? 87 + d) && (87 + d <=? 102)) with true.
      * f_equal. lia.
      * symmetry. apply andb_true_iff. split; apply N.leb_le; lia.
    + symmetry. apply andb_false_iff. right. apply N.leb_gt. lia.
Qed.

Lemma hex4_escape (c : N) : c < 65536 ->
  hex4 (hex_digit (c / 4096 mod 16)) (hex_digit (c / 256 mod 16))
       (hex_digit (c / 16 mod 16)) (hex_digit (c mod 16)) = Some c.
Proof.
  intros H. unfold hex4.
  rewrite !hex_val_digit by (apply N.mod_lt; discriminate).
  f_equal.
  pose proof (N.div_mod c 16 ltac:(discriminate)) as E1.
  pose proof (N.div_mod (c / 16) 16 ltac:(discriminate)) as E2.
  pose proof (N.div_mod (c / 16 / 16) 16 ltac:(discriminate)) as E3.
  pose proof (N.mod_lt c 16 ltac:(discriminate)) as B1.
  assert (D2 : c / 256 = c / 16 / 16) by (rewrite N.Div0.div_div; reflexivity).
  assert (D3 : c / 4096 = c / 16 / 16 / 16) by (rewrite !N.Div0.div_div; reflexivity).
  assert (B3 : c / 16 / 16 / 16 < 16).
  { rewrite !N.Div0.div_div. apply N.Div0.div_lt_upper_bound. simpl. lia. }
  rewrite D2, D3. rewrite (N.mod_small (c / 16 / 16 / 16) 16) by assumption.
  lia.
Qed.

Lemma parse_chars_escape (c : N) (t : jsstr) :
  c < 65536 ->
  parse_chars (unicode_escape c ++ t)
  = match parse_chars t with Some (u, rest) => Some (c :: u, rest) | None => None end.
Proof.
  intros H. unfold unicode_escape. cbn [app parse_chars].
  change (92 =? 34) with false. change (92 =? 92) with true.
  change (117 =? 117) with true. cbv iota.
  rewrite (hex4_escape c H). reflexivity.
Qed.

Lemma parse_chars_plain (c : N) (t : jsstr) :
  32 <= c -> c <> 34 -> c <> 92 ->
  parse_chars (c :: t)
  = match parse_chars t with Some (u, rest) => Some (c :: u, rest) | None => None end.
Proof.
  intros H1 H2 H3. cbn [parse_chars].
  apply N.eqb_neq in H2, H3. rewrite H2, H3.
  replace (c <? 32) with false by (symmetry; apply N.ltb_ge; exact H1).
  reflexivity.
Qed.

Lemma parse_chars_unit (c : N) (t : jsstr) :
  is_high_surrogate c = false -> is_low_surrogate c = false ->
  parse_chars (quote_unit c ++ t)
  = match parse_chars t with Some (u, rest) => Some (c :: u, rest) | None => None end.
Proof.
  intros Hh Hl. unfold quote_unit.
  repeat match goal with
         | |- context [if ?x =? ?k then _ else _] =>
           destruct (N.eqb_spec x k) as [->|?]; [reflexivity|]
         end.
  destruct (N.ltb_spec c 32).
  - apply parse_chars_escape. lia.
  - apply parse_chars_plain; assumption.
Qed.

Lemma surrogate_bounds (c : N) :
  is_high_surrogate c = true \/ is_low_surrogate c = true ->
  32 <= c /\ c <> 34 /\ c <> 92 /\ c < 65536.
Proof.
  unfold is_high_surrogate, is_low_surrogate.
  rewrite !andb_true_iff, !N.leb_le. lia.
Qed.

Lemma parse_chars_quote_chars_bounded (n : nat) :
  forall (s rest : jsstr), (List.length s <= n)%nat ->
    parse_chars (quote_chars s ++ 34 :: rest) = Some (s, rest).
Proof.
  induction n as [|n IH]; intros s rest Hn.
  - destruct s; [reflexivity | simpl in Hn; lia].
  - destruct s as [|c r]; [reflexivity|]. simpl in Hn.
    cbn [quote_chars].
    destruct (is_high_surrogate c) eqn:Hh.
    + destruct (surrogate_bounds c (or_introl Hh)) as (B1 & B2 & B3 & B4).
      destruct r as [|d r'].
      * rewrite parse_chars_escape by exact B4. reflexivity.
      * destruct (is_low_surrogate d) eqn:Hl.
        -- destruct (surrogate_bounds d (or_intror Hl)) as (D1 & D2 & D3 & D4).
           cbn [app]. rewrite parse_chars_plain by assumption.
           rewrite parse_chars_plain by assumption.
           rewrite IH by (simpl in Hn; lia). reflexivity.
        -- rewrite <- app_assoc, parse_chars_escape by exact B4.
           rewrite IH by lia. reflexivity.
    + destruct (is_low_surrogate c) eqn:Hl.
      * destruct (surrogate_bounds c (or_intror Hl)) as (B1 & B2 & B3 & B4).
        rewrite <- app_assoc, parse_chars_escape by exact B4.
        rewrite IH by lia. reflexivity.
      * rewrite <- app_assoc, parse_chars_unit by assumption.
        rewrite IH by lia. reflexivity.
Qed.

Lemma parse_chars_quote_chars (s rest : jsstr) :
  parse_chars (quote_chars s ++ 34 :: rest) = Some (s, rest).
Proof. apply (parse_chars_quote_chars_bounded (List.length s)). lia. Qed.


Lemma parse_value_string (f : nat) (t rest : jsstr) :
  parse_value (S f) (34 :: quote_chars t ++ 34 :: rest) = Some (JStr t, rest).
Proof.
  cbn [parse_value]. change (skip_ws (34 :: ?x)) with (34 :: x).
  change (34 =? 123) with false. change (34 =? 91) with false.
  change (34 =? 34) with true. cbv iota.
  rewrite parse_chars_quote_chars. reflexivity.
Qed.

Lemma parse_members_single (pv : jsstr -> option (json * jsstr)) (n : nat)
      (k t rest : jsstr) (v : json) :
  pv (34 :: quote_chars t ++ 34 :: 125 :: rest) = Some (v, 125 :: rest) ->
  parse_members pv (S n)
    (34 :: quote_chars k ++ 34 :: 58 :: 34 :: quote_chars t ++ 34 :: 125 :: rest)
  = Some ([(k, v)], rest).
Proof.
  intros Hv. cbn [parse_members].
  change (skip_ws (34 :: ?x)) with (34 :: x).
  change (34 =? 34) with true. cbv iota.
  rewrite parse_chars_quote_chars.
  change (skip_ws (58 :: ?x)) with (58 :: x).
  change (58 =? 58) with true. cbv iota.
  rewrite Hv.
  change (skip_ws (125 :: ?x)) with (125 :: x).
  change (125 =? 125) with true. cbv iota. reflexivity.
Qed.

Lemma parse_value_object (f : nat) (x : jsstr) :
  parse_value (S f) (123 :: 34 :: x)
  = match parse_members (parse_value f) f (34 :: x) with
    | Some (ms, rest) => Some (JObj ms, rest)
    | None => None
    end.
Proof. reflexivity. Qed.

Lemma stringify_response_form (s : jsstr) :
  Chat.stringify_response s
  = 123 :: 34 :: quote_chars (js "response") ++ 34 :: 58 :: 34 :: quote_chars s ++ 34 :: 125 :: [].
Proof.
  unfold Chat.stringify_response, stringify_string.
  change (js "{") with [123]. change (js ":") with [58]. change (js "}") with [125].
  cbn [app]. rewrite <- !app_assoc. reflexivity.
Qed.

Lemma parse_stringify_response (s : jsstr) :
  JSON.parse (Chat.stringify_response s) = Some (JObj [(js "response", JStr s)]).
Proof.
  unfold JSON.parse. rewrite stringify_response_form.
  remember (List.length _) as k eqn:Hk.
  destruct k as [|[|k]]; [discriminate Hk | discriminate Hk |]. clear Hk.
  rewrite parse_value_object.
  rewrite (parse_members_single _ (S k) (js "response") s [] (JStr s)).
  - reflexivity.
  - apply parse_value_string.
Qed.

(** C5. When [json_object] was requested and the backend call completes,
    the content of the returned envelope parses as JSON: it is the backend
    content when that parses, and otherwise [{"response": <content>}], which
    parses to the object with the single member [response] holding the
    original text. *)
Theorem json_object_content_parses :
  forall fresh model req o,
    req_response_format req = Some {| format_type := js "json_object" |} ->
    exists r c v,
      Chat.handleNonStreamingChat fresh (Chat.Completed o) model req = ChatCompletion r
      /\ envelope_content r = Some c
      /\ JSON.parse c = Some v
      /\ (forall w, JSON.parse (Chat.backendContent o) = Some w ->
                    c = Chat.backendContent o /\ v = w)
      /\ (JSON.parse (Chat.backendContent o) = None ->
          c = Chat.stringify_response (Chat.backendContent o)
          /\ v = JObj [(js "response", JStr (Chat.backendContent o))]).
Proof.
  intros fresh model req o Hf.
  assert (Hc : Chat.normalizeContent req o
               = match JSON.parse (Chat.backendContent o) with
                 | Some _ => Chat.backendContent o
                 | None => Chat.stringify_response (Chat.backendContent o)
                 end).
  { unfold Chat.normalizeContent, Chat.is_json_object. rewrite Hf.
    rewrite bool_decide_eq_true_2 by reflexivity.
    destruct (JSON.parse (Chat.backendContent o)) eqn:P.
    - destruct (Chat.backendContent o); [discriminate P|].
      destruct (req_tools req); reflexivity.
    - pose proof (stringify_response_nonempty (Chat.backendContent o)) as Hne.
      destruct (Chat.stringify_response _); [contradiction|].
      destruct (req_tools req); reflexivity. }
  destruct (JSON.parse (Chat.backendContent o)) as [w|] eqn:P.
  - eexists. exists (Chat.backendContent o), w.
    split; [reflexivity|]. split; [simpl; rewrite Hc; reflexivity|].
    split; [exact P|]. split; [intros w' [= <-]; auto | discriminate].
  - eexists. exists (Chat.stringify_response (Chat.backendContent o)).
    eexists. split; [reflexivity|]. split; [simpl; rewrite Hc; reflexivity|].
    split; [apply parse_stringify_response|]. split; [discriminate | auto].
Qed.

Lemma json_object_content_parses_witness :
  let req :=
    {| req_model := Some (js "llama3"); req_messages := MessagesArray [user_message "hi"];
       req_temperature := None; req_max_tokens := None; req_top_p := None;
       req_frequency_penalty := None; req_presence_penalty := None;
       req_stream := Some false; req_stop := None; req_n := None; req_tools := None;
       req_response_format := Some {| format_type := js "json_object" |} |} in
  exists r c v,
    Chat.handleNonStreamingChat fresh0 (Chat.Completed (reply (js "not json"))) (js "llama3") req
    = ChatCompletion r
    /\ envelope_content r = Some c
    /\ JSON.parse c = Some v
    /\ c = Chat.stringify_response (js "not json").
Proof.
  intros req.
  destruct (json_object_content_parses fresh0 (js "llama3") req (reply (js "not json")) eq_refl)
    as (r & c & v & Hr & Hc & Hv & _ & Hw).
  exists r, c, v. repeat split; auto. apply Hw. reflexivity.
Defined.

(** ** Streaming pipeline *)

Lemma split_lines_app (x y : jsstr) :
  split_lines (x ++ y)
  = let '(l1, b1) := split_lines x in
    let '(l2, b2) := split_lines (b1 ++ y) in
    (l1 ++ l2, b2).
Proof.
  induction x as [|c x IH]; simpl.
  - destruct (split_lines y). reflexivity.
  - rewrite IH. destruct (split_lines x) as [l1 b1].
    destruct (c =? 10) eqn:E.
    + destruct (split_lines (b1 ++ y)) as [l2 b2]. reflexivity.
    + destruct l1 as [|l l1]; simpl.
      * rewrite E. destruct (split_lines (b1 ++ y)) as [l2 b2].
        destruct l2; reflexivity.
      * destruct (split_lines (b1 ++ y)) as [l2 b2]. reflexivity.
Qed.

Lemma split_lines_residual (s : jsstr) :
  split_lines (snd (split_lines s)) = ([], snd (split_lines s)).
Proof.
  induction s as [|c s IH]; simpl; auto.
  destruct (split_lines s) as [ls last]; simpl in *.
  destruct (c =? 10) eqn:E; simpl; auto.
  destruct ls; simpl; auto. rewrite IH, E. reflexivity.
Qed.

Section StreamingFacts.
Import Chat.
Variable fresh : Fresh.
Variable model : jsstr.
Variable consumer : Consumer.
Hypothesis never : cancelAt consumer = None.

Lemma await_streaming q a b sent :
  await consumer (streaming q a b sent) = streaming q (S a) b sent.
Proof. unfold await, streaming. simpl. rewrite never. reflexivity. Qed.

Lemma writeChunk_streaming d q a b sent :
  chunk_throws d = false ->
  writeChunk d (streaming q a b sent) = streaming (q ++ [DataChunk d]) a b sent.
Proof. intros H. unfold writeChunk. cbn [controllerClosed streaming]. rewrite H. reflexivity. Qed.

Lemma writeChunk_throws d q a b sent :
  chunk_throws d = true ->
  writeChunk d (streaming q a b sent) = aborted q a b false sent.
Proof. intros H. unfold writeChunk. cbn [controllerClosed streaming]. rewrite H. reflexivity. Qed.

Lemma safeClose_finished q a b sent :
  safeClose (set_hasFinished (streaming q a b sent)) = closed (q ++ [DoneSentinel]) a b true sent.
Proof. reflexivity. Qed.

Lemma safeClose_streaming q a b sent :
  safeClose (streaming q a b sent) = closed (q ++ [DoneSentinel]) a b false sent.
Proof. reflexivity. Qed.

Lemma forwardContent_streaming d q a b sent :
  frame_throws (Some d) = false ->
  forwardContent fresh model d (streaming q a b sent)
  = streaming (q ++ frame_output fresh model (Some d)) a b
              (sent || nonempty (frame_output fresh model (Some d))).
Proof.
  unfold forwardContent, frame_output, frame_throws.
  destruct (frame_content d) as [c|]; simpl.
  - destruct (truthy c) eqn:T; simpl.
    + intros H. rewrite writeChunk_streaming by (cbn; rewrite T; exact H).
      rewrite orb_true_r. reflexivity.
    + rewrite app_nil_r, orb_false_r. reflexivity.
  - rewrite app_nil_r, orb_false_r. reflexivity.
Qed.

Lemma forwardContent_throws d q a b sent :
  frame_throws (Some d) = true ->
  forwardContent fresh model d (streaming q a b sent) = aborted q a b false true.
Proof.
  unfold forwardContent, frame_throws.
  destruct (frame_content d) as [c|]; [|discriminate].
  destruct (truthy c) eqn:T; [|discriminate]. simpl. intros H.
  rewrite writeChunk_throws by (cbn; rewrite T; exact H). reflexivity.
Qed.

Lemma processLine_streaming line q a b sent :
  trim line <> [] ->
  processLine fresh model line (streaming q a b sent)
  = let f := line_frame line in
    let out := frame_output fresh model f in
    if frame_throws f then (aborted q a b false true, false)
    else if frame_done f then
      (closed (q ++ out ++ [finalEvent fresh model; DoneSentinel]) a b true
              (sent || nonempty out), true)
    else (streaming (q ++ out) a b (sent || nonempty out), false).
Proof.
  intros Ht. unfold processLine, line_frame.
  destruct (trim line) as [|t0 t]; [contradiction|].
  assert (Hnone : (streaming q a b sent, false)
                  = (streaming (q ++ []) a b (sent || false), false)).
  { rewrite app_nil_r, orb_false_r. reflexivity. }
  destruct (JSON.parse line) as [d|]; [|exact Hnone].
  assert (Hd : (let p := forwardContent fresh model d (streaming q a b sent) in
                if truthy_opt (get (js "done") d) && negb (controllerClosed p)
                then (safeClose (set_hasFinished (writeChunk (finalChunk fresh model) p)), true)
                else (p, false))
               = (if frame_throws (Some d) then (aborted q a b false true, false)
                  else if frame_done (Some d)
                  then (closed (q ++ frame_output fresh model (Some d)
                                  ++ [finalEvent fresh model; DoneSentinel]) a b true
                               (sent || nonempty (frame_output fresh model (Some d))), true)
                  else (streaming (q ++ frame_output fresh model (Some d)) a b
                                  (sent || nonempty (frame_output fresh model (Some d))), false))).
  { cbv zeta. destruct (frame_throws (Some d)) eqn:Hth.
    - rewrite forwardContent_throws by exact Hth.
      change (negb (controllerClosed (aborted ?x ?y ?z ?v ?w))) with false.
      rewrite andb_false_r. reflexivity.
    - rewrite forwardContent_streaming by exact Hth. unfold frame_done.
      destruct (truthy_opt (get (js "done") d)); [|reflexivity].
      change (negb (controllerClosed (streaming ?x ?y ?z ?w))) with true.
      cbn [andb]. rewrite writeChunk_streaming by reflexivity. rewrite safeClose_finished.
      rewrite <- !app_assoc. reflexivity. }
  destruct d; exact Hd.
Qed.

Lemma processLines_streaming lines q a b sent :
  processLines fresh model lines (streaming q a b sent)
  = let '(out, o) := translate fresh model (List.map line_frame lines) in
    match o with
    | Finished =>
      (closed (q ++ out ++ [finalEvent fresh model; DoneSentinel]) a b true
              (sent || nonempty out), true)
    | Running => (streaming (q ++ out) a b (sent || nonempty out), false)
    | Aborted => (aborted (q ++ out) a b false true, false)
    end.
Proof.
  revert q sent. induction lines as [|line rest IH]; intros q sent.
  - simpl. rewrite app_nil_r, orb_false_r. reflexivity.
  - cbn [processLines List.map translate].
    destruct (trim line) as [|t0 t] eqn:Ht.
    + assert (Hf : line_frame line = None) by (unfold line_frame; rewrite Ht; reflexivity).
      rewrite Hf. simpl. rewrite IH.
      destruct (translate fresh model (List.map line_frame rest)) as [out o].
      reflexivity.
    + change (negb (hasFinished (streaming q a b sent))
              && negb (controllerClosed (streaming q a b sent))) with true.
      cbv iota.
      rewrite processLine_streaming by (rewrite Ht; discriminate).
      cbv zeta. destruct (frame_throws (line_frame line)).
      { cbn. rewrite app_nil_r. reflexivity. }
      destruct (frame_done (line_frame line)); [reflexivity|].
      change (controllerClosed (streaming ?x ?y ?z ?w)) with false. cbv iota.
      rewrite IH.
      destruct (translate fresh model (List.map line_frame rest)) as [out o].
      destruct o; rewrite <- ?app_assoc;
        try (replace (nonempty (frame_output fresh model (line_frame line) ++ out))
               with (nonempty (frame_output fresh model (line_frame line)) || nonempty out)
               by (destruct (frame_output fresh model (line_frame line)); reflexivity);
             rewrite orb_assoc); reflexivity.
Qed.

Lemma translate_app frames1 frames2 :
  translate fresh model (frames1 ++ frames2)
  = let '(out1, o1) := translate fresh model frames1 in
    match o1 with
    | Running =>
      let '(out2, o2) := translate fresh model frames2 in (out1 ++ out2, o2)
    | _ => (out1, o1)
    end.
Proof.
  induction frames1 as [|f r IH]; simpl.
  - destruct (translate fresh model frames2). reflexivity.
  - destruct (frame_throws f); [reflexivity|].
    destruct (frame_done f); [reflexivity|].
    rewrite IH. destruct (translate fresh model r) as [o1 [| |]]; try reflexivity.
    destruct (translate fresh model frames2) as [o2 d2].
    rewrite app_assoc. reflexivity.
Qed.

Lemma nonempty_app {A} (l1 l2 : list A) : nonempty (l1 ++ l2) = nonempty l1 || nonempty l2.
Proof. destruct l1; reflexivity. Qed.

Lemma readLoop_aborted chunks ending q a b finished sent :
  readLoop fresh model consumer chunks ending (aborted q a b finished sent)
  = (aborted q a b finished sent, LoopDone).
Proof. destruct chunks; cbn; rewrite andb_false_r; reflexivity. Qed.

(** The loop over the reads is the translation of the complete lines of the
    text that the buffer and the reads make up. *)
Lemma readLoop_streaming chunks ending q a b sent :
  split_lines b = ([], b) ->
  let '(lines, residual) := split_lines (b ++ concat chunks) in
  let '(out, o) := translate fresh model (List.map line_frame lines) in
  exists a' b',
    readLoop fresh model consumer chunks ending (streaming q a b sent)
    = match o with
      | Finished =>
        (closed (q ++ out ++ [finalEvent fresh model; DoneSentinel]) a' b' true
                (sent || nonempty out), Returned)
      | Running => (streaming (q ++ out) a' residual (sent || nonempty out), exit_of ending)
      | Aborted => (aborted (q ++ out) a' b' false true, LoopDone)
      end.
Proof.
  revert q a b sent. induction chunks as [|value rest IH]; intros q a b sent Hb.
  - simpl. rewrite app_nil_r, Hb. simpl.
    exists (S a), b. rewrite await_streaming.
    rewrite app_nil_r, orb_false_r. destruct ending; reflexivity.
  - cbn [concat]. rewrite app_assoc, split_lines_app.
    destruct (split_lines (b ++ value)) as [l1 b1] eqn:S1.
    assert (Hb1 : split_lines b1 = ([], b1)).
    { pose proof (split_lines_residual (b ++ value)) as R. rewrite S1 in R. exact R. }
    specialize (IH (q ++ fst (translate fresh model (List.map line_frame l1))) (S a) b1
                   (sent || nonempty (fst (translate fresh model (List.map line_frame l1)))) Hb1).
    destruct (split_lines (b1 ++ concat rest)) as [l2 b2].
    rewrite List.map_app, translate_app.
    cbn [readLoop].
    change (negb (hasFinished (streaming q a b sent))
            && negb (controllerClosed (streaming q a b sent))) with true. cbv iota.
    rewrite await_streaming.
    change (controllerClosed (streaming ?x ?y ?z ?w)) with false. cbv iota.
    change (buffer (streaming q (S a) b sent)) with b. rewrite S1.
    change (set_buffer b1 (streaming q (S a) b sent)) with (streaming q (S a) b1 sent).
    rewrite processLines_streaming.
    destruct (translate fresh model (List.map line_frame l1)) as [o1 d1].
    destruct d1.
    + simpl in IH.
      destruct (translate fresh model (List.map line_frame l2)) as [o2 d2].
      destruct IH as (a' & b' & IH). exists a', b'. rewrite IH.
      destruct d2; rewrite <- ?app_assoc, ?nonempty_app, ?orb_assoc; reflexivity.
    + exists (S a), b1. reflexivity.
    + exists (S a), b1. rewrite readLoop_aborted. reflexivity.
Qed.

Lemma finishStream_aborted q a b finished sent :
  finishStream fresh model (aborted q a b finished sent) = aborted q a b finished sent.
Proof.
  unfold finishStream. cbn [hasFinished controllerClosed buffer aborted].
  rewrite andb_false_r. destruct (trim b); cbn; rewrite ?andb_false_r; reflexivity.
Qed.

Lemma finishStream_streaming q a b sent :
  finishStream fresh model (streaming q a b sent)
  = let f := residual_frame b in
    let out := frame_output fresh model f in
    if frame_throws f then aborted q a b (frame_done f) true
    else if frame_done f then closed (q ++ out ++ [DoneSentinel]) a b true (sent || nonempty out)
    else
      closed (q ++ out
                ++ (if sent || nonempty out then [] else [placeholderEvent fresh model])
                ++ [finalEvent fresh model; DoneSentinel]) a b true true.
Proof.
  unfold finishStream, residual_frame.
  change (buffer (streaming q a b sent)) with b.
  assert (Hnone : (let p := streaming q a b sent in
                   if negb (hasFinished p) && negb (controllerClosed p)
                   then ensureMinimalResponse fresh model p
                   else if negb (controllerClosed p) then safeClose p else p)
                  = closed (q ++ [] ++ (if sent || false then []
                                        else [placeholderEvent fresh model])
                              ++ [finalEvent fresh model; DoneSentinel]) a b true true).
  { cbv zeta. change (negb (hasFinished (streaming q a b sent))
                      && negb (controllerClosed (streaming q a b sent))) with true.
    cbv iota. rewrite orb_false_r.
    destruct sent; unfold ensureMinimalResponse; cbn; rewrite <- ?app_assoc; reflexivity. }
  destruct (trim b) as [|t0 t]; [exact Hnone|].
  change (negb (hasFinished (streaming q a b sent))
          && negb (controllerClosed (streaming q a b sent))) with true. cbv iota.
  destruct (JSON.parse (t0 :: t)) as [d|]; [|exact Hnone].
  assert (Hd : (let p := let p := forwardContent fresh model d (streaming q a b sent) in
                         if truthy_opt (get (js "done") d) then set_hasFinished p else p in
                if negb (hasFinished p) && negb (controllerClosed p)
                then ensureMinimalResponse fresh model p
                else if negb (controllerClosed p) then safeClose p else p)
               = (if frame_throws (Some d) then aborted q a b (frame_done (Some d)) true
                  else if frame_done (Some d)
                  then closed (q ++ frame_output fresh model (Some d) ++ [DoneSentinel]) a b true
                              (sent || nonempty (frame_output fresh model (Some d)))
                  else closed (q ++ frame_output fresh model (Some d)
                                 ++ (if sent || nonempty (frame_output fresh model (Some d))
                                     then [] else [placeholderEvent fresh model])
                                 ++ [finalEvent fresh model; DoneSentinel]) a b true true)).
  { cbv zeta. destruct (frame_throws (Some d)) eqn:Hth.
    - rewrite forwardContent_throws by exact Hth. unfold frame_done.
      destruct (truthy_opt (get (js "done") d)); reflexivity.
    - rewrite forwardContent_streaming by exact Hth. unfold frame_done.
      generalize (frame_output fresh model (Some d)) as out. intros out.
      destruct (truthy_opt (get (js "done") d)).
      + cbn. rewrite <- ?app_assoc. reflexivity.
      + destruct sent; destruct out; unfold ensureMinimalResponse; cbn;
          rewrite <- ?app_assoc; reflexivity. }
  destruct d; exact Hd.
Qed.

Lemma writeError_streaming message q a b sent :
  writeError fresh model message (streaming q a b sent)
  = closed (q ++ error_events fresh model message) a b false sent.
Proof. unfold writeError. cbn. rewrite <- !app_assoc. reflexivity. Qed.

Lemma onError_streaming message q a b sent :
  onError fresh model message (streaming q a b sent)
  = closed (q ++ error_events fresh model (str_or message (js "Internal streaming error")))
           a b false sent.
Proof. unfold onError. cbn [negb controllerClosed streaming]. apply writeError_streaming. Qed.

Lemma start_expected result :
  EventStream (queue (start fresh model consumer result))
              (ended (start fresh model consumer result))
  = expected_stream fresh model result.
Proof.
  unfold start. change initial with (streaming [] 0 [] false).
  rewrite await_streaming.
  destruct result as [message | status [message|] | | chunks ending].
  - rewrite onError_streaming. reflexivity.
  - rewrite await_streaming, onError_streaming. reflexivity.
  - rewrite await_streaming, writeError_streaming. reflexivity.
  - rewrite writeError_streaming. reflexivity.
  - rewrite writeChunk_streaming by reflexivity.
    pose proof (readLoop_streaming chunks ending ([] ++ [roleEvent fresh model]) 1 [] false
                                   eq_refl) as H.
    unfold expected_stream. cbn [app] in H.
    destruct (split_lines (concat chunks)) as [lines residual].
    destruct (translate fresh model (List.map line_frame lines)) as [out o].
    destruct H as (a' & b' & H).
    change (DataChunk (assistantRoleChunk fresh model)) with (roleEvent fresh model).
    cbn [app]. rewrite H. destruct o.
    + destruct ending as [|message]; cbn [exit_of].
      * rewrite finishStream_streaming. cbv zeta. cbn [orb].
        destruct (frame_throws (residual_frame residual)); [reflexivity|].
        destruct (frame_done (residual_frame residual)).
        -- cbn. rewrite <- !app_assoc. reflexivity.
        -- cbn. rewrite <- nonempty_app. f_equal. f_equal.
           rewrite (app_assoc out).
           generalize (out ++ frame_output fresh model (residual_frame residual)) as o.
           intros o. destruct o; reflexivity.
      * rewrite onError_streaming. reflexivity.
    + reflexivity.
    + rewrite finishStream_aborted. reflexivity.
Qed.

End StreamingFacts.

Section ExpectedStreamFacts.
Variable fresh : Chat.Fresh.
Variable model : jsstr.

Lemma frame_output_plain (f : option json) :
  forallb is_plain_content (frame_output fresh model f) = true.
Proof.
  destruct f as [d|]; simpl; auto.
  destruct (Chat.frame_content d) as [c|]; simpl; auto.
  destruct (truthy c) eqn:T; simpl; auto.
  unfold is_plain_content, is_content_chunk. simpl. rewrite T. reflexivity.
Qed.

Lemma translate_plain (frames : list (option json)) :
  forallb is_plain_content (fst (translate fresh model frames)) = true.
Proof.
  induction frames as [|f r IH]; simpl; auto.
  destruct (frame_throws f); [reflexivity|].
  destruct (frame_done f); simpl; [apply frame_output_plain|].
  destruct (translate fresh model r) as [out o]. simpl in *.
  rewrite forallb_app, frame_output_plain, IH. reflexivity.
Qed.

Lemma translate_outcome (frames : list (option json)) :
  snd (translate fresh model frames) = outcome frames.
Proof.
  induction frames as [|f r IH]; simpl; auto.
  destruct (frame_throws f); [reflexivity|].
  destruct (frame_done f); simpl; auto.
  destruct (translate fresh model r) as [out o]. exact IH.
Qed.

Lemma silent_frame_writes (f : option json) :
  frame_has_content f = false -> frame_throws f = false.
Proof.
  destruct f as [d|]; simpl; auto.
  destruct (Chat.frame_content d) as [c|]; simpl; auto. intros ->. reflexivity.
Qed.

Lemma translate_silent (frames : list (option json)) :
  (forall f, f ∈ frames -> frame_has_content f = false /\ frame_done f = false) ->
  translate fresh model frames = ([], Running).
Proof.
  induction frames as [|f r IH]; intros H; simpl; auto.
  destruct (H f ltac:(left)) as [Hc Hd]. rewrite (silent_frame_writes f Hc), Hd, IH.
  - simpl. rewrite app_nil_r. destruct f as [d|]; auto. simpl in *.
    destruct (Chat.frame_content d) as [c|]; auto. simpl in Hc. rewrite Hc. reflexivity.
  - intros g Hg. apply H. right. exact Hg.
Qed.

Lemma plain_not_terminal (l : list SSE) :
  forallb is_plain_content l = true -> forallb is_not_terminal l = true.
Proof.
  induction l as [|e l IH]; simpl; auto.
  rewrite !andb_true_iff. intros [He Hl]. split; auto.
  unfold is_plain_content in He. unfold is_not_terminal.
  rewrite !andb_true_iff in He. rewrite andb_true_iff. tauto.
Qed.

Lemma plain_no_role (l : list SSE) :
  forallb is_plain_content l = true -> count_role l = 0%nat.
Proof.
  unfold count_role. induction l as [|e l IH]; simpl; auto.
  rewrite !andb_true_iff. intros [He Hl].
  unfold is_plain_content in He. rewrite !andb_true_iff in He.
  destruct He as [[[_ Hr] _] _]. apply negb_true_iff in Hr. rewrite Hr. auto.
Qed.

Lemma plain_no_final (l : list SSE) :
  forallb is_plain_content l = true -> forallb (fun e => negb (is_final_chunk e)) l = true.
Proof.
  induction l as [|e l IH]; simpl; auto.
  rewrite !andb_true_iff. intros [He Hl]. split; auto.
  unfold is_plain_content in He. rewrite !andb_true_iff in He. tauto.
Qed.

Lemma existsb_line_frames (lines : list jsstr) :
  existsb frame_done (List.map line_frame lines)
  = existsb (fun line => frame_done (line_frame line)) lines.
Proof. induction lines as [|l r IH]; simpl; congruence. Qed.

Lemma count_role_app (l1 l2 : list SSE) :
  count_role (l1 ++ l2) = (count_role l1 + count_role l2)%nat.
Proof. unfold count_role. rewrite List.filter_app, length_app. reflexivity. Qed.

End ExpectedStreamFacts.

(** Without cancellation the pipeline emits the stream of the
    specification-level translation. *)
Theorem stream_refines_expected :
  forall fresh model consumer result,
    Chat.cancelAt consumer = None ->
    Chat.handleStreamingChat fresh model consumer result
    = expected_stream fresh model result.
Proof.
  intros fresh model consumer result Hc. unfold Chat.handleStreamingChat.
  apply (start_expected fresh model consumer Hc result).
Qed.

(** When no frame has content that cannot be written, on every path other
    than a completion flag found in the residual of the upstream text, the
    stream ends with the one chunk that has a finish reason, followed by the
    sentinel. *)
Theorem stream_ends_with_terminal_chunk :
  forall fresh model consumer result,
    Chat.cancelAt consumer = None ->
    done_in_residual result = false ->
    stream_aborts result = false ->
    exists pre,
      Chat.handleStreamingChat fresh model consumer result
      = EventStream (pre ++ [finalEvent fresh model; DoneSentinel]) true
      /\ forallb is_not_terminal pre = true
      /\ sc_finish_reason <$> the_choice (finalEvent fresh model) = Some (Some (js "stop")).
Proof.
  intros fresh model consumer result Hc Hres Hab.
  rewrite (stream_refines_expected fresh model consumer result Hc).
  destruct result as [message | status [message|] | | chunks ending];
    try (eexists [_; _]; split; [reflexivity | split; reflexivity]).
  unfold expected_stream, done_in_residual, stream_aborts in *.
  destruct (split_lines (concat chunks)) as [lines residual].
  pose proof (translate_plain fresh model (List.map line_frame lines)) as Hp.
  pose proof (translate_outcome fresh model (List.map line_frame lines)) as Hd.
  destruct (translate fresh model (List.map line_frame lines)) as [out o].
  simpl in Hp, Hd. apply plain_not_terminal in Hp. rewrite <- Hd in Hres, Hab.
  destruct o; [|clear Hres Hab|discriminate Hab].
  - destruct ending as [|message].
    + rewrite Hab in *. simpl in Hres. rewrite Hres.
      pose proof (frame_output_plain fresh model (residual_frame residual)) as Hr.
      apply plain_not_terminal in Hr.
      set (fo := frame_output fresh model (residual_frame residual)) in *.
      exists (roleEvent fresh model :: (out ++ fo)
                ++ match out ++ fo with [] => [placeholderEvent fresh model] | _ :: _ => [] end).
      split.
      * cbn [app]. rewrite <- (app_assoc (out ++ fo)). reflexivity.
      * split; [|reflexivity]. simpl. rewrite !forallb_app, Hp, Hr. simpl.
        destruct (out ++ fo); reflexivity.
    + exists (roleEvent fresh model :: out
                ++ [roleEvent fresh model;
                    errorChunk fresh model (str_or message (js "Internal streaming error"))]).
      split.
      * cbn [app]. rewrite <- (app_assoc out). reflexivity.
      * split; [|reflexivity]. simpl. rewrite forallb_app, Hp. reflexivity.
  - exists (roleEvent fresh model :: out). split; [reflexivity|]. split; [|reflexivity].
    simpl. exact Hp.
Qed.

(** The same on the wire: the body ends with the line of the chunk that has
    the finish reason followed by the literal sentinel line. *)
Corollary body_ends_with_sentinel_line :
  forall stringify fresh model consumer result,
    Chat.cancelAt consumer = None ->
    done_in_residual result = false ->
    stream_aborts result = false ->
    exists events pre,
      Chat.handleStreamingChat fresh model consumer result = EventStream events true
      /\ body_text stringify events
         = body_text stringify pre
           ++ (js "data: " ++ stringify (Chat.finalChunk fresh model) ++ [10; 10])
           ++ (js "data: [DONE]" ++ [10; 10])
      /\ forallb is_not_terminal pre = true.
Proof.
  intros stringify fresh model consumer result Hc Hres Hab.
  destruct (stream_ends_with_terminal_chunk fresh model consumer result Hc Hres Hab)
    as (pre & He & Hpre & _).
  exists (pre ++ [finalEvent fresh model; DoneSentinel]), pre.
  split; [exact He|]. split; [|exact Hpre].
  unfold body_text. rewrite List.map_app, concat_app. cbn [List.map concat wire finalEvent].
  rewrite app_nil_r. reflexivity.
Qed.

(** When the completion flag is found in the residual, the stream ends with
    the sentinel and contains no chunk with a finish reason. *)
Theorem stream_unterminated_on_residual_done :
  forall fresh model consumer result,
    Chat.cancelAt consumer = None ->
    done_in_residual result = true ->
    exists pre,
      Chat.handleStreamingChat fresh model consumer result
      = EventStream (pre ++ [DoneSentinel]) true
      /\ forallb is_not_terminal pre = true
      /\ forallb (fun e => negb (is_final_chunk e)) (pre ++ [DoneSentinel]) = true.
Proof.
  intros fresh model consumer result Hc Hres.
  rewrite (stream_refines_expected fresh model consumer result Hc).
  destruct result as [message | status [message|] | | chunks [|message]];
    try discriminate Hres.
  unfold expected_stream, done_in_residual in *.
  destruct (split_lines (concat chunks)) as [lines residual].
  pose proof (translate_plain fresh model (List.map line_frame lines)) as Hp.
  pose proof (translate_outcome fresh model (List.map line_frame lines)) as Hd.
  destruct (translate fresh model (List.map line_frame lines)) as [out o].
  simpl in Hp, Hd. rewrite <- Hd in Hres.
  destruct o; try discriminate Hres.
  apply andb_true_iff in Hres as [Hth Hres]. apply negb_true_iff in Hth.
  rewrite Hth, Hres.
  pose proof (frame_output_plain fresh model (residual_frame residual)) as Hr.
  exists (roleEvent fresh model
            :: out ++ frame_output fresh model (residual_frame residual)).
  split; [cbn [app]; rewrite <- (app_assoc out); reflexivity|]. split.
  - simpl. rewrite forallb_app, (plain_not_terminal _ Hp), (plain_not_terminal _ Hr).
    reflexivity.
  - simpl. rewrite !forallb_app, (plain_no_final _ Hp), (plain_no_final _ Hr). reflexivity.
Qed.

(** When the chunk of a frame cannot be written, the stream keeps the events
    written before it, holds neither a chunk with a finish reason nor the
    sentinel, and is never closed. *)
Theorem stream_open_on_abort :
  forall fresh model consumer result,
    Chat.cancelAt consumer = None ->
    stream_aborts result = true ->
    exists events,
      Chat.handleStreamingChat fresh model consumer result = EventStream events false
      /\ forallb is_not_terminal events = true.
Proof.
  intros fresh model consumer result Hc Hab.
  rewrite (stream_refines_expected fresh model consumer result Hc).
  destruct result as [message | status [message|] | | chunks ending];
    try discriminate Hab.
  unfold expected_stream, stream_aborts in *.
  destruct (split_lines (concat chunks)) as [lines residual].
  pose proof (translate_plain fresh model (List.map line_frame lines)) as Hp.
  pose proof (translate_outcome fresh model (List.map line_frame lines)) as Hd.
  destruct (translate fresh model (List.map line_frame lines)) as [out o].
  simpl in Hp, Hd. apply plain_not_terminal in Hp. rewrite <- Hd in Hab.
  destruct o; try discriminate Hab.
  - destruct ending; [|discriminate Hab]. rewrite Hab.
    exists (roleEvent fresh model :: out). split; [reflexivity | exact Hp].
  - exists (roleEvent fresh model :: out). split; [reflexivity | exact Hp].
Qed.

(** C1 fails on the code when the frame that carries the completion flag is
    not terminated by a line feed: the residual path sets [hasFinished] and
    closes the stream without writing the chunk that has the finish reason.
    With the same frame terminated by a line feed the stream is complete. *)
Theorem stream_without_terminal_chunk :
  Chat.handleStreamingChat fresh0 (js "llama3") never_cancels
    (Chat.StreamBody [json_text "{'message':{'content':'hi'},'done':true}"] Chat.EndOfStream)
  = EventStream
      [roleEvent fresh0 (js "llama3");
       DataChunk (Chat.contentChunk fresh0 (js "llama3") (JStr (js "hi")));
       DoneSentinel] true
  /\ existsb is_final_chunk
       [roleEvent fresh0 (js "llama3");
        DataChunk (Chat.contentChunk fresh0 (js "llama3") (JStr (js "hi")));
        DoneSentinel] = false
  /\ Chat.handleStreamingChat fresh0 (js "llama3") never_cancels
       (Chat.StreamBody [json_text "{'message':{'content':'hi'},'done':true}" ++ [10]]
                        Chat.EndOfStream)
     = EventStream
         [roleEvent fresh0 (js "llama3");
          DataChunk (Chat.contentChunk fresh0 (js "llama3") (JStr (js "hi")));
          finalEvent fresh0 (js "llama3");
          DoneSentinel] true.
Proof. repeat split; vm_compute; reflexivity. Qed.

(** The statements on streams are made for a consumer that does not cancel:
    once the consumer has cancelled, [enqueue] throws, the pipeline marks the
    controller closed and nothing more is delivered. *)
Example cancelled_stream_stops :
  Chat.handleStreamingChat fresh0 (js "llama3") {| Chat.cancelAt := Some 1%nat |}
    (Chat.StreamBody [json_text "{'message':{'content':'hi'},'done':true}" ++ [10]]
                     Chat.EndOfStream)
  = EventStream [roleEvent fresh0 (js "llama3")] false.
Proof. vm_compute. reflexivity. Qed.

(** C2. When the upstream body ends and none of its frames, in a complete
    line or in the residual, carries content or the completion flag, the
    client receives the role chunk, the placeholder content chunk, the chunk
    with finish reason [stop] and the sentinel. *)
Theorem silent_upstream_gets_placeholder :
  forall fresh model consumer chunks,
    Chat.cancelAt consumer = None ->
    (forall line, line ∈ fst (split_lines (concat chunks)) ->
                  frame_has_content (line_frame line) = false
                  /\ frame_done (line_frame line) = false) ->
    frame_has_content (residual_frame (snd (split_lines (concat chunks)))) = false ->
    frame_done (residual_frame (snd (split_lines (concat chunks)))) = false ->
    Chat.handleStreamingChat fresh model consumer (Chat.StreamBody chunks Chat.EndOfStream)
    = EventStream [roleEvent fresh model; placeholderEvent fresh model;
                   finalEvent fresh model; DoneSentinel] true
    /\ is_content_chunk (placeholderEvent fresh model) = true
    /\ is_final_chunk (finalEvent fresh model) = true.
Proof.
  intros fresh model consumer chunks Hc Hlines Hrc Hrd.
  split; [|split; reflexivity].
  rewrite (stream_refines_expected fresh model consumer _ Hc).
  unfold expected_stream.
  destruct (split_lines (concat chunks)) as [lines residual]. simpl in *.
  rewrite (translate_silent fresh model (List.map line_frame lines)).
  - rewrite (silent_frame_writes _ Hrc), Hrd. simpl.
    destruct (residual_frame residual) as [d|]; [|reflexivity]. simpl in *.
    destruct (Chat.frame_content d) as [c|]; [|reflexivity].
    simpl in Hrc. rewrite Hrc. reflexivity.
  - intros f Hf. apply list_elem_of_fmap in Hf as (line & -> & Hl). apply Hlines, Hl.
Qed.

Lemma silent_upstream_gets_placeholder_witness :
  Chat.handleStreamingChat fresh0 (js "llama3") never_cancels
    (Chat.StreamBody [json_text "{'model':'llama3','message':{'role':'assistant','content':''},"
                                ++ json_text "'done':false}" ++ [10] ++ js "{'mess"]
                     Chat.EndOfStream)
  = EventStream [roleEvent fresh0 (js "llama3"); placeholderEvent fresh0 (js "llama3");
                 finalEvent fresh0 (js "llama3"); DoneSentinel] true.
Proof.
  apply (silent_upstream_gets_placeholder fresh0 (js "llama3") never_cancels).
  - reflexivity.
  - intros line Hl. apply list_elem_of_In in Hl. vm_compute in Hl.
    destruct Hl as [<-|[]]. vm_compute. split; reflexivity.
  - vm_compute. reflexivity.
  - vm_compute. reflexivity.
Defined.

(** C3, as stated, fails: when a read of the upstream body throws after
    the stream was opened, [writeError] writes the role chunk again. *)
Lemma role_chunk_duplicated_counterexample :
  Chat.handleStreamingChat fresh0 (js "llama3") never_cancels
    (Chat.StreamBody [json_text "{'message':{'content':'hi'}}" ++ [10]]
                     (Chat.ReadError (js "socket hang up")))
  = EventStream
      [roleEvent fresh0 (js "llama3");
       DataChunk (Chat.contentChunk fresh0 (js "llama3") (JStr (js "hi")));
       roleEvent fresh0 (js "llama3");
       errorChunk fresh0 (js "llama3") (js "socket hang up");
       finalEvent fresh0 (js "llama3");
       DoneSentinel] true
  /\ count_role
       [roleEvent fresh0 (js "llama3");
        DataChunk (Chat.contentChunk fresh0 (js "llama3") (JStr (js "hi")));
        roleEvent fresh0 (js "llama3");
        errorChunk fresh0 (js "llama3") (js "socket hang up");
        finalEvent fresh0 (js "llama3");
        DoneSentinel] = 2%nat.
Proof. split; vm_compute; reflexivity. Qed.

(** C3, amended. The first event of every stream is the synthetic role
    chunk, so it precedes every content chunk, whether or not the backend
    announces a role.  It is the only role chunk on every path but one:
    [writeError] always writes a role chunk of its own, so when a read of the
    upstream body throws before a frame stopped the reading the stream holds
    two role chunks.  The stream is closed unless the chunk of a frame could
    not be written, in which case it is left open after the events written
    so far. *)
Theorem role_chunk_opens_stream :
  forall fresh model consumer result,
    Chat.cancelAt consumer = None ->
    exists rest,
      Chat.handleStreamingChat fresh model consumer result
      = EventStream (roleEvent fresh model :: rest) (negb (stream_aborts result))
      /\ is_role_chunk (roleEvent fresh model) = true
      /\ count_role (roleEvent fresh model :: rest)
         = (if fails_mid_stream result then 2 else 1)%nat.
Proof.
  intros fresh model consumer result Hc.
  rewrite (stream_refines_expected fresh model consumer result Hc).
  destruct result as [message | status [message|] | | chunks ending];
    try (eexists; split; [reflexivity | split; reflexivity]).
  unfold expected_stream, fails_mid_stream, stream_aborts.
  destruct (split_lines (concat chunks)) as [lines residual].
  pose proof (translate_plain fresh model (List.map line_frame lines)) as Hp.
  pose proof (translate_outcome fresh model (List.map line_frame lines)) as Hd.
  destruct (translate fresh model (List.map line_frame lines)) as [out o].
  simpl in Hp, Hd. apply plain_no_role in Hp.
  simpl fst. rewrite <- Hd.
  assert (Hone : forall l, count_role (roleEvent fresh model :: l) = S (count_role l))
    by reflexivity.
  destruct o.
  - destruct ending as [|message].
    + pose proof (frame_output_plain fresh model (residual_frame residual)) as Hr.
      apply plain_no_role in Hr.
      destruct (frame_throws (residual_frame residual)).
      { eexists. split; [reflexivity|]. split; [reflexivity|]. rewrite Hone, Hp. reflexivity. }
      destruct (frame_done (residual_frame residual)).
      * eexists. split; [reflexivity|]. split; [reflexivity|].
        rewrite Hone, !count_role_app, Hp, Hr. reflexivity.
      * eexists. split; [reflexivity|]. split; [reflexivity|].
        rewrite Hone, !count_role_app, Hp, Hr.
        destruct (out ++ _); reflexivity.
    + eexists. split; [reflexivity|]. split; [reflexivity|].
      rewrite Hone, count_role_app, Hp. reflexivity.
  - eexists. split; [reflexivity|]. split; [reflexivity|].
    rewrite Hone, count_role_app, Hp. destruct ending; reflexivity.
  - eexists. split; [reflexivity|]. split; [reflexivity|].
    rewrite Hone, Hp. destruct ending; reflexivity.
Qed.

Lemma role_chunk_opens_stream_witness :
  exists rest,
    Chat.handleStreamingChat fresh0 (js "llama3") never_cancels
      (Chat.StreamBody [json_text "{'message':{'content':'hi'},'done':true}" ++ [10]]
                       Chat.EndOfStream)
    = EventStream (roleEvent fresh0 (js "llama3") :: rest) true
    /\ count_role (roleEvent fresh0 (js "llama3") :: rest) = 1%nat.
Proof.
  destruct (role_chunk_opens_stream fresh0 (js "llama3") never_cancels
              (Chat.StreamBody [json_text "{'message':{'content':'hi'},'done':true}" ++ [10]]
                               Chat.EndOfStream) eq_refl) as (rest & H & _ & Hn).
  exists rest. split; [exact H | exact Hn].
Defined.

(** * Further properties *)

(** ** Streaming pipeline: buffering and skipped lines *)

(** X1. The events of a stream depend on the upstream text only, not on
    the way the reads cut it: partial lines are carried from one read to the
    next. *)
Theorem stream_independent_of_chunking :
  forall fresh model consumer chunks chunks' ending,
    Chat.cancelAt consumer = None ->
    concat chunks = concat chunks' ->
    Chat.handleStreamingChat fresh model consumer (Chat.StreamBody chunks ending)
    = Chat.handleStreamingChat fresh model consumer (Chat.StreamBody chunks' ending).
Proof.
  intros fresh model consumer chunks chunks' ending Hc Heq.
  rewrite !(stream_refines_expected fresh model consumer _ Hc).
  unfold expected_stream. rewrite Heq. reflexivity.
Qed.

Lemma stream_independent_of_chunking_witness :
  Chat.handleStreamingChat fresh0 (js "llama3") never_cancels
    (Chat.StreamBody [json_text "{'message':{'con"; json_text "tent':'hi'}}" ++ [10];
                      json_text "{'done':true}" ++ [10]] Chat.EndOfStream)
  = Chat.handleStreamingChat fresh0 (js "llama3") never_cancels
      (Chat.StreamBody [json_text "{'message':{'content':'hi'}}" ++ [10]
                          ++ json_text "{'done':true}" ++ [10]] Chat.EndOfStream).
Proof.
  apply (stream_independent_of_chunking fresh0 (js "llama3") never_cancels).
  - reflexivity.
  - vm_compute. reflexivity.
Defined.

Lemma split_lines_line (line rest : jsstr) :
  10 ∉ line ->
  split_lines (line ++ 10 :: rest)
  = (line :: fst (split_lines rest), snd (split_lines rest)).
Proof.
  induction line as [|c line IH]; intros Hn; simpl.
  - destruct (split_lines rest). reflexivity.
  - rewrite IH by (intros H; apply Hn; right; exact H).
    destruct (N.eqb_spec c 10) as [->|_]; [exfalso; apply Hn; left|].
    destruct (split_lines rest). reflexivity.
Qed.

Lemma translate_skip fresh model (frames1 frames2 : list (option json)) :
  translate fresh model (frames1 ++ None :: frames2)
  = translate fresh model (frames1 ++ frames2).
Proof.
  rewrite !translate_app. simpl.
  destruct (translate fresh model frames2). reflexivity.
Qed.

(** X2. A complete line that is blank, is not JSON or is [null] is skipped:
    the stream is the one obtained without that line. *)
Theorem malformed_line_is_skipped :
  forall fresh model consumer before bad after ending,
    Chat.cancelAt consumer = None ->
    snd (split_lines before) = [] ->
    10 ∉ bad ->
    line_frame bad = None ->
    Chat.handleStreamingChat fresh model consumer
      (Chat.StreamBody [before; bad ++ [10]; after] ending)
    = Chat.handleStreamingChat fresh model consumer
        (Chat.StreamBody [before; after] ending).
Proof.
  intros fresh model consumer before bad after ending Hc Hb Hn Hf.
  rewrite !(stream_refines_expected fresh model consumer _ Hc).
  unfold expected_stream. cbn [concat]. rewrite !app_nil_r.
  rewrite (split_lines_app before (_ ++ after)), (split_lines_app before after).
  destruct (split_lines before) as [l1 b1]. simpl in Hb. subst b1. cbn [app].
  rewrite <- app_assoc. cbn [app]. rewrite (split_lines_line bad after Hn).
  destruct (split_lines after) as [l2 b2]. cbn [fst snd].
  rewrite !List.map_app. cbn [List.map]. rewrite Hf, translate_skip. reflexivity.
Qed.

Lemma malformed_line_is_skipped_witness :
  Chat.handleStreamingChat fresh0 (js "llama3") never_cancels
    (Chat.StreamBody [json_text "{'message':{'content':'a'}}" ++ [10];
                      js "<html>502 Bad Gateway" ++ [10];
                      json_text "{'message':{'content':'b'},'done':true}" ++ [10]]
                     Chat.EndOfStream)
  = Chat.handleStreamingChat fresh0 (js "llama3") never_cancels
      (Chat.StreamBody [json_text "{'message':{'content':'a'}}" ++ [10];
                        json_text "{'message':{'content':'b'},'done':true}" ++ [10]]
                       Chat.EndOfStream).
Proof.
  apply (malformed_line_is_skipped fresh0 (js "llama3") never_cancels).
  - reflexivity.
  - vm_compute. reflexivity.
  - apply (bool_decide_unpack _). vm_compute. exact I.
  - vm_compute. reflexivity.
Defined.

(** X3. Without cancellation the stream is closed and ends with the
    sentinel, which occurs once, unless the chunk of a frame could not be
    written: then the stream is left open and holds neither a chunk with a
    finish reason nor the sentinel.  In a closed stream the chunk with the
    finish reason is missing exactly when the completion flag arrived in the
    residual of the upstream text, and in every other case it is the one
    event before the sentinel. *)
Theorem finish_chunk_unless_residual_done :
  forall fresh model consumer result,
    Chat.cancelAt consumer = None ->
    exists events,
      Chat.handleStreamingChat fresh model consumer result
      = EventStream events (negb (stream_aborts result))
      /\ existsb is_final_chunk events
         = negb (done_in_residual result) && negb (stream_aborts result)
      /\ (stream_aborts result = true -> forallb is_not_terminal events = true)
      /\ (stream_aborts result = false ->
          exists pre, events = pre ++ [DoneSentinel]
                      /\ forallb (fun e => negb (is_sentinel e)) pre = true)
      /\ (stream_aborts result = false -> done_in_residual result = false ->
          exists pre, events = pre ++ [finalEvent fresh model; DoneSentinel]
                      /\ forallb is_not_terminal pre = true).
Proof.
  intros fresh model consumer result Hc.
  assert (Hnf : forall l, forallb is_not_terminal l = true -> existsb is_final_chunk l = false).
  { induction l as [|e l IH]; simpl; auto. rewrite andb_true_iff. intros [He Hl].
    unfold is_not_terminal in He. apply andb_true_iff in He as [He _].
    apply negb_true_iff in He. rewrite He, (IH Hl). reflexivity. }
  assert (Hns : forall l, forallb is_not_terminal l = true ->
                          forallb (fun e => negb (is_sentinel e)) l = true).
  { induction l as [|e l IH]; simpl; auto. rewrite !andb_true_iff. intros [He Hl].
    unfold is_not_terminal in He. apply andb_true_iff in He as [_ He]. auto. }
  destruct (stream_aborts result) eqn:Hab.
  - destruct (stream_open_on_abort fresh model consumer result Hc Hab) as (events & He & Hp).
    exists events. split; [exact He|]. rewrite andb_false_r.
    split; [apply Hnf, Hp|]. split; [auto|]. split; discriminate.
  - destruct (done_in_residual result) eqn:Hres.
    + destruct (stream_unterminated_on_residual_done fresh model consumer result Hc Hres)
        as (pre & He & Hp & _).
      exists (pre ++ [DoneSentinel]). split; [exact He|]. split; [|split; [discriminate|split]].
      * rewrite existsb_app, (Hnf _ Hp). reflexivity.
      * intros _. exists pre. split; [reflexivity | apply Hns, Hp].
      * discriminate.
    + destruct (stream_ends_with_terminal_chunk fresh model consumer result Hc Hres Hab)
        as (pre & He & Hp & _).
      exists (pre ++ [finalEvent fresh model; DoneSentinel]).
      split; [exact He|]. split; [|split; [discriminate|split]].
      * rewrite existsb_app. simpl. rewrite orb_true_r. reflexivity.
      * intros _. exists (pre ++ [finalEvent fresh model]). rewrite <- app_assoc.
        split; [reflexivity|]. rewrite forallb_app, (Hns _ Hp). reflexivity.
      * intros _ _. exists pre. split; [reflexivity | exact Hp].
Qed.

Lemma finish_chunk_unless_residual_done_witness :
  exists events,
    Chat.handleStreamingChat fresh0 (js "llama3") never_cancels
      (Chat.StreamBody [json_text "{'message':{'content':{'toString':0}},'done':true}" ++ [10]]
                       Chat.EndOfStream)
    = EventStream events false
    /\ existsb is_final_chunk events = false.
Proof.
  destruct (finish_chunk_unless_residual_done fresh0 (js "llama3") never_cancels
              (Chat.StreamBody
                 [json_text "{'message':{'content':{'toString':0}},'done':true}" ++ [10]]
                 Chat.EndOfStream)
              eq_refl) as (events & H & Hf & _).
  exists events. split; assumption.
Defined.

Lemma split_lines_terminated (lines : list jsstr) :
  Forall (fun line => 10 ∉ line) lines ->
  split_lines (concat (List.map (fun line => line ++ [10]) lines)) = (lines, []).
Proof.
  induction lines as [|line lines IH]; intros H; [reflexivity|].
  apply Forall_cons in H as [Hl H]. cbn [List.map concat].
  rewrite <- app_assoc. cbn [app]. rewrite (split_lines_line _ _ Hl), (IH H). reflexivity.
Qed.

(** X4. Content is forwarded verbatim and in order: when the upstream text
    consists of complete lines that each parse to a frame with non-empty
    message content that can be converted to a string (any string, number or
    boolean, and any object without a property [toString]) and no
    completion flag, the stream is the role chunk,
    one content chunk per line carrying that content, then the final chunk
    and the sentinel (with the placeholder when there was no line at all),
    however the text was cut into reads. *)
Theorem content_forwarded_in_order :
  forall fresh model consumer (frames : list (jsstr * json)) chunks,
    Chat.cancelAt consumer = None ->
    Forall (fun '(line, c) =>
              (10 ∉ line)
              /\ exists d, line_frame line = Some d
                           /\ Chat.frame_content d = Some c /\ truthy c = true
                           /\ concatenable c = true
                           /\ truthy_opt (get (js "done") d) = false) frames ->
    concat chunks = concat (List.map (fun f => fst f ++ [10]) frames) ->
    Chat.handleStreamingChat fresh model consumer (Chat.StreamBody chunks Chat.EndOfStream)
    = EventStream
        (roleEvent fresh model
           :: List.map (fun f => DataChunk (Chat.contentChunk fresh model (snd f))) frames
           ++ (if nonempty frames then [] else [placeholderEvent fresh model])
           ++ [finalEvent fresh model; DoneSentinel]) true.
Proof.
  intros fresh model consumer frames chunks Hc Hf Hcat.
  rewrite (stream_refines_expected fresh model consumer _ Hc).
  unfold expected_stream. rewrite Hcat.
  rewrite <- (List.map_map fst (fun line => line ++ [10])).
  rewrite split_lines_terminated.
  2:{ clear -Hf. induction Hf as [|[line c] frames [H _] _ IH]; constructor; auto. }
  assert (Ht : translate fresh model (List.map line_frame (List.map fst frames))
               = (List.map (fun f => DataChunk (Chat.contentChunk fresh model (snd f))) frames,
                  Running)).
  { clear -Hf. induction Hf as [|[line c] frames (_ & d & Hl & Hfc & Hct & Hcc & Hd) _ IH];
      [reflexivity|].
    cbn [List.map fst snd translate]. rewrite Hl, IH.
    unfold frame_throws, frame_done, frame_output. rewrite Hd, Hfc, Hct, Hcc. reflexivity. }
  rewrite Ht. change (residual_frame []) with (@None json).
  cbn [frame_throws frame_done frame_output].
  rewrite app_nil_r. f_equal. f_equal. f_equal.
  destruct frames; reflexivity.
Qed.

Lemma content_forwarded_in_order_witness :
  Chat.handleStreamingChat fresh0 (js "llama3") never_cancels
    (Chat.StreamBody [json_text "{'message':{'content':'Hel"; json_text "lo'}}" ++ [10];
                      json_text "{'message':{'content':' world'}}" ++ [10]]
                     Chat.EndOfStream)
  = EventStream
      [roleEvent fresh0 (js "llama3");
       DataChunk (Chat.contentChunk fresh0 (js "llama3") (JStr (js "Hello")));
       DataChunk (Chat.contentChunk fresh0 (js "llama3") (JStr (js " world")));
       finalEvent fresh0 (js "llama3"); DoneSentinel] true.
Proof.
  apply (content_forwarded_in_order fresh0 (js "llama3") never_cancels
           [(json_text "{'message':{'content':'Hello'}}", JStr (js "Hello"));
            (json_text "{'message':{'content':' world'}}", JStr (js " world"))]).
  - reflexivity.
  - repeat constructor.
    + apply (bool_decide_unpack _). vm_compute. exact I.
    + eexists. vm_compute. repeat split; reflexivity.
    + apply (bool_decide_unpack _). vm_compute. exact I.
    + eexists. vm_compute. repeat split; reflexivity.
  - vm_compute. reflexivity.
Defined.

(** ** Streaming pipeline: whatever the consumer does *)

(** A property of pipeline states that the writes and the flag updates
    preserve is preserved by every part of [start]. *)
Section PipelineInvariant.
Import Chat.
Variable fresh : Fresh.
Variable model : jsstr.
Variable I : Pipeline -> Prop.
Hypothesis I_writeChunk : forall d p, I p -> I (writeChunk d p).
Hypothesis I_safeClose : forall p, I p -> I (safeClose p).
Hypothesis I_set_buffer : forall b p, I p -> I (set_buffer b p).
Hypothesis I_set_hasFinished : forall p, I p -> I (set_hasFinished p).
Hypothesis I_set_hasContentBeenSent : forall p, I p -> I (set_hasContentBeenSent p).

Lemma inv_writeError message p : I p -> I (writeError fresh model message p).
Proof.
  intros H. unfold writeError. destruct (controllerClosed p); [exact H|].
  apply I_safeClose. repeat apply I_writeChunk. exact H.
Qed.

Lemma inv_onError message p : I p -> I (onError fresh model message p).
Proof.
  intros H. unfold onError. destruct (negb (controllerClosed p)); [|exact H].
  apply inv_writeError, H.
Qed.

Lemma inv_ensureMinimalResponse p : I p -> I (ensureMinimalResponse fresh model p).
Proof.
  intros H. unfold ensureMinimalResponse.
  destruct (negb (controllerClosed p) && negb (hasFinished p)); [|exact H].
  set (p1 := if negb (hasContentBeenSent p) && negb (controllerClosed p)
             then set_hasContentBeenSent
                    (writeChunk (contentChunk fresh model (JStr placeholder)) p)
             else p).
  assert (H1 : I p1).
  { subst p1. destruct (negb (hasContentBeenSent p) && negb (controllerClosed p)); [|exact H].
    apply I_set_hasContentBeenSent, I_writeChunk, H. }
  destruct (negb (controllerClosed p1)); [|exact H1].
  apply I_safeClose, I_set_hasFinished, I_writeChunk, H1.
Qed.

Lemma inv_forwardContent d p : I p -> I (forwardContent fresh model d p).
Proof.
  intros H. unfold forwardContent. destruct (frame_content d) as [c|]; [|exact H].
  destruct (truthy c && negb (controllerClosed p)); [|exact H].
  apply I_set_hasContentBeenSent, I_writeChunk, H.
Qed.

Lemma inv_processLine line p : I p -> I (fst (processLine fresh model line p)).
Proof.
  intros H. unfold processLine.
  assert (Hd : forall d,
             I (fst (let p0 := forwardContent fresh model d p in
                     if truthy_opt (get (js "done") d) && negb (controllerClosed p0)
                     then (safeClose (set_hasFinished
                                        (writeChunk (finalChunk fresh model) p0)), true)
                     else (p0, false)))).
  { intros d. cbv zeta. pose proof (inv_forwardContent d p H) as H0.
    destruct (truthy_opt (get (js "done") d)
              && negb (controllerClosed (forwardContent fresh model d p))); simpl.
    - apply I_safeClose, I_set_hasFinished, I_writeChunk, H0.
    - exact H0. }
  destruct (JSON.parse line) as [[]|]; try apply Hd; exact H.
Qed.

Lemma inv_processLines lines p : I p -> I (fst (processLines fresh model lines p)).
Proof.
  revert p. induction lines as [|line rest IH]; intros p H; [exact H|].
  cbn [processLines].
  set (step := match trim line with
               | _ :: _ => if negb (hasFinished p) && negb (controllerClosed p)
                           then processLine fresh model line p else (p, false)
               | [] => (p, false)
               end).
  assert (Hs : I (fst step)).
  { subst step. destruct (trim line); [exact H|].
    destruct (negb (hasFinished p) && negb (controllerClosed p)); [|exact H].
    apply inv_processLine, H. }
  destruct step as [p1 returned]. simpl in Hs.
  destruct returned; [exact Hs|].
  destruct (controllerClosed p1); [exact Hs|]. apply IH, Hs.
Qed.

Lemma inv_finishStream p : I p -> I (finishStream fresh model p).
Proof.
  intros H. unfold finishStream.
  set (p1 := match trim (buffer p) with
             | [] => p
             | _ :: _ =>
               if negb (hasFinished p) && negb (controllerClosed p)
               then match JSON.parse (trim (buffer p)) with
                    | None | Some JNull => p
                    | Some ollamaData =>
                      let p0 := forwardContent fresh model ollamaData p in
                      if truthy_opt (get (js "done") ollamaData)
                      then set_hasFinished p0 else p0
                    end
               else p
             end).
  assert (H1 : I p1).
  { subst p1. destruct (trim (buffer p)); [exact H|].
    destruct (negb (hasFinished p) && negb (controllerClosed p)); [|exact H].
    assert (Hd : forall d,
               I (let p0 := forwardContent fresh model d p in
                  if truthy_opt (get (js "done") d) then set_hasFinished p0 else p0)).
    { intros d. cbv zeta. pose proof (inv_forwardContent d p H) as H0.
      destruct (truthy_opt (get (js "done") d)); [apply I_set_hasFinished|]; exact H0. }
    destruct (JSON.parse _) as [[]|]; try apply Hd; exact H. }
  cbv zeta. fold p1.
  destruct (negb (hasFinished p1) && negb (controllerClosed p1)).
  - apply inv_ensureMinimalResponse, H1.
  - destruct (negb (controllerClosed p1)); [apply I_safeClose, H1 | exact H1].
Qed.

Variable consumer : Consumer.
Hypothesis I_await : forall p, I p -> I (await consumer p).

Lemma inv_readLoop chunks ending p :
  I p -> I (fst (readLoop fresh model consumer chunks ending p)).
Proof.
  revert p. induction chunks as [|value rest IH]; intros p H; cbn [readLoop].
  - destruct (negb (hasFinished p) && negb (controllerClosed p)); [|exact H].
    destruct ending; apply I_await, H.
  - destruct (negb (hasFinished p) && negb (controllerClosed p)); [|exact H].
    destruct (controllerClosed (await consumer p)); [apply I_await, H|].
    destruct (split_lines (buffer (await consumer p) ++ value)) as [lines last].
    pose proof (inv_processLines lines (set_buffer last (await consumer p))
                                 (I_set_buffer _ _ (I_await _ H))) as Hl.
    destruct (processLines fresh model lines (set_buffer last (await consumer p)))
      as [p1 returned].
    simpl in Hl. destruct returned; [exact Hl|]. apply IH, Hl.
Qed.

(** The part of [readLoop] that follows its [await]. *)
Lemma inv_readLoop_resumed chunks ending p :
  I p ->
  I (fst (match chunks with
          | [] => (p, exit_of ending)
          | value :: rest =>
            if controllerClosed p then (p, LoopDone)
            else
              let '(lines, last) := split_lines (buffer p ++ value) in
              let '(p1, returned) := processLines fresh model lines (set_buffer last p) in
              if returned then (p1, Returned)
              else readLoop fresh model consumer rest ending p1
          end)).
Proof.
  intros H. destruct chunks as [|value rest]; [exact H|].
  destruct (controllerClosed p); [exact H|].
  destruct (split_lines (buffer p ++ value)) as [lines last].
  pose proof (inv_processLines lines (set_buffer last p) (I_set_buffer _ _ H)) as Hl.
  destruct (processLines fresh model lines (set_buffer last p)) as [p1 returned].
  simpl in Hl. destruct returned; [exact Hl|]. apply inv_readLoop, Hl.
Qed.

(** The part of [start] that follows a loop exit. *)
Lemma inv_after_loop (r : Pipeline * LoopExit) :
  I (fst r) ->
  I (match r with
     | (p, Returned) => p
     | (p, LoopDone) => finishStream fresh model p
     | (p, Threw message) => onError fresh model message p
     end).
Proof.
  destruct r as [p []]; simpl; intros H;
    [exact H | apply inv_finishStream, H | apply inv_onError, H].
Qed.

(** The part of [start] that follows its first [await]. *)
Lemma inv_start_resumed result p :
  I p ->
  I (match result with
     | StreamCallFailed message => onError fresh model message p
     | StreamHttpError status textFailure =>
       match textFailure with
       | Some message => onError fresh model message (await consumer p)
       | None => writeError fresh model (js "Ollama request failed: " ++ N_to_jsstr status)
                            (await consumer p)
       end
     | StreamNoBody => writeError fresh model (js "No response body from Ollama") p
     | StreamBody chunks ending =>
       match readLoop fresh model consumer chunks ending
                      (writeChunk (assistantRoleChunk fresh model) p) with
       | (p, Returned) => p
       | (p, LoopDone) => finishStream fresh model p
       | (p, Threw message) => onError fresh model message p
       end
     end).
Proof.
  intros H. destruct result as [message | status [message|] | | chunks ending].
  - apply inv_onError, H.
  - apply inv_onError, I_await, H.
  - apply inv_writeError, I_await, H.
  - apply inv_writeError, H.
  - apply inv_after_loop, inv_readLoop, I_writeChunk, H.
Qed.

Lemma inv_start result : I initial -> I (start fresh model consumer result).
Proof.
  intros H. apply (inv_start_resumed result), I_await, H.
Qed.

End PipelineInvariant.

Section CancellationFacts.
Import Chat.
Variable fresh : Fresh.
Variable model : jsstr.

Lemma sealed_writeChunk d p : sealed p -> sealed (writeChunk d p).
Proof.
  unfold writeChunk. intros H.
  destruct (controllerClosed p) eqn:C; [exact H|].
  unfold sealed in *. unfold accepting. destruct (ended p) eqn:E.
  - destruct H as [H _]. congruence.
  - destruct (chunk_throws d); [simpl; rewrite E; exact H|].
    destruct (cancelled p); simpl; rewrite E; [exact H|].
    unfold no_sentinel in *. rewrite forallb_app, H. reflexivity.
Qed.

Lemma sealed_safeClose p : sealed p -> sealed (safeClose p).
Proof.
  unfold safeClose. intros H.
  destruct (controllerClosed p) eqn:C; [exact H|].
  unfold sealed in *. unfold accepting. destruct (ended p) eqn:E.
  - destruct H as [H _]. congruence.
  - destruct (cancelled p); simpl; [rewrite E; exact H|].
    split; [reflexivity|]. exists (queue p). auto.
Qed.

Lemma sealed_start consumer result : sealed (start fresh model consumer result).
Proof.
  apply (inv_start fresh model sealed); auto using sealed_writeChunk, sealed_safeClose.
  reflexivity.
Qed.

(** Once the consumer has cancelled, nothing more is delivered. *)
Lemma cancelled_writeChunk q d p : cancelled_with q p -> cancelled_with q (writeChunk d p).
Proof.
  unfold cancelled_with, writeChunk, accepting. intros (Hc & He & Hq).
  destruct (controllerClosed p); [auto|]. rewrite Hc.
  destruct (chunk_throws d); simpl; auto.
Qed.

Lemma cancelled_safeClose q p : cancelled_with q p -> cancelled_with q (safeClose p).
Proof.
  unfold cancelled_with, safeClose, accepting. intros (Hc & He & Hq).
  destruct (controllerClosed p); [auto|]. rewrite Hc. simpl. auto.
Qed.

Lemma cancelled_await consumer q p : cancelled_with q p -> cancelled_with q (await consumer p).
Proof.
  unfold cancelled_with, await. intros (Hc & He & Hq). simpl. rewrite Hc. auto.
Qed.

(** Events are only ever appended. *)
Lemma extends_writeChunk q d p : extends q p -> extends q (writeChunk d p).
Proof.
  unfold extends, writeChunk. intros H.
  destruct (controllerClosed p); [exact H|].
  destruct (chunk_throws d); [exact H|].
  destruct (accepting p); simpl; [|exact H].
  apply prefix_app_r, H.
Qed.

Lemma extends_safeClose q p : extends q p -> extends q (safeClose p).
Proof.
  unfold extends, safeClose. intros H.
  destruct (controllerClosed p); [exact H|].
  destruct (accepting p); simpl; [|exact H].
  apply prefix_app_r, H.
Qed.

(** Nothing but an [await] lets the consumer cancel. *)
Lemma uncancelled_writeChunk d p : cancelled p = false -> cancelled (writeChunk d p) = false.
Proof.
  unfold writeChunk. intros H.
  destruct (controllerClosed p); [exact H|].
  destruct (chunk_throws d); [exact H|]. destruct (accepting p); exact H.
Qed.

Lemma uncancelled_safeClose p : cancelled p = false -> cancelled (safeClose p) = false.
Proof.
  unfold safeClose. intros H.
  destruct (controllerClosed p); [exact H|]. destruct (accepting p); exact H.
Qed.

Variable consumer never : Consumer.
Hypothesis never_cancels : cancelAt never = None.

Lemma extends_refl p : extends (queue p) p.
Proof. unfold extends. reflexivity. Qed.

Lemma await_never p :
  cancelled p = false -> ended p = false ->
  (await never p = await consumer p /\ cancelled (await consumer p) = false)
  \/ cancelled_with (queue p) (await consumer p).
Proof.
  intros H E. unfold cancelled_with, await. rewrite never_cancels, H. simpl.
  destruct (bool_decide (cancelAt consumer = Some (awaits p))); [right | left]; auto.
Qed.

Lemma sealed_open p : sealed p -> controllerClosed p = false -> ended p = false.
Proof.
  unfold sealed. destruct (ended p); [|reflexivity]. intros [H _] C. congruence.
Qed.

Lemma uncancelled_processLines lines p :
  cancelled p = false -> cancelled (fst (processLines fresh model lines p)) = false.
Proof.
  apply (inv_processLines fresh model (fun p => cancelled p = false));
    auto using uncancelled_writeChunk, uncancelled_safeClose.
Qed.

Lemma sealed_processLines lines p :
  sealed p -> sealed (fst (processLines fresh model lines p)).
Proof.
  apply (inv_processLines fresh model sealed);
    auto using sealed_writeChunk, sealed_safeClose.
Qed.

Lemma cancelled_readLoop_resumed q chunks ending p :
  cancelled_with q p ->
  cancelled_with q
    (fst (match chunks with
          | [] => (p, exit_of ending)
          | value :: rest =>
            if controllerClosed p then (p, LoopDone)
            else
              let '(lines, last) := split_lines (buffer p ++ value) in
              let '(p1, returned) := processLines fresh model lines (set_buffer last p) in
              if returned then (p1, Returned)
              else readLoop fresh model consumer rest ending p1
          end)).
Proof.
  apply (inv_readLoop_resumed fresh model (cancelled_with q));
    eauto using cancelled_writeChunk, cancelled_safeClose, cancelled_await.
Qed.

Lemma extends_readLoop_resumed q chunks ending p :
  extends q p ->
  extends q
    (fst (match chunks with
          | [] => (p, exit_of ending)
          | value :: rest =>
            if controllerClosed p then (p, LoopDone)
            else
              let '(lines, last) := split_lines (buffer p ++ value) in
              let '(p1, returned) := processLines fresh model lines (set_buffer last p) in
              if returned then (p1, Returned)
              else readLoop fresh model never rest ending p1
          end)).
Proof.
  apply (inv_readLoop_resumed fresh model (extends q));
    eauto using extends_writeChunk, extends_safeClose.
Qed.

Lemma trails_readLoop chunks ending p :
  cancelled p = false -> sealed p ->
  (readLoop fresh model consumer chunks ending p = readLoop fresh model never chunks ending p
   /\ cancelled (fst (readLoop fresh model consumer chunks ending p)) = false
   /\ sealed (fst (readLoop fresh model consumer chunks ending p)))
  \/ (exists q, cancelled_with q (fst (readLoop fresh model consumer chunks ending p))
                /\ extends q (fst (readLoop fresh model never chunks ending p))).
Proof.
  revert p. induction chunks as [|value rest IH]; intros p Hc Hs.
  - cbn [readLoop].
    destruct (negb (hasFinished p) && negb (controllerClosed p)) eqn:G; [|left; auto].
    apply andb_true_iff in G as [_ G]. apply negb_true_iff in G.
    destruct (await_never p Hc (sealed_open p Hs G)) as [[-> Hc1] | Hk].
    + left. destruct ending; simpl; auto.
    + right. exists (queue p). split.
      * destruct ending; exact Hk.
      * destruct ending; apply (extends_refl (await never p)).
  - cbn [readLoop].
    destruct (negb (hasFinished p) && negb (controllerClosed p)) eqn:G; [|left; auto].
    apply andb_true_iff in G as [_ G]. apply negb_true_iff in G.
    destruct (await_never p Hc (sealed_open p Hs G)) as [[-> Hc1] | Hk].
    + change (controllerClosed (await consumer p)) with (controllerClosed p). rewrite G.
      change (buffer (await consumer p)) with (buffer p).
      destruct (split_lines (buffer p ++ value)) as [lines last].
      pose proof (uncancelled_processLines lines (set_buffer last (await consumer p)) Hc1) as Hu.
      pose proof (sealed_processLines lines (set_buffer last (await consumer p)) Hs) as Hl.
      destruct (processLines fresh model lines (set_buffer last (await consumer p)))
        as [p1 returned].
      simpl in Hu, Hl. destruct returned; [left; auto|]. apply IH; assumption.
    + right. exists (queue p). split.
      * apply (cancelled_readLoop_resumed (queue p) (value :: rest) ending _ Hk).
      * apply (extends_readLoop_resumed (queue p) (value :: rest) ending (await never p)).
        apply (extends_refl (await never p)).
Qed.

Lemma trails_after_loop (rc ru : Pipeline * LoopExit) :
  (rc = ru /\ cancelled (fst rc) = false /\ sealed (fst rc))
  \/ (exists q, cancelled_with q (fst rc) /\ extends q (fst ru)) ->
  trails
    (match rc with
     | (p, Returned) => p
     | (p, LoopDone) => finishStream fresh model p
     | (p, Threw message) => onError fresh model message p
     end)
    (match ru with
     | (p, Returned) => p
     | (p, LoopDone) => finishStream fresh model p
     | (p, Threw message) => onError fresh model message p
     end).
Proof.
  intros [(-> & Hc & Hs) | (q & Hk & He)]; [left | right; exists q].
  - split; [reflexivity|]. split.
    + apply (inv_after_loop fresh model (fun p => cancelled p = false));
        auto using uncancelled_writeChunk, uncancelled_safeClose.
    + apply (inv_after_loop fresh model sealed);
        auto using sealed_writeChunk, sealed_safeClose.
  - split.
    + apply (inv_after_loop fresh model (cancelled_with q));
        eauto using cancelled_writeChunk, cancelled_safeClose.
    + apply (inv_after_loop fresh model (extends q));
        eauto using extends_writeChunk, extends_safeClose.
Qed.

Lemma trails_start result :
  trails (start fresh model consumer result) (start fresh model never result).
Proof.
  unfold start.
  destruct (await_never initial eq_refl eq_refl) as [[-> Hc] | Hk].
  - assert (Hs : sealed (await consumer initial)) by reflexivity.
    assert (He : ended (await consumer initial) = false) by reflexivity.
    revert Hc Hs He. generalize (await consumer initial). intros p Hc Hs He.
    destruct result as [message | status textFailure | | chunks ending].
    + left. split; [reflexivity|]. split.
      * apply (inv_onError fresh model (fun p => cancelled p = false));
          auto using uncancelled_writeChunk, uncancelled_safeClose.
      * apply (inv_onError fresh model sealed);
          auto using sealed_writeChunk, sealed_safeClose.
    + destruct (await_never p Hc He) as [[-> Hc1] | Hk].
      * left. split; [reflexivity|].
        destruct textFailure as [message|]; split.
        -- apply (inv_onError fresh model (fun p => cancelled p = false));
             auto using uncancelled_writeChunk, uncancelled_safeClose.
        -- apply (inv_onError fresh model sealed);
             auto using sealed_writeChunk, sealed_safeClose.
        -- apply (inv_writeError fresh model (fun p => cancelled p = false));
             auto using uncancelled_writeChunk, uncancelled_safeClose.
        -- apply (inv_writeError fresh model sealed);
             auto using sealed_writeChunk, sealed_safeClose.
      * right. exists (queue p).
        destruct textFailure as [message|]; split.
        -- apply (inv_onError fresh model (cancelled_with (queue p)));
             eauto using cancelled_writeChunk, cancelled_safeClose.
        -- apply (inv_onError fresh model (extends (queue p)));
             eauto using extends_writeChunk, extends_safeClose, extends_refl.
           apply (extends_refl (await never p)).
        -- apply (inv_writeError fresh model (cancelled_with (queue p)));
             eauto using cancelled_writeChunk, cancelled_safeClose.
        -- apply (inv_writeError fresh model (extends (queue p)));
             eauto using extends_writeChunk, extends_safeClose.
           apply (extends_refl (await never p)).
    + left. split; [reflexivity|]. split.
      * apply (inv_writeError fresh model (fun p => cancelled p = false));
          auto using uncancelled_writeChunk, uncancelled_safeClose.
      * apply (inv_writeError fresh model sealed);
          auto using sealed_writeChunk, sealed_safeClose.
    + apply trails_after_loop, trails_readLoop.
      * apply uncancelled_writeChunk, Hc.
      * apply sealed_writeChunk, Hs.
  - right. exists []. split.
    + apply (inv_start_resumed fresh model (cancelled_with []));
        eauto using cancelled_writeChunk, cancelled_safeClose, cancelled_await.
    + apply prefix_nil.
Qed.

End CancellationFacts.

(** X5. Whatever the upstream does and whenever the consumer cancels, the
    sentinel is written at most once, nothing follows it, and it is written
    exactly when the pipeline closes the stream. *)
Theorem sentinel_only_last :
  forall fresh model consumer result,
  exists events ended,
    Chat.handleStreamingChat fresh model consumer result = EventStream events ended
    /\ (ended = true ->
        exists pre, events = pre ++ [DoneSentinel] /\ no_sentinel pre = true)
    /\ (ended = false -> no_sentinel events = true).
Proof.
  intros fresh model consumer result.
  pose proof (sealed_start fresh model consumer result) as H.
  unfold Chat.handleStreamingChat. eexists. eexists. split; [reflexivity|].
  unfold sealed in H.
  destruct (Chat.ended (Chat.start fresh model consumer result)).
  - split; [intros _; apply H | discriminate].
  - split; [discriminate | intros _; exact H].
Qed.

(** X6. Cancelling only cuts the stream short: the events delivered to a
    consumer that cancels are a prefix of the events that the same upstream
    gives a consumer that does not, and a stream that the pipeline closed is
    the complete, closed stream of that consumer. *)
Theorem cancelled_stream_is_prefix :
  forall fresh model consumer result,
  exists events ended full ended',
    Chat.handleStreamingChat fresh model consumer result = EventStream events ended
    /\ Chat.handleStreamingChat fresh model never_cancels result = EventStream full ended'
    /\ events `prefix_of` full
    /\ (ended = true -> events = full /\ ended' = true).
Proof.
  intros fresh model consumer result.
  pose proof (trails_start fresh model consumer never_cancels eq_refl result) as Ht.
  unfold Chat.handleStreamingChat.
  eexists _, _, _, _. split; [reflexivity|]. split; [reflexivity|].
  destruct Ht as [(-> & _ & _) | (q & (_ & Hn & ->) & Hp)].
  - split; [reflexivity | auto].
  - split; [exact Hp|]. congruence.
Qed.

(** ** Credentials and request validation *)

Section ValidationFacts.

Lemma strip_prefix_spec (p s r : jsstr) : strip_prefix p s = Some r <-> s = p ++ r.
Proof.
  revert s. induction p as [|a p IH]; intros s; simpl.
  - split; congruence.
  - destruct s as [|b s]; [split; discriminate|].
    destruct (N.eqb_spec a b) as [->|Hab].
    + rewrite IH. split; congruence.
    + split; [discriminate | congruence].
Qed.

Lemma startsWith_spec (p s : jsstr) : startsWith p s = true <-> exists r, s = p ++ r.
Proof.
  unfold startsWith. destruct (strip_prefix p s) as [r|] eqn:E.
  - apply strip_prefix_spec in E. split; eauto.
  - split; [discriminate|]. intros [r Hr]. apply strip_prefix_spec in Hr. congruence.
Qed.

Lemma truthy_str_Some (o : option jsstr) (s : jsstr) :
  truthy_str o = Some s <-> o = Some s /\ s <> [].
Proof.
  destruct o as [[|c r]|]; simpl.
  - split; [discriminate|]. intros [[= <-] H]. congruence.
  - split.
    + intros [= <-]. split; [reflexivity | discriminate].
    + intros [[= <-] _]. reflexivity.
  - split; [discriminate|]. intros [H _]. discriminate.
Qed.

Lemma truthy_str_None (o : option jsstr) :
  truthy_str o = None <-> o = None \/ o = Some [].
Proof.
  destruct o as [[|c r]|]; simpl; split; auto; try discriminate.
  intros [H|H]; discriminate.
Qed.

Lemma validateMessage_None (i : N) (m : OpenAIMessage) :
  validateMessage i m = None <-> acceptable_message m.
Proof.
  unfold validateMessage, acceptable_message.
  destruct (truthy_str (role m)) as [r|] eqn:Hr.
  - apply truthy_str_Some in Hr as [Hr Hne].
    destruct (includes _ r) eqn:Hi; simpl.
    + apply includes_spec in Hi.
      destruct (bool_decide (r = js "tool")) eqn:Ht; simpl.
      * apply bool_decide_eq_true in Ht.
        destruct (truthy_str (tool_call_id m)) as [t|] eqn:Hc.
        -- rewrite bool_decide_eq_true_2 by eauto. simpl.
           apply truthy_str_Some in Hc as [Hc Hcn].
           destruct (content_truthy (content m)) eqn:Hct; simpl.
           ++ destruct (N.ltb_spec 200000 (N.of_nat (length (convertContentToString (content m))))).
              ** split; [discriminate|]. intros [_ Hl]. lia.
              ** split; [|reflexivity]. intros _. split; [|lia]. exists r. eauto.
           ++ split; [|reflexivity]. intros _. split; [exists r; eauto|].
              destruct (content m) as [[|]| | |]; simpl in *; try discriminate; lia.
        -- rewrite bool_decide_eq_false_2 by (intros [? ?]; discriminate). simpl.
           split; [discriminate|]. intros [(r' & Hr' & _ & Htool) _].
           assert (r' = r) by congruence. subst r'.
           destruct (Htool Ht) as (t & Ht1 & Ht2).
           apply truthy_str_None in Hc as [Hc|Hc]; congruence.
      * apply bool_decide_eq_false in Ht.
        destruct (content_truthy (content m)) eqn:Hct; simpl.
        -- destruct (N.ltb_spec 200000 (N.of_nat (length (convertContentToString (content m))))).
           ++ split; [discriminate|]. intros [_ Hl]. lia.
           ++ split; [|reflexivity]. intros _. split; [|lia]. exists r.
              split; [auto|]. split; [auto|]. intros; contradiction.
        -- split; [|reflexivity]. intros _. split.
           ++ exists r. split; [auto|]. split; [auto|]. intros; contradiction.
           ++ destruct (content m) as [[|]| | |]; simpl in *; try discriminate; lia.
    + split; [discriminate|]. intros [(r' & Hr' & Hin & _) _].
      assert (r' = r) by congruence. subst r'.
      apply includes_spec in Hin. congruence.
  - split; [discriminate|]. intros [(r & Hr' & Hin & _) _].
    apply truthy_str_None in Hr as [Hr|Hr]; rewrite Hr in Hr'; [discriminate|].
    injection Hr' as Hr'. subst r. revert Hin. rewrite !elem_of_cons, elem_of_nil.
    intros [H|[H|[H|[H|[]]]]]; discriminate.
Qed.

Lemma validateMessages_None (i : N) (l : list OpenAIMessage) :
  validateMessages i l = None <-> Forall acceptable_message l.
Proof.
  revert i. induction l as [|m l IH]; intros i; simpl.
  - split; auto.
  - rewrite Forall_cons. rewrite <- (IH (i + 1)), <- (validateMessage_None i).
    destruct (validateMessage i m); split; try tauto; try discriminate.
Qed.

Lemma validateMessages_first (i : N) (pre : list OpenAIMessage) bad post :
  Forall acceptable_message pre ->
  validateMessages i (pre ++ bad :: post)
  = match validateMessage (i + N.of_nat (length pre)) bad with
    | Some e => Some e
    | None => validateMessages (i + N.of_nat (length pre) + 1) post
    end.
Proof.
  revert i. induction pre as [|m pre IH]; intros i H; simpl.
  - rewrite N.add_0_r. reflexivity.
  - apply Forall_cons in H as [Hm H].
    apply (validateMessage_None i) in Hm. rewrite Hm, IH by exact H.
    replace (i + 1 + N.of_nat (length pre)) with (i + N.pos (Pos.of_succ_nat (length pre)))
      by lia.
    reflexivity.
Qed.

Lemma validateMessage_error (i : N) (m : OpenAIMessage) (e : Response) :
  validateMessage i m = Some e ->
  exists message suffix,
    e = invalid_request message (messages_path i suffix)
    /\ message <> []
    /\ suffix ∈ [js ".role"; js ".tool_call_id"; js ".content"].
Proof.
  unfold validateMessage.
  destruct (truthy_str (role m)) as [r|].
  - destruct (negb _).
    + intros [= <-]. eexists _, _. split; [reflexivity|].
      split; [discriminate|]. set_solver.
    + destruct (_ && _).
      * intros [= <-]. eexists _, _. split; [reflexivity|].
        split; [discriminate|]. set_solver.
      * destruct (_ && _); [|discriminate].
        intros [= <-]. eexists _, _. split; [reflexivity|].
        split; [discriminate|]. set_solver.
  - intros [= <-]. eexists _, _. split; [reflexivity|].
    split; [discriminate|]. set_solver.
Qed.

Lemma validateMessages_error (i : N) (l : list OpenAIMessage) (e : Response) :
  validateMessages i l = Some e ->
  exists message param, e = invalid_request message param /\ message <> [].
Proof.
  revert i. induction l as [|m l IH]; intros i; simpl; [discriminate|].
  destruct (validateMessage i m) as [e'|] eqn:Hm.
  - intros [= <-]. apply validateMessage_error in Hm as (message & suffix & -> & Hne & _).
    eauto.
  - apply IH.
Qed.

Lemma validateRequest_error (body : OpenAIChatRequest) (e : Response) :
  validateRequest body = Some e ->
  exists message param, e = invalid_request message param /\ message <> [].
Proof.
  unfold validateRequest. destruct (truthy_str (req_model body)).
  - destruct (req_messages body) as [| |[|m ms]];
      try (intros [= <-]; eexists _, _; split; [reflexivity | discriminate]).
    apply validateMessages_error.
  - intros [= <-]. eexists _, _. split; [reflexivity | discriminate].
Qed.

Lemma validateParameters_error (body : OpenAIChatRequest) (e : Response) :
  validateParameters body = Some e ->
  exists message param, e = invalid_request message param /\ message <> [].
Proof.
  unfold validateParameters, reject_if.
  repeat match goal with
         | |- context [if ?c then _ else _] => destruct c
         end;
    try discriminate;
    intros [= <-]; eexists _, _; (split; [reflexivity | discriminate]).
Qed.

Lemma validateAuth_error (h : option jsstr) (e : Response) :
  validateAuth h = Some e -> e = auth_error.
Proof.
  unfold validateAuth. destruct h as [[|c r]|]; try discriminate.
  repeat match goal with
         | |- context [if ?c then _ else _] => destruct c
         end; congruence.
Qed.

Lemma str_or_nonempty (s d : jsstr) : d <> [] -> str_or s d <> [].
Proof. unfold str_or. destruct s; auto; discriminate. Qed.

End ValidationFacts.

(** X7. A request is let through by [validateAuth] exactly when it carries
    no [Authorization] header, an empty one, or [Bearer ] followed by a token
    that is not empty; the token itself is never compared with anything.
    Every other header gets the 401 reply. *)
Theorem validateAuth_accepts_any_bearer_token :
  forall h,
    (validateAuth h = None
     <-> h = None \/ h = Some [] \/ exists token, token <> [] /\ h = Some (js "Bearer " ++ token))
    /\ (validateAuth h = None \/ validateAuth h = Some auth_error).
Proof.
  intros h. split.
  - unfold validateAuth. destruct h as [[|c r]|]; [tauto | | tauto].
    assert (Hh : c :: r <> []) by discriminate.
    revert Hh. generalize (c :: r). clear c r. intros h Hh.
    destruct (startsWith (js "Bearer ") h) eqn:Hs; cbn [negb].
    + apply startsWith_spec in Hs as [token ->].
      change (drop 7 (js "Bearer " ++ token)) with token.
      destruct token as [|t token]; cbn [length Nat.eqb].
      * split; [discriminate|]. intros [H|[H|(tok & Hne & H)]]; try discriminate.
        injection H as H. destruct tok; [congruence | discriminate].
      * split; [|reflexivity]. intros _. right. right. exists (t :: token).
        split; [discriminate | reflexivity].
    + split; [discriminate|]. intros [H|[H|(tok & Hne & H)]]; try discriminate.
      * congruence.
      * assert (startsWith (js "Bearer ") h = true)
          by (apply startsWith_spec; exists tok; congruence).
        congruence.
  - destruct (validateAuth h) as [e|] eqn:E; [right | left; reflexivity].
    apply validateAuth_error in E. congruence.
Qed.

(** X8. [validateRequest] lets a body through exactly when it names a model,
    carries a non-empty array of messages, and every message is acceptable:
    known role, tool call id on tool messages, content of at most 200000
    code units once flattened. *)
Theorem validateRequest_accepts_iff :
  forall body,
    validateRequest body = None
    <-> (exists model, req_model body = Some model /\ model <> [])
        /\ exists messages,
             req_messages body = MessagesArray messages
             /\ messages <> [] /\ Forall acceptable_message messages.
Proof.
  intros body. unfold validateRequest.
  destruct (truthy_str (req_model body)) as [model|] eqn:Hm.
  - apply truthy_str_Some in Hm.
    destruct (req_messages body) as [| |[|m l]].
    + split; [discriminate|]. intros [_ (ms & H & _)]. discriminate.
    + split; [discriminate|]. intros [_ (ms & H & _)]. discriminate.
    + split; [discriminate|]. intros [_ (ms & H & Hne & _)]. congruence.
    + rewrite validateMessages_None. split.
      * intros H. split; [eauto|]. exists (m :: l). split; [reflexivity|]. split; [discriminate | exact H].
      * intros [_ (ms & [= <-] & _ & H)]. exact H.
  - split; [discriminate|]. intros [(model & H1 & H2) _].
    apply truthy_str_None in Hm as [Hm|Hm]; congruence.
Qed.

(** X9. The error of [validateRequest] names the first message that is not
    acceptable: its [param] is [messages[i]] followed by the offending field,
    where [i] is the number of acceptable messages before it. *)
Theorem validateRequest_reports_first_invalid_message :
  forall body model pre bad post,
    req_model body = Some model -> model <> [] ->
    req_messages body = MessagesArray (pre ++ bad :: post) ->
    Forall acceptable_message pre ->
    ~ acceptable_message bad ->
    exists message suffix,
      validateRequest body
      = Some (invalid_request message (messages_path (N.of_nat (length pre)) suffix))
      /\ suffix ∈ [js ".role"; js ".tool_call_id"; js ".content"].
Proof.
  intros body model pre bad post Hm Hne Hb Hpre Hbad. unfold validateRequest.
  rewrite (proj2 (truthy_str_Some _ _) (conj Hm Hne)), Hb.
  destruct (pre ++ bad :: post) as [|x l] eqn:E; [destruct pre; discriminate|].
  rewrite <- E, (validateMessages_first 0 pre bad post Hpre), N.add_0_l.
  destruct (validateMessage (N.of_nat (length pre)) bad) as [e|] eqn:He.
  - apply validateMessage_error in He as (message & suffix & -> & _ & Hs).
    exists message, suffix. split; [reflexivity | exact Hs].
  - apply validateMessage_None in He. contradiction.
Qed.

Lemma validateRequest_reports_first_invalid_message_witness :
  exists message suffix,
    validateRequest
      (plain_request "llama3"
         (MessagesArray [user_message "hi";
                         {| role := Some (js "robot"); content := ContentNull;
                            tool_call_id := None |};
                         {| role := None; content := ContentNull; tool_call_id := None |}])
         None)
    = Some (invalid_request message (messages_path 1 suffix))
    /\ suffix ∈ [js ".role"; js ".tool_call_id"; js ".content"].
Proof.
  apply (validateRequest_reports_first_invalid_message _ (js "llama3") [user_message "hi"]
           {| role := Some (js "robot"); content := ContentNull; tool_call_id := None |}
           [{| role := None; content := ContentNull; tool_call_id := None |}]).
  - reflexivity.
  - discriminate.
  - reflexivity.
  - constructor; [|constructor].
    apply (validateMessage_None 0). vm_compute. reflexivity.
  - intros H. apply (validateMessage_None 0) in H. vm_compute in H. discriminate.
Defined.

(** X10. Every error reply of the chat endpoint has status 400, 401, 404 or
    500 and a message that is not empty; its type is
    [internal_server_error] exactly when the status is 500 and
    [invalid_request_error] otherwise, and it never carries a [code]. *)
Theorem chat_error_replies :
  forall cfg backend fresh consumer req status error,
    Chat.handleChatCompletions cfg backend fresh consumer req = ErrorResponse status error ->
    status ∈ [400; 401; 404; 500]
    /\ err_message error <> []
    /\ err_type error = (if status =? 500 then js "internal_server_error"
                         else js "invalid_request_error")
    /\ err_code error = None.
Proof.
  intros cfg backend fresh consumer req status error.
  assert (Hinv : forall message param,
             invalid_request message param = ErrorResponse status error ->
             message <> [] ->
             status ∈ [400; 401; 404; 500] /\ err_message error <> []
             /\ err_type error = (if status =? 500 then js "internal_server_error"
                                  else js "invalid_request_error")
             /\ err_code error = None).
  { intros message param [= <- <-] Hne. simpl.
    split; [repeat constructor|]. split; [exact Hne|]. split; reflexivity. }
  assert (Hint : forall message,
             Chat.internal_error message = ErrorResponse status error ->
             status ∈ [400; 401; 404; 500] /\ err_message error <> []
             /\ err_type error = (if status =? 500 then js "internal_server_error"
                                  else js "invalid_request_error")
             /\ err_code error = None).
  { intros message [= <- <-]. simpl.
    split; [repeat constructor|]. split; [|split; reflexivity].
    apply str_or_nonempty. discriminate. }
  unfold Chat.handleChatCompletions.
  destruct (validateAuth (Chat.authorization req)) as [e|] eqn:Ha.
  { apply validateAuth_error in Ha. subst e. intros [= <- <-]. simpl.
    split; [repeat constructor|]. split; [discriminate|]. split; reflexivity. }
  destruct (Chat.json_body req) as [message|body]; [apply Hint|].
  destruct (validateRequest body) as [e|] eqn:Hr.
  { apply validateRequest_error in Hr as (message & param & -> & Hne).
    intros H. exact (Hinv _ _ H Hne). }
  destruct (negb _).
  { intros [= <- <-]. simpl.
    split; [repeat constructor|]. split; [discriminate|]. split; reflexivity. }
  destruct (validateParameters body) as [e|] eqn:Hp.
  { apply validateParameters_error in Hp as (message & param & -> & Hne).
    intros H. exact (Hinv _ _ H Hne). }
  destruct (Chat.effectiveStream cfg body).
  - unfold Chat.handleStreamingChat. discriminate.
  - unfold Chat.handleNonStreamingChat.
    destruct (Chat.chat backend _) as [m | s st [m|] | m | r];
      try apply Hint; discriminate.
Qed.

Lemma chat_error_replies_witness :
  let error := {| err_message := js "Missing required parameter: messages";
                  err_type := js "invalid_request_error";
                  err_param := Some (js "messages"); err_code := None |} in
  400 ∈ [400; 401; 404; 500]
  /\ err_message error <> []
  /\ err_type error = (if 400 =? 500 then js "internal_server_error"
                       else js "invalid_request_error")
  /\ err_code error = None.
Proof.
  intros error.
  apply (chat_error_replies {| Chat.OLLAMA_STREAM := true |} backend0 fresh0 never_cancels
           (chat_request None (plain_request "llama3" MessagesMissing None)) 400 error).
  vm_compute. reflexivity.
Defined.

(** ** Model directory: names *)

Section ModelNameFacts.
Import ModelService.

Lemma elem_of_map_filter_name (p : OllamaModel -> bool) (q : jsstr -> bool) (l : list OllamaModel) n :
  (forall m, p m = q (name m)) ->
  n ∈ List.map name (List.filter p l) <-> n ∈ List.map name l /\ q n = true.
Proof.
  intros Hpq. induction l as [|m l IH]; simpl.
  - rewrite elem_of_nil. tauto.
  - destruct (p m) eqn:P; simpl; rewrite ?elem_of_cons, IH.
    + rewrite Hpq in P. split; [intros [->|[? ?]]; auto | tauto].
    + rewrite Hpq in P. split; [tauto | intros [[->|?] ?]; [congruence | tauto]].
Qed.

Lemma dedup_by_name_names (l : list OllamaModel) n :
  n ∈ List.map name (dedup_by_name l) <-> n ∈ List.map name l.
Proof.
  induction l as [|m l IH]; simpl; [tauto|].
  rewrite !elem_of_cons.
  rewrite (elem_of_map_filter_name _ (fun x => negb (bool_decide (x = name m)))) by reflexivity.
  rewrite IH. destruct (decide (n = name m)) as [->|Hn].
  - tauto.
  - rewrite bool_decide_eq_false_2 by exact Hn. simpl. tauto.
Qed.

Lemma dedup_by_name_NoDup (l : list OllamaModel) : NoDup (List.map name (dedup_by_name l)).
Proof.
  induction l as [|m l IH]; simpl; [constructor|].
  constructor.
  - rewrite (elem_of_map_filter_name _ (fun x => negb (bool_decide (x = name m)))) by reflexivity.
    rewrite bool_decide_eq_true_2 by reflexivity. simpl. intros [_ H]. discriminate.
  - clear -IH. induction (dedup_by_name l) as [|x d IHd]; simpl; [constructor|].
    apply NoDup_cons in IH as [Hx Hd]. simpl in Hx.
    destruct (negb (bool_decide (name x = name m))); simpl; [|auto].
    constructor; [|auto].
    rewrite (elem_of_map_filter_name _ (fun y => negb (bool_decide (y = name m)))) by reflexivity.
    tauto.
Qed.

Lemma unified_names (localTags remoteTags : TagsResult) n :
  n ∈ List.map name (getUnifiedModels localTags remoteTags)
  <-> n ∈ List.map name (getLocalModels localTags)
      \/ n ∈ List.map name (getRemoteModels remoteTags).
Proof.
  unfold getUnifiedModels. rewrite deduplicateModels_spec, dedup_by_name_names.
  rewrite List.map_app, elem_of_app.
  rewrite (elem_of_map_filter_name _ (fun x => negb (isRemoteModel x))) by reflexivity.
  rewrite (elem_of_map_filter_name _ isRemoteModel) by reflexivity.
  rewrite List.map_app, elem_of_app.
  destruct (isRemoteModel n); simpl; intuition discriminate.
Qed.

Lemma existsb_name (l : list OllamaModel) n :
  existsb (fun model => bool_decide (name model = n)) l = true <-> n ∈ List.map name l.
Proof.
  induction l as [|m l IH]; simpl.
  - rewrite elem_of_nil. split; [discriminate | tauto].
  - rewrite orb_true_iff, IH, elem_of_cons, bool_decide_eq_true. intuition congruence.
Qed.

End ModelNameFacts.

(** X11. No name is listed twice in the unified list.  A model is available
    exactly when the local runtime lists it or the remote runtime lists it
    under an allowlisted name; the chat endpoint accepts exactly the
    available models; and a listed model is labelled [ollama-turbo] exactly
    when its name is on the allowlist, whichever runtime listed it. *)
Theorem unified_model_names :
  forall localTags remoteTags,
    NoDup (List.map ModelService.name (ModelService.getUnifiedModels localTags remoteTags))
    /\ (forall n,
          ModelService.isModelAvailable localTags remoteTags n = true
          <-> n ∈ List.map ModelService.name (ModelService.getLocalModels localTags)
              \/ (n ∈ List.map ModelService.name
                        (ModelService.getLocalModels remoteTags)
                  /\ n ∈ REMOTE_MODELS))
    /\ (forall n,
          validateModel n (List.map ModelService.id
                             (ModelService.getOpenAIModels localTags remoteTags))
          = ModelService.isModelAvailable localTags remoteTags n)
    /\ (forall d,
          d ∈ ModelService.getOpenAIModels localTags remoteTags ->
          (ModelService.owned_by d = js "ollama-turbo" <-> ModelService.id d ∈ REMOTE_MODELS)
          /\ (ModelService.owned_by d = js "local" <-> ModelService.id d ∉ REMOTE_MODELS)).
Proof.
  intros localTags remoteTags. split; [|split; [|split]].
  - unfold ModelService.getUnifiedModels. rewrite deduplicateModels_spec.
    apply dedup_by_name_NoDup.
  - intros n. unfold ModelService.isModelAvailable. rewrite existsb_name, unified_names.
    assert (Hr : n ∈ List.map ModelService.name (ModelService.getRemoteModels remoteTags)
                 <-> n ∈ List.map ModelService.name (ModelService.getLocalModels remoteTags)
                     /\ n ∈ REMOTE_MODELS).
    { destruct remoteTags as [|[ms|]]; simpl; try (rewrite elem_of_nil; tauto).
      rewrite (elem_of_map_filter_name _ (includes REMOTE_MODELS)) by reflexivity.
      rewrite includes_spec. tauto. }
    rewrite Hr. tauto.
  - intros n. unfold ModelService.isModelAvailable, validateModel.
    rewrite openai_model_ids.
    apply eq_true_iff_eq. rewrite includes_spec, existsb_name. reflexivity.
  - intros d Hd. unfold ModelService.getOpenAIModels in Hd.
    apply list_elem_of_In, in_map_iff in Hd as (m & <- & _). simpl.
    unfold ModelService.isRemoteModel.
    destruct (includes REMOTE_MODELS (ModelService.name m)) eqn:Hi.
    + apply includes_spec in Hi. split; split; auto; try discriminate. tauto.
    + assert (ModelService.name m ∉ REMOTE_MODELS).
      { intros H. apply includes_spec in H. congruence. }
      split; split; auto; try discriminate. tauto.
Qed.

(** ** Routing of the native surface *)

Section FetchFacts.
Import Server.

Lemma equals_spec (s : string) (x : jsstr) : equals s x = true <-> x = js s.
Proof. unfold equals. apply bool_decide_eq_true. Qed.

End FetchFacts.

(** X12. When the server answers a request by forwarding it
    ([forwardOllamaRequest]), the path is under [/api/], the credential is
    attached exactly when the target is the remote host, and the target is
    the remote host only for a POST to one of the five model-bearing
    endpoints whose body names an allowlisted model.  The handlers that the
    server calls instead of forwarding ([handleUnifiedTags],
    [handleOllamaVersion], [handleModels], [handleChatCompletions]) make
    their own calls and are not covered by this statement. *)
Theorem remote_forwarding_is_confined :
  forall req host useAuth,
    Server.fetch req = Server.forwardOllamaRequest host useAuth ->
    startsWith (js "/api/") (Server.pathname req) = true
    /\ Server.method req <> js "OPTIONS"
    /\ (useAuth = true <-> host = Server.OLLAMA_HOST)
    /\ (host = Server.OLLAMA_HOST ->
        Server.method req = js "POST"
        /\ Server.pathname req ∈ [js "/api/generate"; js "/api/chat"; js "/api/embed";
                                  js "/api/embeddings"; js "/api/show"]
        /\ exists b s, Server.body req = Some b /\ get (js "model") b = Some (JStr s)
                       /\ s ∈ REMOTE_MODELS).
Proof.
  intros req host useAuth. unfold Server.fetch.
  destruct (Server.equals "OPTIONS" (Server.method req)) eqn:Ho; [discriminate|].
  assert (Hopt : Server.method req <> js "OPTIONS").
  { intros H. apply equals_spec in H. congruence. }
  destruct (startsWith (js "/v1/") (Server.pathname req)).
  { repeat match goal with
           | |- context [if ?c then _ else _] => destruct c
           end; discriminate. }
  destruct (startsWith (js "/api/") (Server.pathname req)) eqn:Hapi.
  2:{ destruct (_ && _); discriminate. }
  assert (Hlocal : Server.forwardOllamaRequest Server.LOCAL_OLLAMA_HOST false
                   = Server.forwardOllamaRequest host useAuth ->
                   true = true /\ Server.method req <> js "OPTIONS"
                   /\ (useAuth = true <-> host = Server.OLLAMA_HOST)
                   /\ (host = Server.OLLAMA_HOST ->
                       Server.method req = js "POST"
                       /\ Server.pathname req ∈ [js "/api/generate"; js "/api/chat";
                                                 js "/api/embed"; js "/api/embeddings";
                                                 js "/api/show"]
                       /\ exists b s, Server.body req = Some b
                                      /\ get (js "model") b = Some (JStr s)
                                      /\ s ∈ REMOTE_MODELS)).
  { intros [= <- <-]. split; [reflexivity|]. split; [exact Hopt|].
    split; [split; discriminate | discriminate]. }
  destruct (Server.equals "/api/tags" _ && _); [discriminate|].
  destruct (Server.equals "/api/ps" _ && _); [discriminate|].
  destruct (Server.equals "/api/version" _ && _); [discriminate|].
  destruct (startsWith (js "/api/blobs/") _ && _).
  { destruct (Server.extractDigestFromPath _); [exact Hlocal | discriminate]. }
  destruct (includes [js "POST"] (Server.method req) && _) eqn:Hm.
  2:{ destruct (includes [js "POST"; js "DELETE"] _ && _); exact Hlocal. }
  apply andb_true_iff in Hm as [Hm Hp].
  apply includes_spec in Hm, Hp. apply list_elem_of_singleton in Hm.
  destruct (Server.extractModelFromRequest req) as [v|] eqn:He; [|exact Hlocal].
  destruct (Server.isRemoteModelValue v) eqn:Hv; [|exact Hlocal].
  intros [= <- <-]. split; [reflexivity|]. split; [exact Hopt|].
  split; [tauto|]. intros _. split; [exact Hm|]. split; [exact Hp|].
  destruct v as [| | |s| |]; try discriminate Hv.
  apply (extract_model_string req s Hm) in He as (b & Hb & Hg & _).
  exists b, s. split; [exact Hb|]. split; [exact Hg|].
  apply includes_spec. exact Hv.
Qed.

Lemma remote_forwarding_is_confined_witness :
  let req := {| Server.method := js "POST"; Server.pathname := js "/api/generate";
                Server.body := JSON.parse (json_text "{'model':'gpt-oss:120b','prompt':'hi'}") |} in
  startsWith (js "/api/") (Server.pathname req) = true
  /\ Server.method req <> js "OPTIONS"
  /\ (true = true <-> Server.OLLAMA_HOST = Server.OLLAMA_HOST)
  /\ (Server.OLLAMA_HOST = Server.OLLAMA_HOST ->
      Server.method req = js "POST"
      /\ Server.pathname req ∈ [js "/api/generate"; js "/api/chat"; js "/api/embed";
                                js "/api/embeddings"; js "/api/show"]
      /\ exists b s, Server.body req = Some b /\ get (js "model") b = Some (JStr s)
                     /\ s ∈ REMOTE_MODELS).
Proof.
  intros req.
  apply (remote_forwarding_is_confined req Server.OLLAMA_HOST true).
  vm_compute. reflexivity.
Defined.

(** X13. Blob requests never leave the machine: a HEAD or POST under
    [/api/blobs/] is forwarded to the local runtime without credential when
    the rest of the path is a digest, that is, not empty and free of line
    terminators, and is answered with the invalid-digest reply otherwise,
    whatever its body says. *)
Theorem blob_requests_stay_local :
  forall req digest,
    Server.method req ∈ [js "HEAD"; js "POST"] ->
    Server.pathname req = js "/api/blobs/" ++ digest ->
    Server.fetch req
    = if nonempty digest && forallb (fun c => negb (Server.is_line_terminator c)) digest
      then Server.forwardOllamaRequest Server.LOCAL_OLLAMA_HOST false
      else Server.InvalidBlobDigest.
Proof.
  intros req digest Hm Hp. unfold Server.fetch. rewrite Hp.
  assert (Ho : Server.equals "OPTIONS" (Server.method req) = false).
  { apply bool_decide_eq_false. intros H. rewrite H in Hm.
    revert Hm. rewrite !elem_of_cons, elem_of_nil. intros [?|[?|[]]]; discriminate. }
  assert (Hg : Server.equals "GET" (Server.method req) = false).
  { apply bool_decide_eq_false. intros H. rewrite H in Hm.
    revert Hm. rewrite !elem_of_cons, elem_of_nil. intros [?|[?|[]]]; discriminate. }
  rewrite Ho, Hg, !andb_false_r.
  change (startsWith (js "/v1/") (js "/api/blobs/" ++ digest)) with false.
  assert (Hs : forall p, startsWith p (p ++ digest) = true).
  { intros p. apply startsWith_spec. eauto. }
  change (startsWith (js "/api/") (js "/api/blobs/" ++ digest))
    with (startsWith (js "/api/") (js "/api/" ++ (js "blobs/" ++ digest))).
  assert (Hs' : forall p r : jsstr, startsWith p (p ++ r) = true).
  { intros p r. apply startsWith_spec. eauto. }
  rewrite Hs'. change (js "/api/" ++ js "blobs/" ++ digest) with (js "/api/blobs/" ++ digest).
  rewrite Hs'. apply includes_spec in Hm. rewrite Hm. cbn [andb].
  unfold Server.extractDigestFromPath.
  rewrite (proj2 (strip_prefix_spec (js "/api/blobs/") _ digest) eq_refl).
  destruct digest as [|c r]; [reflexivity|]. cbn [nonempty andb].
  destruct (forallb _ (c :: r)); reflexivity.
Qed.

Lemma blob_requests_stay_local_witness :
  Server.fetch {| Server.method := js "POST";
                  Server.pathname := js "/api/blobs/" ++ js "sha256:29fdb92e57cf";
                  Server.body := JSON.parse (json_text "{'model':'gpt-oss:120b'}") |}
  = Server.forwardOllamaRequest Server.LOCAL_OLLAMA_HOST false.
Proof.
  apply (blob_requests_stay_local
           {| Server.method := js "POST";
              Server.pathname := js "/api/blobs/" ++ js "sha256:29fdb92e57cf";
              Server.body := JSON.parse (json_text "{'model':'gpt-oss:120b'}") |}
           (js "sha256:29fdb92e57cf")).
  - apply (bool_decide_unpack _). vm_compute. exact I.
  - reflexivity.
Defined.

(** ** The client and the handlers built on it *)

Section StringFacts.

Lemma str_includes_spec (needle haystack : jsstr) :
  str_includes needle haystack = true <-> contains needle haystack.
Proof.
  unfold contains. induction haystack as [|c h IH]; simpl.
  - rewrite orb_false_r, startsWith_spec. split.
    + intros [r Hr]. exists [], r. exact Hr.
    + intros (pre & post & H). destruct pre; [eauto|discriminate].
  - rewrite orb_true_iff, startsWith_spec, IH. split.
    + intros [[r Hr] | (pre & post & ->)].
      * exists [], r. exact Hr.
      * exists (c :: pre), post. reflexivity.
    + intros (pre & post & H). destruct pre as [|x pre].
      * left. exists post. exact H.
      * right. injection H as _ ->. eauto.
Qed.

Lemma contains_skip (c : N) (needle pre rest : jsstr) :
  c ∉ pre -> contains (c :: needle) (pre ++ rest) -> contains (c :: needle) rest.
Proof.
  unfold contains. induction pre as [|x pre IH]; intros Hc (a & b & H); [eauto|].
  destruct a as [|y a]; simpl in H; injection H as -> H.
  - exfalso. apply Hc. left.
  - apply IH; [|eauto]. intros Hin. apply Hc. right. exact Hin.
Qed.

Lemma uint_digits (d : Decimal.uint) :
  Forall (fun c => 48 <= c <= 57) (js (NilZero.string_of_uint d)).
Proof.
  assert (H : Forall (fun c => 48 <= c <= 57) (js (NilEmpty.string_of_uint d))).
  { induction d; constructor; solve [vm_compute; split; discriminate | exact IHd]. }
  destruct d; try exact H. constructor; [vm_compute; split; discriminate | constructor].
Qed.

Lemma N_to_jsstr_digits (n : N) : Forall (fun c => 48 <= c <= 57) (N_to_jsstr n).
Proof. apply uint_digits. Qed.

End StringFacts.

Section ClientFacts.
Import OllamaClient.

Lemma validateModel_available localTags remoteTags n :
  validateModel n (List.map ModelService.id
                     (ModelService.getOpenAIModels localTags remoteTags))
  = ModelService.isModelAvailable localTags remoteTags n.
Proof.
  unfold ModelService.isModelAvailable, validateModel. rewrite openai_model_ids.
  apply eq_true_iff_eq. rewrite includes_spec, existsb_name. reflexivity.
Qed.

Lemma getRemoteTags_without_key env fetch :
  truthy_str (OLLAMA_API_KEY env) = None -> getRemoteTags env fetch = ModelService.TagsFailed.
Proof. intros H. unfold getRemoteTags, fetchRemote. rewrite H. reflexivity. Qed.

Lemma chatCompletion_without_key {R} env (fetch : FetchCall -> Fetched R) model requestBody :
  truthy_str (OLLAMA_API_KEY env) = None -> model ∈ REMOTE_MODELS ->
  chatCompletion env fetch model requestBody = Rejects missing_key.
Proof.
  intros H Hm. unfold chatCompletion, fetchRemote.
  change [js "gpt-oss:120b"; js "gpt-oss:20b"] with REMOTE_MODELS.
  rewrite (proj2 (includes_spec _ _) Hm), H. reflexivity.
Qed.

End ClientFacts.

(** X14. Without the remote credential, a chat request that names an
    allowlisted model is never served and never reaches the network for the
    completion: the model is unknown (404) unless the local runtime lists
    that name, and then the call fails before any request is made, with 500
    on the non-streaming path and with the error stream on the streaming
    path. *)
Theorem remote_model_without_key :
  forall cfg env fetchTags fetchChat fetchStream fresh consumer authorization body model,
    truthy_str (OllamaClient.OLLAMA_API_KEY env) = None ->
    validateAuth authorization = None ->
    validateRequest body = None ->
    req_model body = Some model ->
    model ∈ REMOTE_MODELS ->
    validateParameters body = None ->
    Chat.handleChatCompletions cfg (client_backend env fetchTags fetchChat fetchStream)
                               fresh consumer (chat_request authorization body)
    = if ModelService.isModelAvailable (OllamaClient.getLocalTags fetchTags)
                              ModelService.TagsFailed model
      then if Chat.effectiveStream cfg body
           then Chat.handleStreamingChat fresh model consumer
                                         (Chat.StreamCallFailed missing_key)
           else Chat.internal_error missing_key
      else Chat.model_not_found model.
Proof.
  intros cfg env fetchTags fetchChat fetchStream fresh consumer authorization body model
         Hkey Ha Hr Hm Hin Hp.
  unfold Chat.handleChatCompletions. cbn [chat_request Chat.authorization Chat.json_body].
  rewrite Ha, Hr, Hm. change (default [] (Some model)) with model.
  cbn [client_backend Chat.localTags Chat.remoteTags].
  rewrite validateModel_available, (getRemoteTags_without_key env fetchTags Hkey).
  destruct (ModelService.isModelAvailable _ _ model); [|reflexivity]. cbn [negb].
  rewrite Hp. unfold client_backend. cbn [Chat.chat Chat.chatStream].
  set (ollamaRequest := Chat.buildOllamaRequest cfg model _ body).
  change (Chat.oreq_model ollamaRequest) with model.
  rewrite !(chatCompletion_without_key env _ model _ Hkey Hin).
  destruct (Chat.effectiveStream cfg body); reflexivity.
Qed.

Lemma remote_model_without_key_witness :
  let fetchTags := fun _ : OllamaClient.FetchCall =>
    OllamaClient.Resolves
      {| OllamaClient.tags_ok := true;
         OllamaClient.tags_json :=
           ModelService.TagsOk (Some [tagged_model "gpt-oss:20b" "local"]) |} in
  Chat.handleChatCompletions {| Chat.OLLAMA_STREAM := true |}
    (client_backend {| OllamaClient.OLLAMA_API_KEY := None |} fetchTags
                    (fun _ => OllamaClient.Resolves (Chat.Completed (reply (js "hello"))))
                    (fun _ => OllamaClient.Resolves Chat.StreamNoBody))
    fresh0 never_cancels
    (chat_request None (plain_request "gpt-oss:20b" (MessagesArray [user_message "hi"]) None))
  = Chat.internal_error missing_key.
Proof.
  intros fetchTags.
  apply (remote_model_without_key {| Chat.OLLAMA_STREAM := true |}
           {| OllamaClient.OLLAMA_API_KEY := None |} fetchTags _ _ fresh0 never_cancels None
           (plain_request "gpt-oss:20b" (MessagesArray [user_message "hi"]) None)
           (js "gpt-oss:20b")).
  - reflexivity.
  - reflexivity.
  - vm_compute. reflexivity.
  - reflexivity.
  - apply (bool_decide_unpack _). vm_compute. exact I.
  - vm_compute. reflexivity.
Defined.

(** X15. The two surfaces agree on where a model is served: with the
    credential configured, the one call that [chatCompletion] makes goes to
    the host, and carries the credential exactly when, the server forwards a
    native [POST /api/chat] naming the same model; the request of the
    dispatcher is its body and the response is handed back untouched. *)
Theorem chat_call_matches_native_route :
  forall (R : Type) env key (fetch : OllamaClient.FetchCall -> OllamaClient.Fetched R)
         model requestBody req b,
    OllamaClient.OLLAMA_API_KEY env = Some key -> key <> [] ->
    Server.method req = js "POST" ->
    Server.pathname req = js "/api/chat" ->
    Server.body req = Some b ->
    get (js "model") b = Some (JStr model) ->
    model <> [] ->
    exists call,
      Server.fetch req
      = Server.forwardOllamaRequest
          (OllamaClient.host call)
          (bool_decide (is_Some (OllamaClient.authorization call)))
      /\ (OllamaClient.host call = Server.OLLAMA_HOST <-> model ∈ REMOTE_MODELS)
      /\ (OllamaClient.authorization call = None
          \/ OllamaClient.authorization call = Some (js "Bearer " ++ key))
      /\ OllamaClient.endpoint call = Server.pathname req
      /\ OllamaClient.call_method call = Server.method req
      /\ OllamaClient.call_body call = OllamaClient.ChatBody requestBody
      /\ (forall response,
            fetch call = OllamaClient.Resolves response ->
            OllamaClient.chatCompletion env fetch model requestBody
            = OllamaClient.Resolves response)
      /\ (forall message,
            fetch call = OllamaClient.Rejects message ->
            exists message',
              OllamaClient.chatCompletion env fetch model requestBody
              = OllamaClient.Rejects message'
              /\ contains message message').
Proof.
  intros R env key fetch model requestBody req b Hkey Hne Hm Hp Hb Hg Hmodel.
  assert (Hroute := model_route req Hm
                      ltac:(rewrite Hp; apply (bool_decide_unpack _); vm_compute; exact I)).
  assert (He : Server.extractModelFromRequest req = Some (JStr model)).
  { apply (extract_model_string req model Hm). eauto. }
  rewrite He in Hroute. cbn [Server.isRemoteModelValue] in Hroute.
  unfold OllamaClient.chatCompletion, OllamaClient.fetchRemote, OllamaClient.fetchLocal.
  change [js "gpt-oss:120b"; js "gpt-oss:20b"] with REMOTE_MODELS.
  unfold Server.isRemoteModel in Hroute.
  rewrite (proj2 (truthy_str_Some _ _) (conj Hkey Hne)).
  destruct (includes REMOTE_MODELS model) eqn:Hi.
  - exists {| OllamaClient.host := Server.OLLAMA_HOST; OllamaClient.endpoint := js "/api/chat";
              OllamaClient.call_method := js "POST";
              OllamaClient.authorization := Some (js "Bearer " ++ key);
              OllamaClient.call_body := OllamaClient.ChatBody requestBody |}.
    cbn [OllamaClient.host OllamaClient.endpoint OllamaClient.call_method
         OllamaClient.authorization OllamaClient.call_body].
    split; [exact Hroute|]. split; [split; [intros _; apply includes_spec, Hi | reflexivity]|].
    split; [right; reflexivity|]. rewrite Hp, Hm. repeat (split; [reflexivity|]).
    split.
    + intros response ->. reflexivity.
    + intros message ->. eexists. split; [reflexivity|].
      exists (js "Remote Ollama connection failed: "), []. rewrite app_nil_r. reflexivity.
  - exists {| OllamaClient.host := Server.LOCAL_OLLAMA_HOST;
              OllamaClient.endpoint := js "/api/chat";
              OllamaClient.call_method := js "POST";
              OllamaClient.authorization := None;
              OllamaClient.call_body := OllamaClient.ChatBody requestBody |}.
    cbn [OllamaClient.host OllamaClient.endpoint OllamaClient.call_method
         OllamaClient.authorization OllamaClient.call_body].
    split; [exact Hroute|]. split.
    { split; [discriminate|]. intros H. apply includes_spec in H. congruence. }
    split; [left; reflexivity|]. rewrite Hp, Hm. repeat (split; [reflexivity|]).
    split.
    + intros response ->. reflexivity.
    + intros message ->. eexists. split; [reflexivity|].
      exists (js "Local Ollama connection failed: "), []. rewrite app_nil_r. reflexivity.
Qed.

Lemma chat_call_matches_native_route_witness :
  let req := {| Server.method := js "POST"; Server.pathname := js "/api/chat";
                Server.body := JSON.parse (json_text "{'model':'gpt-oss:120b'}") |} in
  exists call,
    Server.fetch req
    = Server.forwardOllamaRequest
        (OllamaClient.host call)
        (bool_decide (is_Some (OllamaClient.authorization call)))
    /\ (OllamaClient.host call = Server.OLLAMA_HOST <-> js "gpt-oss:120b" ∈ REMOTE_MODELS).
Proof.
  intros req.
  destruct (chat_call_matches_native_route unit
              {| OllamaClient.OLLAMA_API_KEY := Some (js "secret") |} (js "secret")
              (fun _ => OllamaClient.Resolves tt) (js "gpt-oss:120b")
              (Chat.buildOllamaRequest {| Chat.OLLAMA_STREAM := true |} (js "gpt-oss:120b") []
                 (plain_request "gpt-oss:120b" (MessagesArray []) None))
              req (JObj [(js "model", JStr (js "gpt-oss:120b"))])
              eq_refl ltac:(discriminate) eq_refl eq_refl
              ltac:(vm_compute; reflexivity) eq_refl ltac:(discriminate))
    as (call & H1 & H2 & _).
  exists call. split; assumption.
Defined.

(** X16. An error thrown by the client is never reported as an internal
    error by [handleError]: the reply is 401, 404 or 502, and it is the 401
    reply of the missing credential when a remote call was attempted without
    one.  The request id, when there is one, is put in the [param] field of
    the error. *)
Theorem client_errors_are_classified :
  forall (R : Type) env (fetch : OllamaClient.FetchCall -> OllamaClient.Fetched R)
         endpoint method body useRemote message requestId,
    OllamaClient.proxy env fetch endpoint method body useRemote
    = OllamaClient.Rejects message ->
    exists status error,
      ErrorHandler.handleError (ErrorHandler.ThrownError message) requestId
      = ErrorResponse status error
      /\ status ∈ [401; 404; 502]
      /\ err_param error = truthy_str requestId
      /\ (useRemote = true -> truthy_str (OllamaClient.OLLAMA_API_KEY env) = None ->
          status = 401
          /\ err_message error = js "OLLAMA_API_KEY environment variable is required"
          /\ err_type error = js "auth_error").
Proof.
  intros R env fetch endpoint method body useRemote message requestId H.
  assert (Hc : str_includes (js "OLLAMA_API_KEY") message = true
               \/ str_includes (js "connection") message = true).
  { unfold OllamaClient.proxy, OllamaClient.fetchRemote, OllamaClient.fetchLocal in H.
    destruct useRemote.
    - destruct (truthy_str _).
      + destruct (fetch _); [|discriminate]. injection H as <-. right.
        apply str_includes_spec. exists (js "Remote Ollama "), (js " failed: " ++ message0).
        reflexivity.
      + injection H as <-. left. reflexivity.
    - destruct (fetch _); [|discriminate]. injection H as <-. right.
      apply str_includes_spec. exists (js "Local Ollama "), (js " failed: " ++ message0).
      reflexivity. }
  assert (Hk : useRemote = true -> truthy_str (OllamaClient.OLLAMA_API_KEY env) = None ->
               str_includes (js "OLLAMA_API_KEY") message = true).
  { intros -> Hkey. unfold OllamaClient.proxy, OllamaClient.fetchRemote in H.
    rewrite Hkey in H. injection H as <-. reflexivity. }
  unfold ErrorHandler.handleError.
  destruct (str_includes (js "OLLAMA_API_KEY") message).
  { eexists _, _. split; [reflexivity|]. split; [repeat constructor|].
    split; [reflexivity|]. intros _ _. repeat split. }
  destruct (_ && _).
  { eexists _, _. split; [reflexivity|]. split; [repeat constructor|].
    split; [reflexivity|]. intros Hu Hkey. specialize (Hk Hu Hkey). discriminate. }
  destruct Hc as [Hc | Hc]; [discriminate|]. rewrite Hc, orb_true_r.
  eexists _, _. split; [reflexivity|]. split; [repeat constructor|].
  split; [reflexivity|]. intros Hu Hkey. specialize (Hk Hu Hkey). discriminate.
Qed.

Lemma client_errors_are_classified_witness :
  exists status error,
    ErrorHandler.handleError
      (ErrorHandler.ThrownError (js "Local Ollama connection failed: ECONNREFUSED"))
      (Some (js "req_1"))
    = ErrorResponse status error
    /\ status ∈ [401; 404; 502]
    /\ err_param error = Some (js "req_1").
Proof.
  destruct (client_errors_are_classified unit {| OllamaClient.OLLAMA_API_KEY := None |}
              (fun _ => OllamaClient.Rejects (js "ECONNREFUSED"))
              (js "/api/tags") (js "GET") OllamaClient.NoBody false
              (js "Local Ollama connection failed: ECONNREFUSED") (Some (js "req_1"))
              eq_refl)
    as (status & error & H1 & H2 & H3 & _).
  exists status, error. repeat split; assumption.
Defined.

(** ** Embeddings *)

Section EmbeddingsFacts.
Import OllamaClient Embeddings.
Variable requestId : jsstr.
Variable template : json -> jsstr.

Lemma embedLoop_success fetch model (texts : list jsstr) :
  forall (vectors : list (list json)) i acc total,
    length vectors = length texts ->
    (forall k text v,
        texts !! k = Some text -> vectors !! k = Some v ->
        exists d, generateEmbeddings (fetch (i + k)%nat) model text = Resolves d
                  /\ get (js "embedding") d = Some (JArr v)) ->
    embedLoop requestId fetch template model i (List.map JStr texts) acc total
    = Success {| emb_data := acc ++ embedding_items i vectors; emb_model := model;
                 emb_prompt_tokens := total + estimated_tokens texts;
                 emb_total_tokens := total + estimated_tokens texts |}.
Proof.
  induction texts as [|text texts IH]; intros vectors i acc total Hlen H.
  - destruct vectors; [|discriminate]. simpl. rewrite app_nil_r, N.add_0_r. reflexivity.
  - destruct vectors as [|v vectors]; [discriminate|].
    destruct (H 0%nat text v eq_refl eq_refl) as (d & Hd & Hg).
    rewrite Nat.add_0_r in Hd. cbn [List.map embedLoop]. rewrite Hd.
    destruct d; try discriminate Hg. rewrite Hg.
    rewrite (IH vectors (S i)).
    + cbn [embedding_items estimated_tokens fold_right].
      rewrite <- app_assoc, N.add_assoc. reflexivity.
    + simpl in Hlen. lia.
    + intros k text' v' Ht Hv. replace (S i + k)%nat with (i + S k)%nat by lia.
      apply H; assumption.
Qed.

Lemma generateEmbeddings_ext fetch fetch' model text :
  (forall call, local_call call -> endpoint call = js "/api/embeddings" ->
                fetch call = fetch' call) ->
  generateEmbeddings fetch model text = generateEmbeddings fetch' model text.
Proof.
  intros H. unfold generateEmbeddings, fetchLocal. rewrite H; [reflexivity | split | ]; reflexivity.
Qed.

Lemma embedLoop_ext fetch fetch' model inputs :
  (forall i call, local_call call -> endpoint call = js "/api/embeddings" ->
                  fetch i call = fetch' i call) ->
  forall i acc total,
    embedLoop requestId fetch template model i inputs acc total
    = embedLoop requestId fetch' template model i inputs acc total.
Proof.
  intros H. induction inputs as [|input inputs IH]; intros i acc total; [reflexivity|].
  destruct input; try reflexivity. cbn [embedLoop].
  rewrite (generateEmbeddings_ext (fetch i) (fetch' i) model s (H i)).
  destruct (generateEmbeddings (fetch' i) model s) as [message|d]; [reflexivity|].
  destruct d; try reflexivity;
    match goal with
    | |- context [get ?k ?v] => destruct (get k v) as [[]|]; try reflexivity; apply IH
    end.
Qed.

End EmbeddingsFacts.

(** X17. When every input is a string and the local runtime answers each
    one with an embedding array, the reply lists the embeddings in input
    order, numbered from 0, echoes the model, and reports as both token
    counts the sum over the inputs of the length divided by four, rounded
    up. *)
Theorem embeddings_in_input_order :
  forall requestId fetch template body model texts vectors,
    get (js "model") body = Some model -> truthy model = true ->
    get (js "input") body = Some (JArr (List.map JStr texts)) -> texts <> [] ->
    length vectors = length texts ->
    (forall i text v,
        texts !! i = Some text -> vectors !! i = Some v ->
        exists d, OllamaClient.generateEmbeddings (fetch i) model text
                  = OllamaClient.Resolves d
                  /\ get (js "embedding") d = Some (JArr v)) ->
    Embeddings.handleEmbeddings requestId fetch template (OllamaClient.Resolves body)
    = Embeddings.Success
        {| Embeddings.emb_data := embedding_items 0 vectors;
           Embeddings.emb_model := model;
           Embeddings.emb_prompt_tokens := estimated_tokens texts;
           Embeddings.emb_total_tokens := estimated_tokens texts |}.
Proof.
  intros requestId fetch template body model texts vectors Hm Ht Hi Hne Hlen H.
  unfold Embeddings.handleEmbeddings.
  destruct body; try discriminate Hm. rewrite Hm, Hi, Ht. cbn [truthy andb].
  destruct texts as [|text texts]; [congruence|].
  change (JStr text :: List.map JStr texts) with (List.map JStr (text :: texts)).
  apply (embedLoop_success requestId template fetch model (text :: texts) vectors 0 [] 0 Hlen).
  exact H.
Qed.

Lemma embeddings_in_input_order_witness :
  let fetch := fun (i : nat) (call : OllamaClient.FetchCall) =>
    OllamaClient.Resolves
      {| OllamaClient.embed_ok := true; OllamaClient.embed_status := 200;
         OllamaClient.embed_statusText := js "OK";
         OllamaClient.embed_json :=
           OllamaClient.Resolves (JObj [(js "embedding", JArr [JBool true])]) |} in
  Embeddings.handleEmbeddings (js "id") fetch (fun _ => [])
    (OllamaClient.Resolves
       (JObj [(js "model", JStr (js "nomic")); (js "input", JArr [JStr (js "hello"); JStr []])]))
  = Embeddings.Success
      {| Embeddings.emb_data :=
           [ {| Embeddings.item_embedding := [JBool true]; Embeddings.item_index := 0 |};
             {| Embeddings.item_embedding := [JBool true]; Embeddings.item_index := 1 |} ];
         Embeddings.emb_model := JStr (js "nomic");
         Embeddings.emb_prompt_tokens := 2;
         Embeddings.emb_total_tokens := 2 |}.
Proof.
  intros fetch.
  apply (embeddings_in_input_order (js "id") fetch (fun _ => [])
           (JObj [(js "model", JStr (js "nomic"));
                  (js "input", JArr [JStr (js "hello"); JStr []])])
           (JStr (js "nomic")) [js "hello"; []] [[JBool true]; [JBool true]]).
  - reflexivity.
  - reflexivity.
  - reflexivity.
  - discriminate.
  - reflexivity.
  - intros i text v _ Hv. exists (JObj [(js "embedding", JArr [JBool true])]).
    split; [reflexivity|].
    destruct i as [|[|i]]; simpl in Hv; try discriminate; injection Hv as <-; reflexivity.
Defined.

(** X18. A single non-empty string as [input] is treated as the array that
    holds it. *)
Theorem single_input_is_singleton_array :
  forall requestId fetch template body body' text,
    text <> [] ->
    get (js "model") body = get (js "model") body' ->
    get (js "input") body = Some (JStr text) ->
    get (js "input") body' = Some (JArr [JStr text]) ->
    Embeddings.handleEmbeddings requestId fetch template (OllamaClient.Resolves body)
    = Embeddings.handleEmbeddings requestId fetch template (OllamaClient.Resolves body').
Proof.
  intros requestId fetch template body body' text Hne Hm Hi Hi'.
  unfold Embeddings.handleEmbeddings.
  destruct body; try discriminate Hi. destruct body'; try discriminate Hi'.
  rewrite Hm, Hi, Hi'. destruct text; [congruence|]. reflexivity.
Qed.

Lemma single_input_is_singleton_array_witness :
  Embeddings.handleEmbeddings (js "id")
    (fun _ _ => OllamaClient.Rejects (js "ECONNREFUSED")) (fun _ => [])
    (OllamaClient.Resolves (JObj [(js "model", JStr (js "nomic")); (js "input", JStr (js "hi"))]))
  = Embeddings.handleEmbeddings (js "id")
      (fun _ _ => OllamaClient.Rejects (js "ECONNREFUSED")) (fun _ => [])
      (OllamaClient.Resolves
         (JObj [(js "model", JStr (js "nomic")); (js "input", JArr [JStr (js "hi")])])).
Proof.
  apply (single_input_is_singleton_array (js "id") _ _ _ _ (js "hi")).
  - discriminate.
  - reflexivity.
  - reflexivity.
  - reflexivity.
Defined.

(** X19. An error status from the runtime is not reported as a missing
    model: when the call for the first input gets a response that is not
    [ok], the reply is 500 [Failed to generate embeddings], whatever the
    status (404 included), unless the status text itself contains [Model]. *)
Theorem embeddings_http_error_is_500 :
  forall requestId fetch template body model text rest response,
    get (js "model") body = Some model -> truthy model = true ->
    get (js "input") body = Some (JArr (JStr text :: rest)) ->
    fetch 0%nat {| OllamaClient.host := Server.LOCAL_OLLAMA_HOST;
                   OllamaClient.endpoint := js "/api/embeddings";
                   OllamaClient.call_method := js "POST";
                   OllamaClient.authorization := None;
                   OllamaClient.call_body :=
                     OllamaClient.EmbeddingsBody model text (js "5m") |}
    = OllamaClient.Resolves response ->
    OllamaClient.embed_ok response = false ->
    str_includes (js "Model") (OllamaClient.embed_statusText response) = false ->
    Embeddings.handleEmbeddings requestId fetch template (OllamaClient.Resolves body)
    = Embeddings.Failure
        (createErrorResponse (js "Failed to generate embeddings") (js "api_error") 500
                             (Some requestId) None).
Proof.
  intros requestId fetch template body model text rest response Hm Ht Hi Hf Hok Hs.
  unfold Embeddings.handleEmbeddings.
  destruct body; try discriminate Hm. rewrite Hm, Hi, Ht. cbn [truthy andb Embeddings.embedLoop].
  unfold OllamaClient.generateEmbeddings, OllamaClient.fetchLocal. rewrite Hf, Hok.
  replace (str_includes (js "Model") _) with false; [reflexivity|].
  symmetry. apply not_true_iff_false. intros H. apply str_includes_spec in H.
  apply not_true_iff_false in Hs. apply Hs, str_includes_spec.
  rewrite !app_assoc in H. revert H. apply (contains_skip 77 (js "odel")).
  rewrite !elem_of_app. intros [[H|H]|H].
  - revert H. apply (bool_decide_unpack _). vm_compute. exact I.
  - pose proof (N_to_jsstr_digits (OllamaClient.embed_status response)) as Hd.
    rewrite Forall_forall in Hd. specialize (Hd _ H). lia.
  - revert H. apply (bool_decide_unpack _). vm_compute. exact I.
Qed.

Lemma embeddings_http_error_is_500_witness :
  Embeddings.handleEmbeddings (js "id")
    (fun _ _ => OllamaClient.Resolves
                  {| OllamaClient.embed_ok := false; OllamaClient.embed_status := 404;
                     OllamaClient.embed_statusText := js "Not Found";
                     OllamaClient.embed_json :=
                       OllamaClient.Resolves
                         (JObj [(js "error", JStr (js "model 'nomic' not found"))]) |})
    (fun _ => [])
    (OllamaClient.Resolves
       (JObj [(js "model", JStr (js "nomic")); (js "input", JArr [JStr (js "hi")])]))
  = Embeddings.Failure
      (createErrorResponse (js "Failed to generate embeddings") (js "api_error") 500
                           (Some (js "id")) None).
Proof.
  apply (embeddings_http_error_is_500 (js "id") _ _ _ (JStr (js "nomic")) (js "hi") []
           {| OllamaClient.embed_ok := false; OllamaClient.embed_status := 404;
              OllamaClient.embed_statusText := js "Not Found";
              OllamaClient.embed_json :=
                OllamaClient.Resolves
                  (JObj [(js "error", JStr (js "model 'nomic' not found"))]) |}).
  - reflexivity.
  - reflexivity.
  - reflexivity.
  - reflexivity.
  - reflexivity.
  - vm_compute. reflexivity.
Defined.

(** X20. Embeddings are computed by the local runtime only, allowlisted
    models included, and without credential: the reply depends on the
    network only through the answers to calls of [/api/embeddings] on the
    local host that carry no [Authorization] header. *)
Theorem embeddings_use_local_runtime_only :
  forall requestId fetch fetch' template body,
    (forall i call,
        local_call call -> OllamaClient.endpoint call = js "/api/embeddings" ->
        fetch i call = fetch' i call) ->
    Embeddings.handleEmbeddings requestId fetch template body
    = Embeddings.handleEmbeddings requestId fetch' template body.
Proof.
  intros requestId fetch fetch' template body H. unfold Embeddings.handleEmbeddings.
  destruct body as [message|body]; [reflexivity|].
  destruct body; try reflexivity.
  destruct (get _ _) as [model|]; [|reflexivity].
  destruct (get _ _) as [input|]; [|reflexivity].
  destruct (_ && _); [|reflexivity].
  destruct (match input with JArr l => l | _ => [input] end); [reflexivity|].
  apply embedLoop_ext. exact H.
Qed.

Lemma embeddings_use_local_runtime_only_witness :
  let body := OllamaClient.Resolves
                (JObj [(js "model", JStr (js "gpt-oss:20b")); (js "input", JStr (js "hi"))]) in
  let answer := OllamaClient.Resolves
                  {| OllamaClient.embed_ok := true; OllamaClient.embed_status := 200;
                     OllamaClient.embed_statusText := js "OK";
                     OllamaClient.embed_json :=
                       OllamaClient.Resolves (JObj [(js "embedding", JArr [])]) |} in
  Embeddings.handleEmbeddings (js "id") (fun _ _ => answer) (fun _ => []) body
  = Embeddings.handleEmbeddings (js "id")
      (fun _ call =>
         match OllamaClient.host call with
         | Server.LOCAL_OLLAMA_HOST => answer
         | Server.OLLAMA_HOST => OllamaClient.Rejects (js "unreachable")
         end)
      (fun _ => []) body.
Proof.
  intros body answer.
  apply (embeddings_use_local_runtime_only (js "id")).
  intros i call [Hh _] _. rewrite Hh. reflexivity.
Defined.

(** ** The [.env] file *)

Section EnvFileFacts.
Import EnvFile.

Lemma split_on_nonempty (sep : N) (s : jsstr) : split_on sep s <> [].
Proof.
  induction s as [|c r IH]; simpl; [discriminate|].
  destruct (c =? sep); [discriminate|]. destruct (split_on sep r); discriminate.
Qed.

Lemma split_on_app (sep : N) (a b : jsstr) :
  split_on sep (a ++ sep :: b) = split_on sep a ++ split_on sep b.
Proof.
  induction a as [|c a IH]; simpl.
  - rewrite N.eqb_refl. reflexivity.
  - destruct (c =? sep); [rewrite IH; reflexivity|].
    rewrite IH. pose proof (split_on_nonempty sep a) as Hne.
    destruct (split_on sep a); [congruence | reflexivity].
Qed.

Lemma split_on_absent (sep : N) (s : jsstr) : sep ∉ s -> split_on sep s = [s].
Proof.
  induction s as [|c r IH]; intros H; simpl; [reflexivity|].
  destruct (N.eqb_spec c sep) as [->|_]; [exfalso; apply H; left|].
  rewrite IH; [reflexivity|]. intros Hin. apply H. right. exact Hin.
Qed.


End EnvFileFacts.



Section EnvLineFacts.
Import EnvFile.

Lemma split_on_join_lines (ls : list jsstr) :
  ls <> [] -> split_on 10 (join [10] ls) = concat (List.map (split_on 10) ls).
Proof.
  induction ls as [|x ls IH]; intros H; [congruence|].
  destruct ls as [|y ls]; [simpl; rewrite app_nil_r; reflexivity|].
  change (join [10] (x :: y :: ls)) with (x ++ 10 :: join [10] (y :: ls)).
  rewrite split_on_app, IH by discriminate. reflexivity.
Qed.

Lemma env_step_cut (acc : gmap jsstr jsstr) (key value rest : jsstr) :
  61 ∉ key -> 61 ∉ value ->
  env_step acc (key ++ 61 :: value ++ 61 :: rest) = env_step acc (key ++ 61 :: value).
Proof.
  intros Hk Hv. unfold env_step.
  rewrite !split_on_app, (split_on_absent 61 key Hk), (split_on_absent 61 value Hv).
  cbn [app]. pose proof (split_on_nonempty 61 rest) as Hne.
  destruct key; [reflexivity|]. destruct value; [|reflexivity].
  destruct (split_on 61 rest); [congruence | reflexivity].
Qed.

End EnvLineFacts.

(** X22. A value is cut at its first [=]: on any line of the [.env] text,
    whatever follows a second [=] is dropped, so that a credential containing
    [=] is loaded truncated.  The text is given by its lines, joined by line
    feeds. *)
Theorem env_value_cut_at_equals_sign :
  forall before after key value rest,
    10 ∉ key -> 61 ∉ key -> 10 ∉ value -> 61 ∉ value -> 10 ∉ rest ->
    EnvFile.envVars (join [10] (before ++ (key ++ 61 :: value ++ 61 :: rest) :: after))
    = EnvFile.envVars (join [10] (before ++ (key ++ 61 :: value) :: after)).
Proof.
  intros before after key value rest Hk1 Hk2 Hv1 Hv2 Hr.
  unfold EnvFile.envVars.
  rewrite !split_on_join_lines by (destruct before; discriminate).
  rewrite !List.map_app, !concat_app. cbn [List.map concat].
  rewrite !fold_left_app.
  rewrite (split_on_absent 10 (key ++ 61 :: value ++ 61 :: rest)).
  2:{ rewrite elem_of_app, elem_of_cons, elem_of_app, elem_of_cons.
      intros [H|[H|[H|[H|H]]]]; auto; discriminate. }
  rewrite (split_on_absent 10 (key ++ 61 :: value)).
  2:{ rewrite elem_of_app, elem_of_cons. intros [H|[H|H]]; [auto | discriminate | auto]. }
  cbn [fold_left]. rewrite env_step_cut by assumption. reflexivity.
Qed.

Lemma env_value_cut_at_equals_sign_witness :
  EnvFile.envVars (js "OLLAMA_API_KEY=c2VjcmV0==" ++ [10] ++ js "PORT=1" ++ [10])
  = EnvFile.envVars (js "OLLAMA_API_KEY=c2VjcmV0" ++ [10] ++ js "PORT=1" ++ [10]).
Proof.
  apply (env_value_cut_at_equals_sign [] [js "PORT=1"; []] (js "OLLAMA_API_KEY")
           (js "c2VjcmV0") (js "=")).
  - apply (bool_decide_unpack _). vm_compute. exact I.
  - apply (bool_decide_unpack _). vm_compute. exact I.
  - apply (bool_decide_unpack _). vm_compute. exact I.
  - apply (bool_decide_unpack _). vm_compute. exact I.
  - apply (bool_decide_unpack _). vm_compute. exact I.
Defined.
